(** * Roast Studio: round/session state machine and live-playback protocol

    A shallow embedding of the round store (the SQL migrations), the two
    backend functions [session-manager] and [complete-live-round], the
    message-used trigger and row-level policy, and the client playback
    scheduler and follower of the watch view, together with the properties
    the specification states about them.

    Conventions.  Row ids (UUIDs) are natural numbers.  Timestamps are
    integers in milliseconds.  A table is the list of its rows; the order of
    the list stands for whatever order the store answers a query without
    ORDER BY in, which PostgreSQL does not fix.  Every awaited
    store call is one atomic step; a backend function is a sequence of such
    steps, and values the environment supplies (the clock, the random draw,
    freshly generated ids) are explicit arguments.  Within one invocation the
    caller's clock and the store's now() are read as one value.  Store calls
    do not fail, except where a trigger or a row-level policy aborts a
    statement. *)

From Stdlib Require Import ZArith List Bool Lia String QArith Qabs.
From Stdlib Require Floats Uint63.
From stdpp Require Import gmap.
Import ListNotations.

Local Open Scope Z_scope.

Definition uuid := nat.
Bind Scope nat_scope with uuid.

(** ** Data model (supabase/migrations) *)

Module Status.
(** roast_sessions.status CHECK (status IN ('OPEN','LOCKED','LIVE','ARCHIVED')) *)
Inductive t := OPEN | LOCKED | LIVE | ARCHIVED.

Definition eqb (a b : t) : bool :=
  match a, b with
  | OPEN, OPEN | LOCKED, LOCKED | LIVE, LIVE | ARCHIVED, ARCHIVED => true
  | _, _ => false
  end.

(** Position along OPEN, LOCKED, LIVE, ARCHIVED. *)
Definition rank (a : t) : nat :=
  match a with OPEN => 0 | LOCKED => 1 | LIVE => 2 | ARCHIVED => 3 end.

(** .in("status", ["OPEN", "LOCKED", "LIVE"]) *)
Definition active (a : t) : bool :=
  match a with ARCHIVED => false | _ => true end.
End Status.

Module RoundState.
(** global_round_state.round_state CHECK (... IN ('SUBMITTING','LIVE','WAITING')) *)
Inductive t := SUBMITTING | LIVE | WAITING.

Definition eqb (a b : t) : bool :=
  match a, b with
  | SUBMITTING, SUBMITTING | LIVE, LIVE | WAITING, WAITING => true
  | _, _ => false
  end.
End RoundState.

Inductive HostType := HostA | HostB.

Record Persona := mkPersona {
  p_id : uuid;
  p_username : string;
  p_profile_pic_url : option string
}.

Record Session := mkSession {
  s_id : uuid;
  s_persona_id : option uuid;
  s_persona_name : string;
  s_persona_avatar : option string;
  s_status : Status.t;
  s_start_time : Z;
  s_lock_time : option Z;
  s_created_at : Z
}.

Record Message := mkMessage {
  m_id : uuid;
  m_session_id : uuid;
  m_audio_url : option string;
  m_transcript : option string;
  m_used : bool;
  m_created_at : Z
}.

Record Exchange := mkExchange {
  e_session_id : uuid;
  e_message_id : option uuid;
  e_host_type : HostType;
  e_sequence_number : Z
}.

Record GlobalRow := mkGlobalRow {
  g_id : uuid;
  g_session_id : option uuid;
  g_round_state : RoundState.t;
  g_current_roast_index : Z;
  g_total_roasts : Z;
  g_live_start_time : option Z;
  g_submit_end_time : option Z;
  g_updated_at : Z
}.

Record DB := mkDB {
  roast_sessions : list Session;
  roast_messages : list Message;
  personas : list Persona;
  roast_exchanges : list Exchange;
  global_round_state : list GlobalRow
}.

Definition set_sessions (l : list Session) (db : DB) : DB :=
  mkDB l (roast_messages db) (personas db) (roast_exchanges db) (global_round_state db).
Definition set_messages (l : list Message) (db : DB) : DB :=
  mkDB (roast_sessions db) l (personas db) (roast_exchanges db) (global_round_state db).
Definition set_global (l : list GlobalRow) (db : DB) : DB :=
  mkDB (roast_sessions db) (roast_messages db) (personas db) (roast_exchanges db) l.

Definition with_status (st : Status.t) (s : Session) : Session :=
  mkSession (s_id s) (s_persona_id s) (s_persona_name s) (s_persona_avatar s)
            st (s_start_time s) (s_lock_time s) (s_created_at s).

Definition with_used (u : bool) (m : Message) : Message :=
  mkMessage (m_id m) (m_session_id m) (m_audio_url m) (m_transcript m) u (m_created_at m).

(** ** Store queries *)

Definition opt_uuid_eqb (a : option uuid) (b : uuid) : bool :=
  match a with Some x => Nat.eqb x b | None => false end.

(** An optional timestamp compared with [<=]; a NULL never matches. *)
Definition opt_leb (a : option Z) (b : Z) : bool :=
  match a with Some x => x <=? b | None => false end.

(** .eq("id", id).maybeSingle() *)
Definition find_session (id : uuid) (db : DB) : option Session :=
  List.find (fun s => Nat.eqb (s_id s) id) (roast_sessions db).

Definition status_of (id : uuid) (db : DB) : option Status.t :=
  option_map s_status (find_session id db).

(** count of rows .eq("session_id", id).eq("used", false) *)
Definition count_unused (id : uuid) (db : DB) : Z :=
  Z.of_nat (List.length
    (List.filter (fun m => Nat.eqb (m_session_id m) id && negb (m_used m))
                 (roast_messages db))).

(** ORDER BY key DESC LIMIT 1.  Among rows with equal keys the one stored
    first is returned. *)
Fixpoint latest_by {A : Type} (key : A -> Z) (l : list A) : option A :=
  match l with
  | [] => None
  | x :: r =>
      match latest_by key r with
      | None => Some x
      | Some m => if key m <=? key x then Some x else Some m
      end
  end.

(** .from("global_round_state").order("updated_at", desc).limit(1).maybeSingle() *)
Definition latest_global (db : DB) : option GlobalRow :=
  latest_by g_updated_at (global_round_state db).

(** ** Write journal

    Every row a store call writes is journalled, with the values it
    replaced, so that a property of "every write" can be stated over a whole
    run.  The rows the used-flag trigger rewrites inside an UPDATE of
    roast_messages belong to that statement and have no entry of their own. *)

Inductive Write :=
| WSessionStatus (sid : uuid) (old new : Status.t)
| WSessionInsert (s : Session)
| WMessageUsed (mid : uuid) (owner : option Status.t) (old new : bool)
| WGlobal (g : GlobalRow).

(** A store computation: reads and updates the tables, journals its writes. *)
Definition M (A : Type) : Type := DB -> A * DB * list Write.

Definition ret {A} (a : A) : M A := fun db => (a, db, []).

Definition bind {A B} (c : M A) (k : A -> M B) : M B :=
  fun db =>
    let '(a, db1, w1) := c db in
    let '(b, db2, w2) := k a db1 in
    (b, db2, w1 ++ w2).

Definition get {A} (q : DB -> A) : M A := fun db => (q db, db, []).

#[global] Instance M_ret : MRet M := @ret.
#[global] Instance M_bind : MBind M := fun A B k c => bind c k.

Fixpoint for_each {A} (l : list A) (body : A -> M unit) : M unit :=
  match l with
  | [] => ret tt
  | x :: r => body x;; for_each r body
  end.

Definition result {A} (x : A * DB * list Write) : A := fst (fst x).
Definition final {A} (x : A * DB * list Write) : DB := snd (fst x).
Definition journal {A} (x : A * DB * list Write) : list Write := snd x.

(** .from("roast_sessions").update({ status: st }).<filter p>
    Each row that passes the filter is replaced by the row with the new
    status and the others are kept; that the list keeps its positions is the
    model's choice, not a promise of the store. *)
Definition update_status (p : Session -> bool) (st : Status.t) : M unit :=
  fun db =>
    (tt,
     set_sessions (map (fun s => if p s then with_status st s else s) (roast_sessions db)) db,
     map (fun s => WSessionStatus (s_id s) (s_status s) st)
         (List.filter p (roast_sessions db))).

Definition by_id (id : uuid) (s : Session) : bool := Nat.eqb (s_id s) id.

(** .from("roast_sessions").insert(row) *)
Definition insert_session (s : Session) : M unit :=
  fun db => (tt, set_sessions (roast_sessions db ++ [s]) db, [WSessionInsert s]).

(** ** Trigger [increment_global_round_progress_on_message_used]
    (migration 20260105210631) *)

(** PostgreSQL INTEGER is 32-bit; an addition that leaves the range raises
    "integer out of range" and aborts the statement. *)
Definition int4_max : Z := 2147483647.
Definition int4_min : Z := -2147483648.
Definition int4_add (a b : Z) : option Z :=
  let r := a + b in
  if (int4_min <=? r) && (r <=? int4_max) then Some r else None.

(** LEAST(a, b) *)
Definition LEAST (a b : Z) : Z := Z.min a b.

Definition with_progress (idx now : Z) (g : GlobalRow) : GlobalRow :=
  mkGlobalRow (g_id g) (g_session_id g) (g_round_state g) idx (g_total_roasts g)
              (g_live_start_time g) (g_submit_end_time g) now.

(** WHERE session_id = NEW.session_id AND round_state = 'LIVE' *)
Definition progress_target (sid : uuid) (g : GlobalRow) : bool :=
  opt_uuid_eqb (g_session_id g) sid && RoundState.eqb (g_round_state g) RoundState.LIVE.

(** The UPDATE inside the trigger, on one row of global_round_state. *)
Definition progress_row (now : Z) (sid : uuid) (g : GlobalRow) : option GlobalRow :=
  if progress_target sid g then
    match int4_add (g_current_roast_index g) 1 with
    | Some n => Some (with_progress (LEAST (g_total_roasts g) n) now g)
    | None => None
    end
  else Some g.

Fixpoint progress_rows (now : Z) (sid : uuid) (rows : list GlobalRow)
  : option (list GlobalRow) :=
  match rows with
  | [] => Some []
  | g :: r =>
      match progress_row now sid g, progress_rows now sid r with
      | Some g', Some r' => Some (g' :: r')
      | _, _ => None
      end
  end.

(** The trigger function, fired AFTER UPDATE OF used, FOR EACH ROW. *)
Definition increment_global_round_progress_on_message_used
    (now : Z) (OLD NEW : Message) (rows : list GlobalRow) : option (list GlobalRow) :=
  if negb (Bool.eqb (m_used OLD) (m_used NEW)) && m_used NEW
  then progress_rows now (m_session_id NEW) rows
  else Some rows.

Definition within_total (g : GlobalRow) : Prop :=
  g_current_roast_index g <= g_total_roasts g.

(** The trigger acts on a row exactly when the message went from unused to
    used and the row is the LIVE row of the message's session. *)
Definition trigger_hits (OLD NEW : Message) (g : GlobalRow) : bool :=
  negb (m_used OLD) && m_used NEW && progress_target (m_session_id NEW) g.

(** The trigger run for every row an UPDATE of [used] to [v] touched. *)
Fixpoint fire_triggers (now : Z) (v : bool) (touched : list Message)
    (rows : list GlobalRow) : option (list GlobalRow) :=
  match touched with
  | [] => Some rows
  | m :: r =>
      match increment_global_round_progress_on_message_used now m (with_used v m) rows with
      | Some rows' => fire_triggers now v r rows'
      | None => None
      end
  end.

(** EXISTS (SELECT 1 FROM roast_sessions WHERE id = sid AND status = 'LIVE') *)
Definition session_is_live (sid : uuid) (db : DB) : bool :=
  existsb (fun s => by_id sid s && Status.eqb (s_status s) Status.LIVE) (roast_sessions db).

Definition owner_status (m : Message) (db : DB) : option Status.t :=
  status_of (m_session_id m) db.

(** UPDATE roast_messages SET used = v WHERE p, with the rows the trigger
    rewrites in global_round_state.  The result is [false], and nothing is
    changed, when the statement aborts. *)
Definition update_used (now : Z) (p : Message -> bool) (v : bool) : M bool :=
  fun db =>
    let touched := List.filter p (roast_messages db) in
    match fire_triggers now v touched (global_round_state db) with
    | Some rows =>
        (true,
         set_global rows
           (set_messages (map (fun m => if p m then with_used v m else m)
                              (roast_messages db)) db),
         map (fun m => WMessageUsed (m_id m) (owner_status m db) (m_used m) v) touched)
    | None => (false, db, [])
    end.

(** ** Row-level policy "Anyone can mark messages used in live sessions"
    (migration 20260105150410, FOR UPDATE on roast_messages) *)

Definition policy_using (db : DB) (m : Message) : bool :=
  session_is_live (m_session_id m) db.

Definition policy_with_check (db : DB) (m : Message) : bool :=
  session_is_live (m_session_id m) db && Bool.eqb (m_used m) true.

(** An UPDATE of [used] issued with the publishable key: rows the USING
    clause rejects are invisible to it, and a new row the WITH CHECK clause
    rejects aborts the statement. *)
Definition client_update_used (now : Z) (p : Message -> bool) (v : bool) : M bool :=
  fun db =>
    let visible := fun m => p m && policy_using db m in
    if forallb (fun m => policy_with_check db (with_used v m))
               (List.filter visible (roast_messages db))
    then update_used now visible v db
    else (false, db, []).

(** markMessageUsed (watch view) and the studio view's update:
    .update({ used: true }).eq("id", messageId) *)
Definition markMessageUsed (now : Z) (messageId : uuid) : M bool :=
  client_update_used now (fun m => Nat.eqb (m_id m) messageId) true.

(** ** updateGlobalRoundState (both backend functions carry the same helper) *)

Definition stateUpdate (g : uuid) (sessionId : option uuid) (roundState : RoundState.t)
    (totalRoasts : Z) (submitEndTime liveStartTime : option Z) (now : Z) : GlobalRow :=
  mkGlobalRow g sessionId roundState 0 totalRoasts liveStartTime submitEndTime now.

(** .update(stateUpdate).eq("id", id); the BEFORE UPDATE trigger stamps
    updated_at. *)
Definition update_global (id : uuid) (sessionId : option uuid) (roundState : RoundState.t)
    (totalRoasts : Z) (submitEndTime liveStartTime : option Z) (now : Z) : M unit :=
  fun db =>
    let hit := fun g => Nat.eqb (g_id g) id in
    let new := fun g =>
      stateUpdate (g_id g) sessionId roundState totalRoasts submitEndTime liveStartTime now in
    (tt,
     set_global (map (fun g => if hit g then new g else g) (global_round_state db)) db,
     map (fun g => WGlobal (new g)) (List.filter hit (global_round_state db))).

Definition insert_global (g : GlobalRow) : M unit :=
  fun db => (tt, set_global (global_round_state db ++ [g]) db, [WGlobal g]).

Definition updateGlobalRoundState (now : Z) (new_gid : uuid)
    (sessionId : option uuid) (roundState : RoundState.t)
    (submitEndTime liveStartTime : option Z) : M unit :=
  totalRoasts ← get (fun db =>
    match sessionId with Some id => count_unused id db | None => 0 end);
  existing ← get latest_global;
  match existing with
  | Some e =>
      update_global (g_id e) sessionId roundState totalRoasts submitEndTime liveStartTime now
  | None =>
      insert_global
        (stateUpdate new_gid sessionId roundState totalRoasts submitEndTime liveStartTime now)
  end.

(** ** Round-Completion Service (supabase/functions/complete-live-round) *)

Inductive Response :=
| BadRequest                       (* 400: sessionId is required *)
| NotFound                         (* 404: Session not found *)
| ServerError                      (* 500: an exception reached the catch *)
| Success (archivedSessionId : uuid) (createdSessionId : option uuid).

(** What the environment supplies to one invocation: the clock, the value of
    Math.floor(Math.random() * personas.length), and the ids the store
    generates for inserted rows. *)
Record Env := mkEnv {
  now : Z;
  random_index : nat;
  new_session_id : uuid;
  new_global_id : uuid
}.

(** Archive the LIVE session (no-op if already archived or not LIVE). *)
Definition archive_live (sessionId : uuid) : M unit :=
  update_status (fun s => by_id sessionId s && Status.eqb (s_status s) Status.LIVE)
                Status.ARCHIVED.

(** Safety: mark any remaining unused messages as used.  The function holds
    the service-role key, which row-level policies do not bind. *)
Definition mark_remaining_used (t : Z) (sessionId : uuid) : M bool :=
  update_used t (fun m => Nat.eqb (m_session_id m) sessionId && negb (m_used m)) true.

(** .in("status", ["OPEN", "LOCKED", "LIVE"]).limit(1) *)
Definition activeSessions (db : DB) : list Session :=
  firstn 1 (List.filter (fun s => Status.active (s_status s)) (roast_sessions db)).

Definition roundState_of_status (st : Status.t) : RoundState.t :=
  match st with
  | Status.OPEN => RoundState.SUBMITTING
  | Status.LOCKED | Status.LIVE => RoundState.LIVE
  | Status.ARCHIVED => RoundState.WAITING
  end.

Definition create_next_session (e : Env) (sessionId : uuid) : M Response :=
  ps ← get personas;
  match ps with
  | [] =>
      (* No personas available, set to WAITING *)
      updateGlobalRoundState (now e) (new_global_id e) None RoundState.WAITING None None;;
      ret (Success sessionId None)
  | _ :: _ =>
      match nth_error ps (random_index e) with
      | None => ret ServerError
      | Some persona =>
          let startTime := now e in
          let lockTime := startTime + 2 * 60 * 1000 in
          insert_session
            (mkSession (new_session_id e) (Some (p_id persona)) (p_username persona)
                       (p_profile_pic_url persona) Status.OPEN startTime (Some lockTime)
                       (now e));;
          updateGlobalRoundState (now e) (new_global_id e) (Some (new_session_id e))
                                 RoundState.SUBMITTING (Some lockTime) None;;
          ret (Success sessionId (Some (new_session_id e)))
      end
  end.

(** There's still an active session, update global state based on its status. *)
Definition reconcile (e : Env) (sessionId : uuid) (activeSession : Session) : M Response :=
  activeSessionData ← get (find_session (s_id activeSession));
  match activeSessionData with
  | Some d =>
      updateGlobalRoundState (now e) (new_global_id e) (Some (s_id activeSession))
        (roundState_of_status (s_status d))
        (s_lock_time d)
        (if Status.eqb (s_status d) Status.LIVE then Some (now e) else None)
  | None => ret tt
  end;;
  ret (Success sessionId None).

Definition ensure_next_session (e : Env) (sessionId : uuid) : M Response :=
  act ← get activeSessions;
  match act with
  | [] => create_next_session e sessionId
  | activeSession :: _ => reconcile e sessionId activeSession
  end.

(** The handler of a POST request past the method checks.  [body] is the
    sessionId of the JSON body: [None] when it is missing or falsy, [Some id]
    when it is a UUID.  The other requests (another method, a sessionId that
    is not a UUID) are answered in [serve_complete_live_round] below. *)
Definition complete_live_round (e : Env) (body : option uuid) : M Response :=
  match body with
  | None => ret BadRequest
  | Some sessionId =>
      session ← get (find_session sessionId);
      match session with
      | None => ret NotFound
      | Some _ =>
          archive_live sessionId;;
          mark_remaining_used (now e) sessionId ≫= λ ok : bool,
          if ok then ensure_next_session e sessionId else ret ServerError
      end
  end.

(** ** Session Lifecycle Controller (supabase/functions/session-manager) *)

(** .eq("status", "OPEN").lte("lock_time", now) *)
Definition read_open_due (t : Z) : M (list Session) :=
  get (fun db =>
    List.filter (fun s => Status.eqb (s_status s) Status.OPEN && opt_leb (s_lock_time s) t)
                (roast_sessions db)).

Definition write_locked (openSessions : list Session) : M unit :=
  for_each openSessions (fun session =>
    update_status (by_id (s_id session)) Status.LOCKED).

(** .eq("status", "LOCKED").lte("lock_time", tenSecondsAgo) *)
Definition read_locked_due (t : Z) : M (list Session) :=
  let tenSecondsAgo := t - 10 * 1000 in
  get (fun db =>
    List.filter (fun s => Status.eqb (s_status s) Status.LOCKED
                          && opt_leb (s_lock_time s) tenSecondsAgo)
                (roast_sessions db)).

Definition go_live (t : Z) (gid : uuid) (session : Session) : M unit :=
  update_status (by_id (s_id session)) Status.LIVE;;
  updateGlobalRoundState t gid (Some (s_id session)) RoundState.LIVE
                         (s_lock_time session) (Some t).

Definition write_live (t : Z) (gid : uuid) (lockedSessions : list Session) : M unit :=
  for_each lockedSessions (go_live t gid).

(** Check for sessions that just became OPEN and update global state. *)
Definition sync_open (t : Z) (gid : uuid) : M unit :=
  cur ← get (fun db =>
    latest_by s_created_at
      (List.filter (fun s => Status.eqb (s_status s) Status.OPEN) (roast_sessions db)));
  match cur with
  | None => ret tt
  | Some session =>
      globalState ← get latest_global;
      let stale :=
        match globalState with
        | None => true
        | Some g => negb (opt_uuid_eqb (g_session_id g) (s_id session))
                    || negb (RoundState.eqb (g_round_state g) RoundState.SUBMITTING)
        end in
      if stale
      then updateGlobalRoundState t gid (Some (s_id session)) RoundState.SUBMITTING
                                  (s_lock_time session) None
      else ret tt
  end.

Definition archive_if_stale (t : Z) (gid : uuid) (session : Session) : M unit :=
  count ← get (count_unused (s_id session));
  if count =? 0 then
    sessionData ← get (find_session (s_id session));
    match sessionData with
    | Some d =>
        match s_lock_time d with
        | Some lockTime =>
            let timeSinceLock := t - lockTime in
            if 5 * 60 * 1000 <? timeSinceLock then
              update_status (by_id (s_id session)) Status.ARCHIVED;;
              updateGlobalRoundState t gid None RoundState.WAITING None None
            else ret tt
        | None => ret tt
        end
    | None => ret tt
    end
  else ret tt.

(** Check for LIVE sessions that have no more unused messages - archive them. *)
Definition archive_stale (t : Z) (gid : uuid) : M unit :=
  liveSessions ← get (fun db =>
    List.filter (fun s => Status.eqb (s_status s) Status.LIVE) (roast_sessions db));
  for_each liveSessions (archive_if_stale t gid).

(** An invocation from the point where its first query has returned
    [openSessions]. *)
Definition session_manager_resume (t : Z) (gid : uuid) (openSessions : list Session)
  : M (nat * nat) :=
  write_locked openSessions;;
  lockedSessions ← read_locked_due t;
  write_live t gid lockedSessions;;
  sync_open t gid;;
  archive_stale t gid;;
  ret (List.length openSessions, List.length lockedSessions).

(** One invocation; the result is the pair of counters of the response. *)
Definition session_manager (t : Z) (gid : uuid) : M (nat * nat) :=
  openSessions ← read_open_due t;
  session_manager_resume t gid openSessions.

(** ** Numbers of the watch view (IEEE 754 binary64)

    A finite double is [mantissa * 2 ^ exponent] with a mantissa of at most
    53 bits.  The result of an arithmetic operation is the double nearest
    its exact result, a tie going to the even mantissa.  The range of the
    exponent is left out: time values are integers below 2^53 in size, and
    neither overflow nor a subnormal result arises from their differences
    and quotients by 1000. *)

Record double := mkDouble {
  mantissa : Z;
  exponent : Z;
  mantissa_fits : (Z.abs mantissa <? 2 ^ 53) = true
}.

(** [m * 2 ^ e] as a rational. *)
Definition dyadic (m e : Z) : Q :=
  if 0 <=? e then inject_Z (m * 2 ^ e) else m # Z.to_pos (2 ^ (- e)).

Definition value (d : double) : Q := dyadic (mantissa d) (exponent d).

(** [a / b] rounded to the nearest integer, a tie to the even one (0 < b). *)
Definition rne (a b : Z) : Z :=
  let q := a / b in
  let r := a mod b in
  if 2 * r <? b then q
  else if b <? 2 * r then q + 1
  else if Z.even q then q else q + 1.

(** The double nearest the integer [z]: [z] itself below 2^53, and above it
    the nearest multiple of the power of two that leaves 53 bits. *)
Definition round_int (z : Z) : Z :=
  if Z.abs z <? 2 ^ 53 then z
  else
    let j := Z.log2 (Z.abs z) - 52 in
    Z.sgn z * (rne (Z.abs z) (2 ^ j) * 2 ^ j).

(** The double nearest [a / b] for positive integers: with [s] the scale
    that puts [a * 2^s / b] in [2^52, 2^53), the quotient is rounded to an
    integer mantissa there. *)
Definition div_scale (a b : Z) : Z :=
  let s0 := 52 + Z.log2 b - Z.log2 a in
  if 2 ^ 52 * (b * 2 ^ Z.max (- s0) 0) <=? a * 2 ^ Z.max s0 0 then s0 else s0 + 1.

Definition div_mantissa (a b : Z) : Z :=
  let s := div_scale a b in
  rne (a * 2 ^ Z.max s 0) (b * 2 ^ Z.max (- s) 0).

Definition div_pos (a b : Z) : Q := dyadic (div_mantissa a b) (- div_scale a b).

(** [a / b] in doubles, for integers [a] and [0 < b]. *)
Definition div_double (a b : Z) : Q :=
  match a with
  | 0 => inject_Z 0
  | Zpos _ => div_pos a b
  | Zneg _ => - div_pos (- a) b
  end.

(** ** Playback Follower (watch view, playFollowerAudio)

    [startedAt] is the time value of the snapshot's audio_started_at and
    [now_ms] the reading of Date.now(), both integers in milliseconds.
    Seconds are doubles, carried as the rationals they denote: [now -
    startTime] is the double nearest the integer difference and [elapsed] the
    double nearest its quotient by 1000. *)

(** audio.duration once the metadata has loaded. *)
Inductive Duration :=
| Seconds (d : double)      (* the length of the clip *)
| Unbounded.                (* Infinity: a stream without a known end *)

Inductive Playback :=
| NoPlayback                 (* returned before an Audio element was created *)
| PlayFrom (offset : Q).     (* audio.play() with audio.currentTime = offset *)

Definition Qlt_bool (a b : Q) : bool := negb (Qle_bool b a).

(** elapsed < audio.duration *)
Definition before_end (elapsed : Q) (duration : Duration) : bool :=
  match duration with
  | Seconds d => Qlt_bool elapsed (value d)
  | Unbounded => true
  end.

Definition playFollowerAudio (mounted : bool) (startedAt now_ms : Z) (duration : Duration)
  : Playback :=
  if negb mounted then NoPlayback else
  let startTime := startedAt in
  let now := now_ms in
  let elapsed := div_double (round_int (now - startTime)) 1000 in
  if Qlt_bool (inject_Z 30) elapsed then NoPlayback
  else
    (* audio.onloadedmetadata *)
    if Qlt_bool (inject_Z 0) elapsed && before_end elapsed duration
    then PlayFrom elapsed
    else PlayFrom (inject_Z 0).

(** ** Playback Scheduler (watch view, startTimestampScheduler / processRoast)

    The refs of one mounted watch view.  A call of processRoast that passed
    its guards runs until it returns, suspended at its awaits; [in_flight]
    lists these activations with the await each is suspended at, and
    [started] the indices in the order processRoast was entered.  Both are
    bookkeeping of the model; the code reads neither. *)

Inductive Await :=
| AwaitRoast       (* Promise.all([typewriterPromise, audioPromise]) *)
| AwaitResponse    (* Promise.all([hostTypewriterPromise, ttsPlayPromise]) *)
| AwaitCleanup.    (* markMessageUsed, broadcast, 400ms pause *)

Record Sched := mkSched {
  mountedRef : bool;
  playingRef : bool;
  pausedRef : bool;
  schedulerInterval : bool;            (* schedulerIntervalRef.current !== null *)
  liveStartTimeRef : Z;
  roastProcessedRef : gset nat;
  currentlyProcessingRef : option nat;
  exchanges : list Exchange;           (* the store's roast_exchanges table *)
  in_flight : list (nat * Await);
  started : list nat
}.

Inductive Event :=
| Tick (clock : Z)                     (* the 250ms interval fires *)
| RoastPlayed (idx : nat)              (* the roast segment of idx finished *)
| ResponsePlayed (idx : nat)           (* the host response of idx finished *)
| CleanupDone (idx : nat)              (* the closing pause of idx elapsed *)
| SetPaused (b : bool)
| Unmount.

Definition BASE_DELAY_PER_ROAST : Z := 15000.

Section Scheduler.
(** The session and the [messages] array the callbacks closed over. *)
Variable session_id : uuid.
Variable messages : list Message.

Definition startTimestampScheduler (clock : Z) (table : list Exchange) : Sched :=
  mkSched true true false true clock ∅ None table [] [].

Definition hostType_of (idx : nat) : HostType :=
  if Nat.even idx then HostA else HostB.

Definition in_processed (i : nat) (s : Sched) : bool :=
  bool_decide (i ∈ roastProcessedRef s).

(** The for-loop of the tick: the first index that is due and not yet in
    the processed set. *)
Definition due_index (elapsed : Z) (s : Sched) : option nat :=
  List.find (fun i => (Z.of_nat i * BASE_DELAY_PER_ROAST <=? elapsed)
                      && negb (in_processed i s))
            (seq 0 (List.length messages)).

(** processRoast up to its first await. *)
Definition processRoast (idx : nat) (s : Sched) : Sched :=
  if negb (mountedRef s) || negb (playingRef s) then s else
  match currentlyProcessingRef s with
  | Some _ => s                      (* Already processing one *)
  | None =>
      mkSched (mountedRef s) (playingRef s) (pausedRef s) (schedulerInterval s)
              (liveStartTimeRef s)
              ({[idx]} ∪ roastProcessedRef s) (Some idx) (exchanges s)
              ((idx, AwaitRoast) :: in_flight s) (started s ++ [idx])
  end.

Definition clear_interval_if_done (s : Sched) : Sched :=
  if (size (roastProcessedRef s) =? List.length messages)%nat
     && match currentlyProcessingRef s with None => true | Some _ => false end
  then mkSched (mountedRef s) (playingRef s) (pausedRef s) false (liveStartTimeRef s)
               (roastProcessedRef s) (currentlyProcessingRef s) (exchanges s)
               (in_flight s) (started s)
  else s.

(** The index the tick hands to processRoast, if any. *)
Definition tick_call (clock : Z) (s : Sched) : option nat :=
  if negb (schedulerInterval s) then None
  else if negb (mountedRef s) || negb (playingRef s) then None
  else if pausedRef s then None
  else
    match due_index (clock - liveStartTimeRef s) s with
    | Some i =>
        match currentlyProcessingRef s with
        | None => Some i
        | Some _ => None
        end
    | None => None
    end.

Definition tick (clock : Z) (s : Sched) : Sched :=
  if negb (schedulerInterval s) then s
  else if negb (mountedRef s) || negb (playingRef s) then
    mkSched (mountedRef s) (playingRef s) (pausedRef s) false (liveStartTimeRef s)
            (roastProcessedRef s) (currentlyProcessingRef s) (exchanges s)
            (in_flight s) (started s)
  else if pausedRef s then s
  else
    clear_interval_if_done
      match tick_call clock s with
      | Some i => processRoast i s
      | None => s
      end.

Definition suspended_at (idx : nat) (a : Await) (s : Sched) : bool :=
  existsb (fun '(i, b) => Nat.eqb i idx &&
             match a, b with
             | AwaitRoast, AwaitRoast | AwaitResponse, AwaitResponse
             | AwaitCleanup, AwaitCleanup => true
             | _, _ => false
             end) (in_flight s).

Definition drop_activation (idx : nat) (l : list (nat * Await)) : list (nat * Await) :=
  List.filter (fun '(i, _) => negb (Nat.eqb i idx)) l.

Definition move_activation (idx : nat) (a : Await) (l : list (nat * Await))
  : list (nat * Await) :=
  map (fun '(i, b) => if Nat.eqb i idx then (i, a) else (i, b)) l.

(** processRoast resumed after the roast segment (lines 822-831). *)
Definition after_roast (idx : nat) (s : Sched) : Sched :=
  if negb (mountedRef s) || negb (playingRef s) then
    mkSched (mountedRef s) (playingRef s) (pausedRef s) (schedulerInterval s)
            (liveStartTimeRef s) (roastProcessedRef s) None (exchanges s)
            (drop_activation idx (in_flight s)) (started s)
  else
    mkSched (mountedRef s) (playingRef s) (pausedRef s) (schedulerInterval s)
            (liveStartTimeRef s) (roastProcessedRef s) (currentlyProcessingRef s)
            (exchanges s) (move_activation idx AwaitResponse (in_flight s)) (started s).

(** The row of saveExchange(message.id, ..., hostType, ..., idx + 1). *)
Definition exchange_of (idx : nat) : Exchange :=
  mkExchange session_id (option_map m_id (nth_error messages idx)) (hostType_of idx)
             (Z.of_nat idx + 1).

(** saveExchange: the insert into roast_exchanges.  The table has no
    constraint besides its primary key and the insert policy is
    WITH CHECK (true). *)
Definition saveExchange (idx : nat) (table : list Exchange) : list Exchange :=
  table ++ [exchange_of idx].

(** processRoast resumed after the host response (lines 893-902). *)
Definition after_response (idx : nat) (s : Sched) : Sched :=
  mkSched (mountedRef s) (playingRef s) (pausedRef s) (schedulerInterval s)
          (liveStartTimeRef s) (roastProcessedRef s) (currentlyProcessingRef s)
          (saveExchange idx (exchanges s))
          (move_activation idx AwaitCleanup (in_flight s)) (started s).

(** finishPlayback: clears the interval and the playing flag. *)
Definition finishPlayback (s : Sched) : Sched :=
  mkSched (mountedRef s) false (pausedRef s) false (liveStartTimeRef s)
          (roastProcessedRef s) (currentlyProcessingRef s) (exchanges s)
          (in_flight s) (started s).

(** processRoast's tail (lines 912-917). *)
Definition after_cleanup (idx : nat) (s : Sched) : Sched :=
  let s' :=
    mkSched (mountedRef s) (playingRef s) (pausedRef s) (schedulerInterval s)
            (liveStartTimeRef s) (roastProcessedRef s) None (exchanges s)
            (drop_activation idx (in_flight s)) (started s) in
  if Z.of_nat idx =? Z.of_nat (List.length messages) - 1 then finishPlayback s' else s'.

Definition step (s : Sched) (ev : Event) : Sched :=
  match ev with
  | Tick clock => tick clock s
  | RoastPlayed idx =>
      if suspended_at idx AwaitRoast s then after_roast idx s else s
  | ResponsePlayed idx =>
      if suspended_at idx AwaitResponse s then after_response idx s else s
  | CleanupDone idx =>
      if suspended_at idx AwaitCleanup s then after_cleanup idx s else s
  | SetPaused b =>
      mkSched (mountedRef s) (playingRef s) b (schedulerInterval s)
              (liveStartTimeRef s) (roastProcessedRef s) (currentlyProcessingRef s)
              (exchanges s) (in_flight s) (started s)
  | Unmount =>
      mkSched false (playingRef s) (pausedRef s) false
              (liveStartTimeRef s) (roastProcessedRef s) (currentlyProcessingRef s)
              (exchanges s) (in_flight s) (started s)
  end.

(** One scheduler run: the events that reach this watch view, in order. *)
Definition run (evs : list Event) (s : Sched) : Sched := fold_left step evs s.
End Scheduler.

(** The rows saveExchange inserts for the first [m] indices. *)
Definition saved_rows (session_id : uuid) (messages : list Message) (m : nat)
  : list Exchange :=
  map (exchange_of session_id messages) (seq 0 m).

(** What holds of the refs between any two events of a run that started on
    the table [T0]: the processed set is the set of started indices, the
    started indices are 0, 1, 2, ... in this order, the guard variable names
    the one activation in flight, and the table has grown by the rows of the
    indices whose response finished. *)
Definition sched_inv (session_id : uuid) (messages : list Message)
    (T0 : list Exchange) (s : Sched) : Prop :=
  let k := List.length (started s) in
  started s = seq 0 k /\
  (forall i : nat, i ∈ roastProcessedRef s <-> (i < k)%nat) /\
  match currentlyProcessingRef s, in_flight s with
  | None, [] =>
      exchanges s = T0 ++ saved_rows session_id messages k \/
      (exists m, S m = k /\ exchanges s = T0 ++ saved_rows session_id messages m /\
                 mountedRef s && playingRef s = false)
  | Some i, [(j, a)] =>
      i = j /\ S i = k /\
      exchanges s = T0 ++ saved_rows session_id messages
                            (match a with AwaitCleanup => k | _ => i end)
  | _, _ => False
  end.

(** ** Predicates used in the statements *)

(** A journalled write of a global row with the given session, phase,
    deadline, live-start and stamp, and index 0. *)
Definition is_global_write (sid : option uuid) (rs : RoundState.t)
    (se ls : option Z) (t : Z) (w : Write) : Prop :=
  exists g, w = WGlobal g
            /\ g_session_id g = sid /\ g_round_state g = rs
            /\ g_current_roast_index g = 0
            /\ g_submit_end_time g = se /\ g_live_start_time g = ls
            /\ g_updated_at g = t.

(** The session table still has the ids [ids0] and still holds row [s]
    unchanged. *)
Definition row_kept (ids0 : list uuid) (s : Session) (d : DB) : Prop :=
  map s_id (roast_sessions d) = ids0 /\ In s (roast_sessions d).

(** A write that is not a write of a message's used flag. *)
Definition not_used_write (w : Write) : Prop :=
  match w with WMessageUsed _ _ _ _ => False | _ => True end.

(** A write of a used flag, if it is one, flips it from false to true. *)
Definition flips_to_used (w : Write) : Prop :=
  match w with WMessageUsed _ _ old new => old = false /\ new = true | _ => True end.

(** A write of a used flag, if it is one, sets it to true on a message whose
    session is LIVE. *)
Definition sets_used_while_live (w : Write) : Prop :=
  match w with
  | WMessageUsed _ owner _ new => new = true /\ owner = Some Status.LIVE
  | _ => True
  end.

(** The rows of global_round_state after updateGlobalRoundState, as a
    function of the rows before. *)
Definition upsert_rows (t : Z) (gid : uuid) (sid : option uuid) (rs : RoundState.t)
    (total : Z) (se ls : option Z) (rows : list GlobalRow) : list GlobalRow :=
  match latest_by g_updated_at rows with
  | Some e =>
      map (fun g => if Nat.eqb (g_id g) (g_id e)
                    then stateUpdate (g_id g) sid rs total se ls t else g) rows
  | None => rows ++ [stateUpdate gid sid rs total se ls t]
  end.

Definition total_for (sid : option uuid) (db : DB) : Z :=
  match sid with Some id => count_unused id db | None => 0 end.

(** A global row with its clock readings blanked: the last-updated stamp,
    and the value (not the presence) of the live-start time. *)
Definition erase_clock (g : GlobalRow) : GlobalRow :=
  mkGlobalRow (g_id g) (g_session_id g) (g_round_state g) (g_current_roast_index g)
              (g_total_roasts g) (option_map (fun _ => 0) (g_live_start_time g))
              (g_submit_end_time g) 0.

(** The session row the completion service inserts for persona [p]. *)
Definition successor_session (e : Env) (p : Persona) : Session :=
  mkSession (new_session_id e) (Some (p_id p)) (p_username p) (p_profile_pic_url p)
            Status.OPEN (now e) (Some (now e + 2 * 60 * 1000)) (now e).

(** The store after one completion call for [sid]. *)
Definition completed_once (e : Env) (sid : uuid) (db : DB) : DB :=
  final (complete_live_round e (Some sid) db).

(** A write of a session status, if it is one, does not move the status
    backwards along OPEN, LOCKED, LIVE, ARCHIVED. *)
Definition moves_forward (w : Write) : Prop :=
  match w with
  | WSessionStatus _ old new => (Status.rank old <= Status.rank new)%nat
  | _ => True
  end.

(** A write that inserts a session or writes a global row. *)
Definition insert_or_global (w : Write) : Prop :=
  match w with WSessionInsert _ | WGlobal _ => True | _ => False end.

(** A written global row, if in phase LIVE, has a live-start time. *)
Definition live_has_start (w : Write) : Prop :=
  match w with
  | WGlobal g => g_round_state g = RoundState.LIVE -> g_live_start_time g <> None
  | _ => True
  end.

(** ** Concrete stores used by the examples below *)

Definition session_row (id : uuid) (name : string) (st : Status.t) (lock : Z) : Session :=
  mkSession id None name None st 0 (Some lock) 0.

Definition unused_message (id sid : uuid) : Message := mkMessage id sid None None false 0.
Definition used_message (id sid : uuid) : Message := mkMessage id sid None None true 0.

(** A LIVE global row for session 1 with two of three roasts played. *)
Definition global_live_2_of_3 : GlobalRow :=
  mkGlobalRow 7 (Some 1%nat) RoundState.LIVE 2 3 (Some 10) (Some 5) 10.

(** A queue of one message of session 1, and the events of one complete
    pass over it. *)
Definition queue_of_one : list Message := [unused_message 5 1].
Definition one_roast_events : list Event :=
  [Tick 0; RoastPlayed 0; ResponsePlayed 0; CleanupDone 0].

(** The exchange table after one scheduler run on an empty table, and after a
    second run (a second host, or the same view started again) on the
    table the first run left. *)
Definition table_after_first_run : list Exchange :=
  exchanges (run 1 queue_of_one one_roast_events (startTimestampScheduler 0 [])).
Definition table_after_second_run : list Exchange :=
  exchanges (run 1 queue_of_one one_roast_events
                 (startTimestampScheduler 0 table_after_first_run)).

Definition ada : Persona := mkPersona 3 "ada" None.
Definition bob : Persona := mkPersona 4 "bob" None.

(** One OPEN session whose lock time (1s) is long past when the controller
    is first polled (20s). *)
Definition store_open_overdue : DB :=
  mkDB [session_row 1 "ada" Status.OPEN 1000] [] [ada; bob] [] [].

(** Two controller invocations A and B at clock 20000: A's first query
    returns, then B runs to its end, then A resumes with what it had read. *)
Definition stale_open_sessions : list Session :=
  result (read_open_due 20000 store_open_overdue).
Definition store_after_B : DB :=
  final (session_manager 20000 7 store_open_overdue).
Definition A_resumed : (nat * nat) * DB * list Write :=
  session_manager_resume 20000 6 stale_open_sessions store_after_B.

(** The same with the round completed (at 30s) before A resumes. *)
Definition store_after_B_completed : DB :=
  final (complete_live_round (mkEnv 30000 1 9 8) (Some 1%nat) store_after_B).
Definition A_resumed_late : (nat * nat) * DB * list Write :=
  session_manager_resume 20000 6 stale_open_sessions store_after_B_completed.

(** An archived round 1 and its successor 2, already LOCKED. *)
Definition store_next_locked : DB :=
  mkDB [session_row 1 "ada" Status.ARCHIVED 1000; session_row 2 "bob" Status.LOCKED 125000]
       [] [ada; bob] []
       [mkGlobalRow 7 (Some 2%nat) RoundState.SUBMITTING 0 0 None (Some 125000) 5000].

(** An archived round 1 and a round 2 that is LIVE. *)
Definition store_next_live : DB :=
  mkDB [session_row 1 "ada" Status.ARCHIVED 1000; session_row 2 "bob" Status.LIVE 125000]
       [used_message 5 1] [ada; bob] []
       [mkGlobalRow 7 (Some 2%nat) RoundState.LIVE 0 0 (Some 135000) (Some 125000) 135000].

(** A LIVE round 1 with one message left unused. *)
Definition store_live_leftover : DB :=
  mkDB [session_row 1 "ada" Status.LIVE 1000] [unused_message 5 1] [ada; bob] []
       [mkGlobalRow 7 (Some 1%nat) RoundState.LIVE 0 1 (Some 11000) (Some 1000) 11000].

(** An OPEN round 1 with one submission. *)
Definition store_open_submission : DB :=
  mkDB [session_row 1 "ada" Status.OPEN 120000] [unused_message 5 1] [ada; bob] []
       [mkGlobalRow 7 (Some 1%nat) RoundState.SUBMITTING 0 0 None (Some 120000) 0].

(** An archived round 1 about "ada", nothing active, two personas. *)
Definition store_round_over : DB :=
  mkDB [session_row 1 "ada" Status.ARCHIVED 1000] [used_message 5 1] [ada; bob] []
       [mkGlobalRow 7 (Some 1%nat) RoundState.LIVE 1 1 (Some 11000) (Some 1000) 11000].

(** Round 1 locked at 125s, with one submission. *)
Definition store_locked : DB :=
  mkDB [session_row 1 "ada" Status.LOCKED 125000] [unused_message 5 1] [ada; bob] []
       [mkGlobalRow 7 (Some 1%nat) RoundState.SUBMITTING 0 1 None (Some 125000) 5000].

(** * Further code of the same files *)

(** ** The controller's effect on one session row

    What one run does to a row, written as three passes over the row alone;
    [cnt] gives the number of unused messages of a session.  The code is
    [session_manager] above, with its queries and loops over ids; that it
    computes this map is proved below, under unique ids. *)

Definition pass_lock (t : Z) (r : Session) : Session :=
  if Status.eqb (s_status r) Status.OPEN && opt_leb (s_lock_time r) t
  then with_status Status.LOCKED r else r.

Definition pass_live (t : Z) (r : Session) : Session :=
  if Status.eqb (s_status r) Status.LOCKED && opt_leb (s_lock_time r) (t - 10 * 1000)
  then with_status Status.LIVE r else r.

(** The test of the safety net: no unused message, a lock time, and more
    than 5 minutes since it. *)
Definition stalled (t : Z) (cnt : uuid -> Z) (r : Session) : bool :=
  (cnt (s_id r) =? 0)
  && match s_lock_time r with
     | Some lockTime => 5 * 60 * 1000 <? t - lockTime
     | None => false
     end.

Definition pass_archive (t : Z) (cnt : uuid -> Z) (r : Session) : Session :=
  if Status.eqb (s_status r) Status.LIVE && stalled t cnt r
  then with_status Status.ARCHIVED r else r.

Definition controller_row (t : Z) (cnt : uuid -> Z) (r : Session) : Session :=
  pass_archive t cnt (pass_live t (pass_lock t r)).

(** Whether some row of [l] has the id of [r]. *)
Definition id_in (l : list Session) (r : Session) : bool :=
  existsb (fun y => Nat.eqb (s_id y) (s_id r)) l.

(** ** What a reader of the global row sees *)

(** The global table is well stamped at [t]: ids are unique and no row
    carries a later updated_at. *)
Definition global_stamped (t : Z) (db : DB) : Prop :=
  List.NoDup (map g_id (global_round_state db))
  /\ (forall g, In g (global_round_state db) -> g_updated_at g <= t).

(** The progress row of session [sid] after [n] messages of it went from
    unused to used in one statement at [t]. *)
Definition advanced (t : Z) (sid : uuid) (n : nat) (g : GlobalRow) : GlobalRow :=
  if progress_target sid g && negb (Nat.eqb n 0)
  then with_progress (Z.min (g_total_roasts g) (g_current_roast_index g + Z.of_nat n)) t g
  else g.

(** The rows mark_remaining_used selects. *)
Definition leftover (sid : uuid) (m : Message) : bool :=
  Nat.eqb (m_session_id m) sid && negb (m_used m).

(** ** The completion service on the session table *)

(** A session row after the service's first update for [sid]. *)
Definition after_archive (sid : uuid) (s : Session) : Session :=
  if by_id sid s && Status.eqb (s_status s) Status.LIVE
  then with_status Status.ARCHIVED s else s.

Definition inactive (s : Session) : Prop := Status.active (s_status s) = false.

(** ** Submissions (SubmissionForm and the INSERT policy of roast_messages)

    Policy "Anyone can submit messages to open sessions":
    WITH CHECK (EXISTS (SELECT 1 FROM roast_sessions
                        WHERE id = session_id AND status = 'OPEN')) *)
Definition policy_insert_check (db : DB) (m : Message) : bool :=
  existsb (fun s => by_id (m_session_id m) s && Status.eqb (s_status s) Status.OPEN)
          (roast_sessions db).

(** supabase.from("roast_messages").insert({ session_id, audio_url, transcript })
    with the publishable key; [new_id] and [t] are the defaults the store
    fills in for id and created_at, and used defaults to false.  [None] is
    the error the form reports as "Failed to submit". *)
Definition submit_message (new_id : uuid) (t : Z) (sessionId : uuid)
    (audio_url transcript : option string) (db : DB) : option DB :=
  let row := mkMessage new_id sessionId audio_url transcript false t in
  if policy_insert_check db row
  then Some (set_messages (roast_messages db ++ [row]) db)
  else None.

(** ** More on the playback scheduler *)

(** The run has stopped playing only with the whole queue played: nothing in
    flight, every index started, every row saved. *)
Definition stopped_complete (session_id : uuid) (messages : list Message)
    (T0 : list Exchange) (s : Sched) : Prop :=
  currentlyProcessingRef s = None /\ in_flight s = []
  /\ started s = seq 0 (List.length messages)
  /\ exchanges s = T0 ++ saved_rows session_id messages (List.length messages).

Definition sched_bounds (session_id : uuid) (messages : list Message)
    (T0 : list Exchange) (s : Sched) : Prop :=
  sched_inv session_id messages T0 s
  /\ (List.length (started s) <= List.length messages)%nat
  /\ (playingRef s = false -> stopped_complete session_id messages T0 s).

(** The events of index [i] when every segment of it finishes: the tick at
    [clock_at i] that starts it, then its three awaits. *)
Definition pass_events (clock_at : nat -> Z) (i : nat) : list Event :=
  [Tick (clock_at i); RoastPlayed i; ResponsePlayed i; CleanupDone i].

Definition full_pass (clock_at : nat -> Z) (n : nat) : list Event :=
  flat_map (pass_events clock_at) (seq 0 n).

(** The view between two roasts of an undisturbed run started at [t0]:
    mounted, playing, not paused, interval running, the first [i] indices
    started and saved, nothing in flight. *)
Definition ready_for (session_id : uuid) (messages : list Message) (T0 : list Exchange)
    (t0 : Z) (i : nat) (s : Sched) : Prop :=
  mountedRef s = true /\ playingRef s = true /\ pausedRef s = false
  /\ schedulerInterval s = true /\ liveStartTimeRef s = t0
  /\ (forall j : nat, j ∈ roastProcessedRef s <-> (j < i)%nat)
  /\ currentlyProcessingRef s = None
  /\ exchanges s = T0 ++ saved_rows session_id messages i
  /\ in_flight s = [] /\ started s = seq 0 i.

(** An event that does not resume a paused run. *)
Definition keeps_pause (ev : Event) : bool :=
  match ev with SetPaused false => false | _ => true end.

(** ** forceNewKOL (watch view): the choice of the next subject

    [r1] and [r2] are the values of the two
    Math.floor(Math.random() * length) draws; [None] is the early return
    on an empty persona table (or a draw outside its array). *)
Definition forceNewKOL_pick (r1 r2 : nat) (persona_name : string) (ps : list Persona)
  : option Persona :=
  match ps with
  | [] => None
  | _ :: _ =>
      let selectedPersona := nth_error ps r1 in
      if (1 <? List.length ps)%nat then
        let filtered :=
          List.filter (fun p => negb (String.eqb (p_username p) persona_name)) ps in
        if (0 <? List.length filtered)%nat then nth_error filtered r2 else selectedPersona
      else selectedPersona
  end.

(** ** CountdownDisplay (watch view)

    calculateTime, run once and then every second; [timeLeft] is the state
    it sets, minutes and seconds. *)
Definition targetTime (status : Status.t) (lock_time start_time : option Z) : option Z :=
  match status, lock_time with
  | Status.OPEN, Some l => Some l
  | _, _ =>
      match status, start_time with
      | Status.LOCKED, Some st => Some st
      | _, _ => None
      end
  end.

Definition calculateTime (status : Status.t) (lock_time start_time : option Z) (now : Z)
    (timeLeft : option (Z * Z)) : option (Z * Z) :=
  match targetTime status lock_time start_time with
  | Some target =>
      let diff := target - now in
      if 0 <? diff
      then Some (diff / 60000, Z.rem diff 60000 / 1000)
      else None
  | None => timeLeft
  end.

(** ** The pre-generation cache (watch view, pregenForIndex / processRoast)

    pregenCacheRef is a Map from queue index to a generated response. *)
Record Pregen := mkPregen {
  roastText : string;
  ttsUrl : option string;
  ttsBase64 : option string;
  cachedHostType : HostType
}.

Definition HostType_eqb (a b : HostType) : bool :=
  match a, b with HostA, HostA | HostB, HostB => true | _, _ => false end.

(** The guards of pregenForIndex, evaluated when it is called. *)
Definition pregen_starts (n_messages idx : nat) (cache : gmap nat Pregen) : bool :=
  (idx <? n_messages)%nat && negb (bool_decide (is_Some (cache !! idx))).

(** pregenCacheRef.current.set(idx, ...) once both generations returned. *)
Definition pregen_store (idx : nat) (text : string) (url b64 : option string)
    (cache : gmap nat Pregen) : gmap nat Pregen :=
  <[idx := mkPregen text url b64 (hostType_of idx)]> cache.

(** processRoast's lookup: the cached response, if one is there for the
    host whose turn it is, is used and deleted; [None] is the on-the-fly
    fallback. *)
Definition take_cached (idx : nat) (cache : gmap nat Pregen)
  : option Pregen * gmap nat Pregen :=
  match cache !! idx with
  | Some cached =>
      if HostType_eqb (cachedHostType cached) (hostType_of idx)
      then (Some cached, delete idx cache)
      else (None, cache)
  | None => (None, cache)
  end.

(** The cache with the pre-generations in flight (past their guards, not
    yet stored). *)
Record CacheState := mkCacheState {
  pregenCache : gmap nat Pregen;
  pregen_pending : list nat
}.

Inductive CacheEvent :=
| PregenCall (idx : nat)                        (* pregenForIndex(idx) is called *)
| PregenDone (idx : nat) (text : string) (url b64 : option string)
| PregenFailed (idx : nat)                      (* the catch branch *)
| TakeCached (idx : nat)                        (* processRoast reaches the lookup *)
| ClearCache.                                   (* pregenCacheRef.current.clear() *)

Fixpoint remove_first (idx : nat) (l : list nat) : list nat :=
  match l with
  | [] => []
  | x :: r => if Nat.eqb x idx then r else x :: remove_first idx r
  end.

Definition cache_step (n_messages : nat) (c : CacheState) (ev : CacheEvent) : CacheState :=
  match ev with
  | PregenCall idx =>
      if pregen_starts n_messages idx (pregenCache c)
      then mkCacheState (pregenCache c) (idx :: pregen_pending c)
      else c
  | PregenDone idx text url b64 =>
      if existsb (Nat.eqb idx) (pregen_pending c)
      then mkCacheState (pregen_store idx text url b64 (pregenCache c))
                        (remove_first idx (pregen_pending c))
      else c
  | PregenFailed idx => mkCacheState (pregenCache c) (remove_first idx (pregen_pending c))
  | TakeCached idx => mkCacheState (snd (take_cached idx (pregenCache c))) (pregen_pending c)
  | ClearCache => mkCacheState ∅ (pregen_pending c)
  end.

Definition cache_run (n_messages : nat) (evs : list CacheEvent) : CacheState :=
  fold_left (cache_step n_messages) evs (mkCacheState ∅ []).

(** Every cached response sits at an index of the queue and was generated
    for the host of that index; every pre-generation in flight is for an
    index of the queue. *)
Definition cache_ok (n_messages : nat) (c : CacheState) : Prop :=
  (forall i p, pregenCache c !! i = Some p ->
               cachedHostType p = hostType_of i /\ (i < n_messages)%nat)
  /\ Forall (fun i => (i < n_messages)%nat) (pregen_pending c).

(** ** What the controller leaves in the global row *)

(** The global row says WAITING and names no session. *)
Definition says_waiting (g : GlobalRow) : Prop :=
  g_session_id g = None /\ g_round_state g = RoundState.WAITING.

(** An OPEN row the lock pass leaves OPEN at clock [t]. *)
Definition still_open (t : Z) (r : Session) : bool :=
  Status.eqb (s_status r) Status.OPEN && negb (opt_leb (s_lock_time r) t).

(** A row the safety net archives in a run at clock [t]. *)
Definition archived_by_run (t : Z) (cnt : uuid -> Z) (r : Session) : bool :=
  negb (Status.eqb (s_status r) Status.ARCHIVED)
  && Status.eqb (s_status (controller_row t cnt r)) Status.ARCHIVED.

(** A LIVE round 1 whose queue is used up, locked at 1s, beside an OPEN
    round 2 that takes submissions until 500s and is named by the global
    row. *)
Definition store_stalled_and_open : DB :=
  mkDB [session_row 1 "ada" Status.LIVE 1000; session_row 2 "bob" Status.OPEN 500000]
       [used_message 5 1] [ada; bob] []
       [mkGlobalRow 7 (Some 2%nat) RoundState.SUBMITTING 0 0 None (Some 500000) 380000].

(** ** Backend calls that run one after another *)

Inductive Call :=
| Poll (t : Z) (gid : uuid)                 (* one invocation of session-manager *)
| Complete (e : Env) (body : option uuid).  (* one invocation of complete-live-round *)

Definition call_final (db : DB) (c : Call) : DB :=
  match c with
  | Poll t gid => final (session_manager t gid db)
  | Complete e body => final (complete_live_round e body db)
  end.

Definition run_calls (cs : list Call) (db : DB) : DB := fold_left call_final cs db.

(** The id the store generates for an inserted session is not in use. *)
Fixpoint calls_fresh (cs : list Call) (db : DB) : Prop :=
  match cs with
  | [] => True
  | c :: r =>
      match c with
      | Complete e _ => ~ In (new_session_id e) (map s_id (roast_sessions db))
      | Poll _ _ => True
      end
      /\ calls_fresh r (call_final db c)
  end.

(** The status an OPEN session with lock time [lockTime] and [unused]
    unused messages has after one controller run at clock [t]. *)
Definition open_timeline (t lockTime unused : Z) : Status.t :=
  if t <? lockTime then Status.OPEN
  else if t <? lockTime + 10 * 1000 then Status.LOCKED
  else if (unused =? 0) && (5 * 60 * 1000 <? t - lockTime) then Status.ARCHIVED
  else Status.LIVE.

(** ** Statements about the store *)

(** The global row [g] carries what one call of updateGlobalRoundState at
    clock [t] writes. *)
Definition row_says (sid : option uuid) (rs : RoundState.t) (total : Z)
    (se ls : option Z) (t : Z) (g : GlobalRow) : Prop :=
  g_session_id g = sid /\ g_round_state g = rs
  /\ g_current_roast_index g = 0 /\ g_total_roasts g = total
  /\ g_submit_end_time g = se /\ g_live_start_time g = ls
  /\ g_updated_at g = t.

(** The number of host responses that finished in the run of [evs] from
    [s]: the ResponsePlayed events that found their activation suspended at
    the response. *)
Fixpoint responses_finished (session_id : uuid) (messages : list Message)
    (evs : list Event) (s : Sched) : nat :=
  match evs with
  | [] => 0
  | ev :: r =>
      (match ev with
       | ResponsePlayed idx => if suspended_at idx AwaitResponse s then 1 else 0
       | _ => 0
       end
       + responses_finished session_id messages r (step session_id messages s ev))%nat
  end.

(** ** The request handler of complete-live-round

    What reaches [complete_live_round] above: the method of the request and
    the sessionId field of its JSON body. *)
Inductive Method := OPTIONS | POST | OtherMethod.

Inductive SessionIdField :=
| Absent                (* no body, no field, or a falsy value *)
| NotUuid               (* a truthy value that is not a UUID *)
| Uuid (id : uuid).

Inductive Answer :=
| Preflight             (* 200 with the CORS headers only *)
| MethodNotAllowed      (* 405 *)
| Reply (r : Response).

(** serve: OPTIONS and the methods other than POST are answered before the
    store is touched.  A sessionId that is not a UUID makes the first
    select fail (invalid input syntax for type uuid); the error is thrown
    and reaches the catch, which answers 500. *)
Definition serve_complete_live_round (e : Env) (method : Method)
    (sessionId : SessionIdField) : M Answer :=
  match method with
  | OPTIONS => ret Preflight
  | OtherMethod => ret MethodNotAllowed
  | POST =>
      match sessionId with
      | Absent => complete_live_round e None ≫= λ r : Response, ret (Reply r)
      | NotUuid => ret (Reply ServerError)
      | Uuid id => complete_live_round e (Some id) ≫= λ r : Response, ret (Reply r)
      end
  end.

(** The store after the lock step of a controller run at clock [t], on
    which the run selects the LOCKED sessions that are due. *)
Definition after_lock_step (t : Z) (db : DB) : DB :=
  final (write_locked (result (read_open_due t db)) db).

(** ** The used flags of two message tables compared

    [after] against [before], row by row and not by position: a row whose
    flag was true is still there as it was; a row whose flag was false is
    there as it was or with the flag set, the latter only when [cond] holds
    of it; and [after] has no other row. *)
Definition used_only_rose (cond : Message -> Prop) (before after : list Message) : Prop :=
  (forall m, In m before -> m_used m = true -> In m after)
  /\ (forall m, In m before -> m_used m = false ->
        In m after \/ (cond m /\ In (with_used true m) after))
  /\ (forall m', In m' after ->
        In m' before
        \/ exists m, In m before /\ m_used m = false /\ cond m /\ m' = with_used true m).

(** Doubles named in the properties below. *)
Definition thirty : double := mkDouble 30 0 eq_refl.
Definition just_over_thirty : double := mkDouble 30721 (-10) eq_refl.
Definition five_seconds : double := mkDouble 5 0 eq_refl.
(** The double written 0.1: 3602879701896397 / 2^55, a little above 1/10. *)
Definition tenth : double := mkDouble 3602879701896397 (-55) eq_refl.

(** The same quotient and conversion by Rocq's primitive binary64 floats,
    read back as sign, mantissa and exponent. *)
Definition machine_quotient (a b : Z) : SpecFloat.spec_float :=
  FloatOps.Prim2SF
    (PrimFloat.div (PrimFloat.of_uint63 (Uint63.of_Z a))
                   (PrimFloat.of_uint63 (Uint63.of_Z b))).

Definition model_quotient (a b : Z) : SpecFloat.spec_float :=
  let n := div_mantissa a b in
  let e := - div_scale a b in
  if n =? 2 ^ 53 then SpecFloat.S754_finite false (Z.to_pos (2 ^ 52)) (e + 1)
  else SpecFloat.S754_finite false (Z.to_pos n) e.

Definition same_float (x y : SpecFloat.spec_float) : bool :=
  match x, y with
  | SpecFloat.S754_finite s m e, SpecFloat.S754_finite s' m' e' =>
      Bool.eqb s s' && Pos.eqb m m' && Z.eqb e e'
  | _, _ => false
  end.

Definition machine_integer (z : Z) : Z :=
  match FloatOps.Prim2SF (PrimFloat.of_uint63 (Uint63.of_Z z)) with
  | SpecFloat.S754_finite false m e =>
      if 0 <=? e then Z.pos m * 2 ^ e else Z.pos m / 2 ^ (- e)
  | _ => 0
  end.
(** * Properties *)

Ltac unfold_M :=
  unfold mbind, mret, M_bind, M_ret, bind, ret, get in *.

(** ** Store computations: how results, stores and journals compose *)

Section Monad.
Context {A B : Type}.

Lemma bind_result (c : M A) (k : A -> M B) db :
  result ((c ≫= k) db) = result (k (result (c db)) (final (c db))).
Proof.
  unfold_M. unfold result, final. destruct (c db) as [[a d] w]. simpl.
  destruct (k a d) as [[b d'] w']. reflexivity.
Qed.

Lemma bind_final (c : M A) (k : A -> M B) db :
  final ((c ≫= k) db) = final (k (result (c db)) (final (c db))).
Proof.
  unfold_M. unfold result, final. destruct (c db) as [[a d] w]. simpl.
  destruct (k a d) as [[b d'] w']. reflexivity.
Qed.

Lemma bind_journal (c : M A) (k : A -> M B) db :
  journal ((c ≫= k) db)
  = journal (c db) ++ journal (k (result (c db)) (final (c db))).
Proof.
  unfold_M. unfold result, final, journal. destruct (c db) as [[a d] w]. simpl.
  destruct (k a d) as [[b d'] w']. reflexivity.
Qed.
End Monad.

Lemma ret_final {A} (a : A) db : final ((mret a : M A) db) = db.
Proof. reflexivity. Qed.

Lemma ret_result {A} (a : A) db : result ((mret a : M A) db) = a.
Proof. reflexivity. Qed.

(** Running a query first: the rest runs on the same store with its value. *)
Lemma get_bind {A B} (q : DB -> A) (k : A -> M B) db :
  (get q ≫= k) db = k (q db) db.
Proof.
  unfold_M. destruct (k (q db) db) as [[b d] w]. reflexivity.
Qed.

Lemma for_each_app {A} (body : A -> M unit) (l1 l2 : list A) db :
  final (for_each (l1 ++ l2) body db) = final (for_each l2 body (final (for_each l1 body db)))
  /\ journal (for_each (l1 ++ l2) body db)
     = journal (for_each l1 body db)
       ++ journal (for_each l2 body (final (for_each l1 body db))).
Proof.
  revert db. induction l1 as [|x l1 IH]; intros db; simpl.
  - split; reflexivity.
  - rewrite !bind_final, !bind_journal.
    destruct (IH (final (body x db))) as [-> ->].
    rewrite app_assoc. split; reflexivity.
Qed.

(** An invariant of the loop body is an invariant of the loop. *)
Lemma for_each_inv {A} (I : DB -> Prop) (body : A -> M unit) (l : list A) db :
  (forall y d, In y l -> I d -> I (final (body y d))) ->
  I db -> I (final (for_each l body db)).
Proof.
  revert db. induction l as [|x l IH]; intros db Hstep Hdb; simpl; [exact Hdb |].
  rewrite bind_final. apply IH.
  - intros y d Hy. apply Hstep. right. exact Hy.
  - apply Hstep; [left; reflexivity | exact Hdb].
Qed.

(** A property of every write of the body, under an invariant, is a
    property of every write of the loop. *)
Lemma for_each_journal {A} (I : DB -> Prop) (W : Write -> Prop)
    (body : A -> M unit) (l : list A) db :
  (forall y d, In y l -> I d -> I (final (body y d)) /\ Forall W (journal (body y d))) ->
  I db -> Forall W (journal (for_each l body db)).
Proof.
  revert db. induction l as [|x l IH]; intros db Hstep Hdb; simpl; [constructor |].
  rewrite bind_journal. apply Forall_app. split.
  - apply Hstep; [left; reflexivity | exact Hdb].
  - apply IH.
    + intros y d Hy. apply Hstep. right. exact Hy.
    + apply Hstep; [left; reflexivity | exact Hdb].
Qed.

Lemma Forall_bind_journal {A B} (W : Write -> Prop) (c : M A) (k : A -> M B) db :
  Forall W (journal (c db)) ->
  Forall W (journal (k (result (c db)) (final (c db)))) ->
  Forall W (journal ((c ≫= k) db)).
Proof. intros H1 H2. rewrite bind_journal. apply Forall_app. split; assumption. Qed.

Lemma Forall_weaken (W W' : Write -> Prop) (l : list Write) :
  (forall w, W w -> W' w) -> Forall W l -> Forall W' l.
Proof. intros Himp H. induction H; constructor; auto. Qed.

(** ** What each store call leaves alone *)

Lemma update_status_ids p st db :
  map s_id (roast_sessions (final (update_status p st db))) = map s_id (roast_sessions db).
Proof.
  unfold update_status, final. simpl. rewrite map_map.
  apply map_ext. intros s. destruct (p s); reflexivity.
Qed.

Lemma update_status_keeps p st db s :
  In s (roast_sessions db) -> p s = false ->
  In s (roast_sessions (final (update_status p st db))).
Proof.
  intros Hin Hp. unfold update_status, final. simpl.
  apply in_map_iff. exists s. rewrite Hp. split; [reflexivity | exact Hin].
Qed.

Lemma updateGlobalRoundState_tables t gid sid rs se ls db :
  roast_sessions (final (updateGlobalRoundState t gid sid rs se ls db)) = roast_sessions db
  /\ roast_messages (final (updateGlobalRoundState t gid sid rs se ls db)) = roast_messages db
  /\ personas (final (updateGlobalRoundState t gid sid rs se ls db)) = personas db
  /\ roast_exchanges (final (updateGlobalRoundState t gid sid rs se ls db))
     = roast_exchanges db.
Proof.
  unfold updateGlobalRoundState. rewrite !bind_final. unfold get, final, result. simpl.
  destruct (latest_global db); repeat split.
Qed.

Lemma latest_by_In {A} (key : A -> Z) (l : list A) (x : A) :
  latest_by key l = Some x -> In x l.
Proof.
  revert x. induction l as [|y l IH]; intros x; simpl; [discriminate |].
  destruct (latest_by key l) as [m|].
  - destruct (key m <=? key y); intros [= <-]; [left; reflexivity | right; apply IH; reflexivity].
  - intros [= <-]. left. reflexivity.
Qed.

(** The helper writes at least one row, and every row it writes carries the
    arguments it was called with. *)
Lemma updateGlobalRoundState_journal t gid sid rs se ls db :
  journal (updateGlobalRoundState t gid sid rs se ls db) <> []
  /\ Forall (is_global_write sid rs se ls t)
            (journal (updateGlobalRoundState t gid sid rs se ls db)).
Proof.
  unfold updateGlobalRoundState. rewrite !bind_journal. unfold get, final, result, journal.
  simpl. destruct (latest_global db) as [e|] eqn:He; simpl.
  - split.
    + apply latest_by_In in He.
      intros Hnil. apply map_eq_nil in Hnil.
      assert (Hin : In e (List.filter (fun g => Nat.eqb (g_id g) (g_id e))
                                      (global_round_state db))).
      { apply filter_In. split; [exact He | apply Nat.eqb_refl]. }
      rewrite Hnil in Hin. exact Hin.
    + apply List.Forall_forall. intros w Hw. apply in_map_iff in Hw.
      destruct Hw as (g & <- & _). eexists. repeat split.
  - split; [discriminate |]. repeat constructor. eexists. repeat split.
Qed.

(** ** Session Lifecycle Controller: the LOCKED to LIVE pass *)

Lemma NoDup_map_eq {A B} (f : A -> B) (l : list A) (x y : A) :
  List.NoDup (map f l) -> In x l -> In y l -> f x = f y -> x = y.
Proof.
  induction l as [|a l IH]; simpl; [tauto |].
  intros Hnd Hx Hy Hf. inversion Hnd as [|? ? Hnotin Hnd']; subst.
  destruct Hx as [-> | Hx], Hy as [-> | Hy]; auto.
  - exfalso. apply Hnotin. rewrite Hf. apply in_map. exact Hy.
  - exfalso. apply Hnotin. rewrite <- Hf. apply in_map. exact Hx.
Qed.

Lemma by_id_false x s : x <> s_id s -> by_id x s = false.
Proof. intros H. unfold by_id. apply Nat.eqb_neq. congruence. Qed.

Lemma row_kept_update_status ids0 s x st d :
  row_kept ids0 s d -> x <> s_id s ->
  row_kept ids0 s (final (update_status (by_id x) st d)).
Proof.
  intros [Hids Hin] Hne. split.
  - rewrite update_status_ids. exact Hids.
  - apply update_status_keeps; [exact Hin | apply by_id_false; exact Hne].
Qed.

Lemma row_kept_global ids0 s t gid sid rs se ls d :
  row_kept ids0 s d ->
  row_kept ids0 s (final (updateGlobalRoundState t gid sid rs se ls d)).
Proof.
  intros [Hids Hin].
  destruct (updateGlobalRoundState_tables t gid sid rs se ls d) as (Hs & _).
  unfold row_kept. rewrite Hs. split; assumption.
Qed.

Lemma row_kept_other_id ids0 s d y :
  List.NoDup ids0 -> row_kept ids0 s d -> In y (roast_sessions d) ->
  s_status y <> s_status s -> s_id y <> s_id s.
Proof.
  intros Hnd [Hids Hin] Hy Hst Heq. apply Hst. f_equal.
  apply (NoDup_map_eq s_id (roast_sessions d)); try assumption.
  rewrite Hids. exact Hnd.
Qed.

Lemma write_locked_kept ids0 s l d :
  (forall y, In y l -> s_id y <> s_id s) ->
  row_kept ids0 s d -> row_kept ids0 s (final (write_locked l d)).
Proof.
  intros Hne. unfold write_locked. apply for_each_inv.
  intros y d' Hy Hk. apply row_kept_update_status; auto.
Qed.

Lemma go_live_kept ids0 s t gid y d :
  s_id y <> s_id s -> row_kept ids0 s d -> row_kept ids0 s (final (go_live t gid y d)).
Proof.
  intros Hne Hk. unfold go_live. rewrite bind_final.
  apply row_kept_global, row_kept_update_status; auto.
Qed.

Lemma write_live_kept ids0 s t gid l d :
  (forall y, In y l -> s_id y <> s_id s) ->
  row_kept ids0 s d -> row_kept ids0 s (final (write_live t gid l d)).
Proof.
  intros Hne. unfold write_live. apply for_each_inv.
  intros y d' Hy Hk. apply go_live_kept; auto.
Qed.

Lemma sync_open_tables t gid d :
  roast_sessions (final (sync_open t gid d)) = roast_sessions d.
Proof.
  unfold sync_open. rewrite get_bind.
  destruct (latest_by _ _) as [session|]; [| reflexivity].
  rewrite get_bind.
  match goal with |- context [if ?b then _ else _] => destruct b end; [| reflexivity].
  apply updateGlobalRoundState_tables.
Qed.

Lemma archive_if_stale_kept ids0 s t gid y d :
  s_id y <> s_id s -> row_kept ids0 s d ->
  row_kept ids0 s (final (archive_if_stale t gid y d)).
Proof.
  intros Hne Hk. unfold archive_if_stale. rewrite get_bind.
  destruct (count_unused (s_id y) d =? 0); [| exact Hk].
  rewrite get_bind.
  destruct (find_session (s_id y) d) as [sd|]; [| exact Hk].
  destruct (s_lock_time sd) as [lockTime|]; [| exact Hk].
  destruct (5 * 60 * 1000 <? t - lockTime); [| exact Hk].
  rewrite bind_final.
  apply row_kept_global, row_kept_update_status; auto.
Qed.

Lemma archive_stale_kept ids0 s t gid d :
  List.NoDup ids0 -> s_status s <> Status.LIVE ->
  row_kept ids0 s d -> row_kept ids0 s (final (archive_stale t gid d)).
Proof.
  intros Hnd Hst Hk. unfold archive_stale. rewrite get_bind.
  apply for_each_inv; [| exact Hk].
  intros y d' Hy Hk'. apply archive_if_stale_kept; [| exact Hk'].
  apply filter_In in Hy. destruct Hy as [Hy Hlive].
  apply (row_kept_other_id ids0 s d); try assumption.
  destruct (s_status y), (s_status s); simpl in Hlive; congruence.
Qed.

Lemma NoDup_map_filter {A B} (f : A -> B) (p : A -> bool) (l : list A) :
  List.NoDup (map f l) -> List.NoDup (map f (List.filter p l)).
Proof.
  induction l as [|a l IH]; simpl; [auto |].
  intros Hnd. inversion Hnd as [|? ? Hnotin Hnd']; subst.
  destruct (p a); simpl; [| auto].
  constructor; [| auto].
  intros Hin. apply Hnotin. apply in_map_iff in Hin.
  destruct Hin as (x & Hx & Hin). apply filter_In in Hin.
  rewrite <- Hx. apply in_map. tauto.
Qed.

Lemma go_live_journal t gid s d :
  In s (roast_sessions d) ->
  In (WSessionStatus (s_id s) (s_status s) Status.LIVE) (journal (go_live t gid s d))
  /\ exists g, In (WGlobal g) (journal (go_live t gid s d))
               /\ g_session_id g = Some (s_id s)
               /\ g_round_state g = RoundState.LIVE
               /\ g_live_start_time g = Some t
               /\ g_submit_end_time g = s_lock_time s.
Proof.
  intros Hin. unfold go_live. rewrite bind_journal. split.
  - apply in_or_app. left. unfold update_status, journal. simpl.
    apply in_map_iff. exists s. split; [reflexivity |].
    apply filter_In. split; [exact Hin | apply Nat.eqb_refl].
  - match goal with |- context [journal (updateGlobalRoundState ?a ?b ?c ?e ?f ?h ?k)] =>
      destruct (updateGlobalRoundState_journal a b c e f h k) as [Hne Hall];
      destruct (journal (updateGlobalRoundState a b c e f h k)) as [|w ws] eqn:Hj
    end; [congruence |].
    inversion Hall as [|? ? (g & -> & Hs & Hr & _ & Hse & Hls & _) _]; subst.
    exists g. split; [| auto]. apply in_or_app. right. left. reflexivity.
Qed.

Lemma write_live_journal ids0 t gid s l d :
  List.NoDup (map s_id l) -> In s l -> row_kept ids0 s d ->
  In (WSessionStatus (s_id s) (s_status s) Status.LIVE) (journal (write_live t gid l d))
  /\ exists g, In (WGlobal g) (journal (write_live t gid l d))
               /\ g_session_id g = Some (s_id s)
               /\ g_round_state g = RoundState.LIVE
               /\ g_live_start_time g = Some t
               /\ g_submit_end_time g = s_lock_time s.
Proof.
  intros Hnd Hin Hk. apply in_split in Hin. destruct Hin as (l1 & l2 & ->).
  assert (Hne : forall y, In y l1 -> s_id y <> s_id s).
  { rewrite map_app in Hnd. simpl in Hnd. apply NoDup_remove_2 in Hnd.
    intros y Hy Heq. apply Hnd. apply in_or_app. left.
    rewrite <- Heq. apply in_map. exact Hy. }
  unfold write_live.
  destruct (for_each_app (go_live t gid) l1 (s :: l2) d) as [_ ->].
  pose proof (write_live_kept ids0 s t gid l1 d Hne Hk) as [_ Hin'].
  unfold write_live in Hin'. simpl. rewrite bind_journal.
  destruct (go_live_journal t gid s _ Hin') as (H1 & g & H2 & Hg).
  split; [| exists g; split; [| exact Hg]];
    apply in_or_app; right; apply in_or_app; left; assumption.
Qed.

Lemma update_status_hits p st d s :
  In s (roast_sessions d) -> p s = true ->
  In (with_status st s) (roast_sessions (final (update_status p st d))).
Proof.
  intros Hin Hp. unfold update_status, final. simpl.
  apply in_map_iff. exists s. rewrite Hp. split; [reflexivity | exact Hin].
Qed.

Lemma row_kept_after_write ids0 s x st d :
  row_kept ids0 s d -> x = s_id s ->
  row_kept ids0 (with_status st s) (final (update_status (by_id x) st d)).
Proof.
  intros [Hids Hin] ->. split.
  - rewrite update_status_ids. exact Hids.
  - apply update_status_hits; [exact Hin | apply Nat.eqb_refl].
Qed.

Lemma split_at_row (l : list Session) (s : Session) :
  List.NoDup (map s_id l) -> In s l ->
  exists l1 l2, l = l1 ++ s :: l2
                /\ (forall y, In y l1 -> s_id y <> s_id s)
                /\ (forall y, In y l2 -> s_id y <> s_id s).
Proof.
  intros Hnd Hin. apply in_split in Hin. destruct Hin as (l1 & l2 & ->).
  exists l1, l2. split; [reflexivity |].
  rewrite map_app in Hnd. simpl in Hnd. apply NoDup_remove_2 in Hnd.
  split; intros y Hy Heq; apply Hnd; apply in_or_app; [left | right];
    rewrite <- Heq; apply in_map; exact Hy.
Qed.

(** After the LOCKED to LIVE pass the row of a due session reads LIVE. *)
Lemma write_live_row ids0 t gid s l d :
  List.NoDup (map s_id l) -> In s l -> row_kept ids0 s d ->
  row_kept ids0 (with_status Status.LIVE s) (final (write_live t gid l d)).
Proof.
  intros Hnd Hin Hk.
  destruct (split_at_row l s Hnd Hin) as (l1 & l2 & -> & Hne1 & Hne2).
  unfold write_live.
  destruct (for_each_app (go_live t gid) l1 (s :: l2) d) as [-> _].
  pose proof (write_live_kept ids0 s t gid l1 d Hne1 Hk) as Hk1.
  unfold write_live in Hk1. simpl. rewrite bind_final.
  apply (write_live_kept ids0 (with_status Status.LIVE s) t gid l2); [exact Hne2 |].
  unfold go_live. rewrite bind_final.
  apply row_kept_global, row_kept_after_write; [exact Hk1 | reflexivity].
Qed.

(** The safety net of the same run either leaves a LIVE row or archives it,
    and leaves it when its lock time is at most 5 minutes past. *)
Lemma archive_stale_row ids0 t gid s lock d :
  List.NoDup ids0 -> s_status s = Status.LIVE -> s_lock_time s = Some lock ->
  row_kept ids0 s d ->
  (row_kept ids0 s (final (archive_stale t gid d))
   \/ row_kept ids0 (with_status Status.ARCHIVED s) (final (archive_stale t gid d)))
  /\ (t <= lock + 5 * 60 * 1000 -> row_kept ids0 s (final (archive_stale t gid d))).
Proof.
  intros Hnd Hst Hlock Hk. unfold archive_stale. rewrite get_bind.
  set (live := List.filter _ (roast_sessions d)).
  assert (Hin : In s live).
  { apply filter_In. split; [apply Hk | rewrite Hst; reflexivity]. }
  assert (Hndl : List.NoDup (map s_id live)).
  { apply NoDup_map_filter. destruct Hk as [-> _]. exact Hnd. }
  destruct (split_at_row live s Hndl Hin) as (l1 & l2 & -> & Hne1 & Hne2).
  destruct (for_each_app (archive_if_stale t gid) l1 (s :: l2) d) as [-> _].
  assert (Hk1 : row_kept ids0 s (final (for_each l1 (archive_if_stale t gid) d))).
  { apply for_each_inv; [| exact Hk].
    intros y d' Hy Hk'. apply archive_if_stale_kept; auto. }
  set (d1 := final (for_each l1 (archive_if_stale t gid) d)) in *.
  simpl. rewrite bind_final.
  assert (Hrest : forall r d', row_kept ids0 r d' -> s_id r = s_id s ->
            row_kept ids0 r (final (for_each l2 (archive_if_stale t gid) d'))).
  { intros r d' Hr Hid. apply for_each_inv; [| exact Hr].
    intros y d'' Hy Hk'. apply archive_if_stale_kept; [| exact Hk'].
    rewrite Hid. apply Hne2. exact Hy. }
  assert (Hstep : (final (archive_if_stale t gid s d1) = d1
                   \/ row_kept ids0 (with_status Status.ARCHIVED s)
                                (final (archive_if_stale t gid s d1)))
                  /\ (t <= lock + 5 * 60 * 1000 -> final (archive_if_stale t gid s d1) = d1)).
  { unfold archive_if_stale. rewrite get_bind.
    destruct (count_unused (s_id s) d1 =? 0); [| split; [left |]; reflexivity].
    rewrite get_bind.
    destruct (find_session (s_id s) d1) as [sd|] eqn:Hf; [| split; [left |]; reflexivity].
    assert (sd = s).
    { unfold find_session in Hf. apply find_some in Hf. destruct Hf as [Hsd Hid].
      apply Nat.eqb_eq in Hid.
      apply (NoDup_map_eq s_id (roast_sessions d1)); try assumption; try apply Hk1.
      destruct Hk1 as [-> _]. exact Hnd. }
    subst sd. rewrite Hlock.
    destruct (Z.ltb_spec (5 * 60 * 1000) (t - lock)); [| split; [left |]; reflexivity].
    split; [right | lia].
    rewrite bind_final. apply row_kept_global, row_kept_after_write; [exact Hk1 | reflexivity]. }
  destruct Hstep as [[Heq | Harch] Hearly].
  - rewrite Heq. split; [left |]; intros; apply Hrest; auto.
  - split; [right; apply Hrest; [exact Harch | reflexivity] |].
    intros Ht. rewrite (Hearly Ht). apply Hrest; auto.
Qed.

(** The journal and the final rows of one run, for a session that is LOCKED
    with lock time [lock]. *)
Lemma session_manager_locked_row :
  forall (t : Z) (gid : uuid) (db : DB) (s : Session) (lock : Z),
    List.NoDup (map s_id (roast_sessions db)) ->
    In s (roast_sessions db) ->
    s_status s = Status.LOCKED ->
    s_lock_time s = Some lock ->
    (lock + 10 * 1000 <= t ->
       In (WSessionStatus (s_id s) Status.LOCKED Status.LIVE)
          (journal (session_manager t gid db))
       /\ (exists g, In (WGlobal g) (journal (session_manager t gid db))
                     /\ g_session_id g = Some (s_id s)
                     /\ g_round_state g = RoundState.LIVE
                     /\ g_live_start_time g = Some t
                     /\ g_submit_end_time g = Some lock)
       /\ (In (with_status Status.LIVE s) (roast_sessions (final (session_manager t gid db)))
           \/ In (with_status Status.ARCHIVED s)
                 (roast_sessions (final (session_manager t gid db))))
       /\ (t <= lock + 5 * 60 * 1000 ->
           In (with_status Status.LIVE s) (roast_sessions (final (session_manager t gid db)))))
    /\ (t < lock + 10 * 1000 ->
          In s (roast_sessions (final (session_manager t gid db)))).
Proof.
  intros t gid db s lock Hnd Hin Hst Hlock.
  set (ids0 := map s_id (roast_sessions db)) in *.
  assert (Hk0 : row_kept ids0 s db) by (split; [reflexivity | exact Hin]).
  unfold session_manager, read_open_due. rewrite get_bind.
  set (opens := List.filter _ (roast_sessions db)).
  assert (Hk1 : row_kept ids0 s (final (write_locked opens db))).
  { apply write_locked_kept; [| exact Hk0].
    intros y Hy. apply filter_In in Hy. destruct Hy as [Hy Hopen].
    apply (row_kept_other_id ids0 s db); try assumption.
    rewrite Hst. destruct (s_status y); simpl in Hopen; congruence. }
  unfold session_manager_resume.
  rewrite bind_journal, bind_final. unfold read_locked_due. rewrite get_bind.
  set (db1 := final (write_locked opens db)) in *.
  set (locked := List.filter _ (roast_sessions db1)).
  rewrite bind_journal, !bind_final, ret_final.
  set (db2 := final (write_live t gid locked db1)).
  assert (Hs3 : roast_sessions (final (sync_open t gid db2)) = roast_sessions db2)
    by apply sync_open_tables.
  split.
  - intros Hdue.
    assert (Hs : In s locked).
    { apply filter_In. split; [apply Hk1 |].
      rewrite Hst, Hlock. simpl. apply Z.leb_le. lia. }
    assert (Hndl : List.NoDup (map s_id locked)).
    { apply NoDup_map_filter. destruct Hk1 as [-> _]. exact Hnd. }
    destruct (write_live_journal ids0 t gid s locked db1 Hndl Hs Hk1) as (H1 & g & H2 & Hg).
    rewrite Hst in H1. rewrite Hlock in Hg.
    split; [apply in_or_app; right; apply in_or_app; left; assumption |].
    split; [exists g; split; [| exact Hg];
            apply in_or_app; right; apply in_or_app; left; assumption |].
    pose proof (write_live_row ids0 t gid s locked db1 Hndl Hs Hk1) as Hk2.
    fold db2 in Hk2.
    assert (Hk3 : row_kept ids0 (with_status Status.LIVE s) (final (sync_open t gid db2))).
    { unfold row_kept. rewrite Hs3. exact Hk2. }
    destruct (archive_stale_row ids0 t gid (with_status Status.LIVE s) lock
                (final (sync_open t gid db2)) Hnd eq_refl Hlock Hk3) as [Hor Hlive].
    split.
    + destruct Hor as [[_ H] | [_ H]]; [left | right]; exact H.
    + intros Ht. exact (proj2 (Hlive Ht)).
  - intros Hearly.
    assert (Hk2 : row_kept ids0 s db2).
    { apply write_live_kept; [| exact Hk1].
      intros y Hy Heq. apply filter_In in Hy. destruct Hy as [Hy Hp].
      assert (y = s).
      { apply (NoDup_map_eq s_id (roast_sessions db1)); try assumption; try apply Hk1.
        destruct Hk1 as [-> _]. exact Hnd. }
      subst y. rewrite Hst, Hlock in Hp. simpl in Hp. apply Z.leb_le in Hp. lia. }
    assert (Hk3 : row_kept ids0 s (final (sync_open t gid db2))).
    { unfold row_kept. rewrite Hs3. exact Hk2. }
    assert (Hk4 : row_kept ids0 s (final (archive_stale t gid (final (sync_open t gid db2))))).
    { apply archive_stale_kept; try assumption. rewrite Hst. discriminate. }
    exact (proj2 Hk4).
Qed.

(** The scenario of the specification: locked at t0+120s, the run at
    t0+136s takes the session LIVE and stamps live-start with 136s; a run
    at t0+125s would not. *)
Example controller_scenario :
  status_of 1 (final (session_manager 136000 8 store_locked)) = Some Status.LIVE
  /\ map g_live_start_time
         (global_round_state (final (session_manager 136000 8 store_locked)))
     = [Some 136000]
  /\ status_of 1 (final (session_manager 130000 8 store_locked)) = Some Status.LOCKED.
Proof. vm_compute. repeat split. Qed.

(** ** The used flag and its writers *)

Lemma update_status_not_used p st db :
  Forall not_used_write (journal (update_status p st db)).
Proof.
  unfold update_status, journal. simpl. apply List.Forall_forall.
  intros w Hw. apply in_map_iff in Hw. destruct Hw as (s & <- & _). exact I.
Qed.

Lemma updateGlobalRoundState_not_used t gid sid rs se ls db :
  Forall not_used_write (journal (updateGlobalRoundState t gid sid rs se ls db)).
Proof.
  destruct (updateGlobalRoundState_journal t gid sid rs se ls db) as [_ H].
  eapply Forall_weaken; [| exact H]. intros w (g & -> & _). exact I.
Qed.

Lemma ensure_next_session_not_used e sid db :
  Forall not_used_write (journal (ensure_next_session e sid db)).
Proof.
  unfold ensure_next_session. rewrite get_bind.
  destruct (activeSessions db) as [|a rest].
  - unfold create_next_session. rewrite get_bind.
    destruct (personas db) as [|p0 ps] eqn:Hps.
    + apply Forall_bind_journal; [apply updateGlobalRoundState_not_used | constructor].
    + destruct (nth_error (p0 :: ps) (random_index e)); [| constructor].
      apply Forall_bind_journal; [repeat constructor |].
      apply Forall_bind_journal; [apply updateGlobalRoundState_not_used | constructor].
  - unfold reconcile. rewrite get_bind.
    apply Forall_bind_journal; [| constructor].
    destruct (find_session (s_id a) db);
      [apply updateGlobalRoundState_not_used | constructor].
Qed.

Lemma update_used_journal t p v db w :
  In w (journal (update_used t p v db)) ->
  exists m, In m (roast_messages db) /\ p m = true
            /\ w = WMessageUsed (m_id m) (owner_status m db) (m_used m) v.
Proof.
  unfold update_used.
  destruct (fire_triggers t v _ _); unfold journal; simpl; [| tauto].
  intros Hw. apply in_map_iff in Hw. destruct Hw as (m & <- & Hm).
  apply filter_In in Hm. exists m. tauto.
Qed.

Lemma complete_live_round_flips e body db :
  Forall flips_to_used (journal (complete_live_round e body db)).
Proof.
  unfold complete_live_round. destruct body as [sessionId|]; [| constructor].
  rewrite get_bind. destruct (find_session sessionId db); [| constructor].
  apply Forall_bind_journal.
  { eapply Forall_weaken; [| apply update_status_not_used].
    intros [] H; simpl in *; tauto. }
  apply Forall_bind_journal.
  - apply List.Forall_forall. intros w Hw.
    apply update_used_journal in Hw. destruct Hw as (m & _ & Hp & ->).
    apply andb_true_iff in Hp. destruct Hp as [_ Hp]. apply negb_true_iff in Hp.
    simpl. tauto.
  - match goal with |- context [if ?b then _ else _] => destruct b end; [| constructor].
    eapply Forall_weaken; [| apply ensure_next_session_not_used].
    intros [] H; simpl in *; tauto.
Qed.

Lemma sync_open_not_used t gid db : Forall not_used_write (journal (sync_open t gid db)).
Proof.
  unfold sync_open. rewrite get_bind.
  destruct (latest_by _ _) as [session|]; [| constructor].
  rewrite get_bind.
  match goal with |- context [if ?b then _ else _] => destruct b end; [| constructor].
  apply updateGlobalRoundState_not_used.
Qed.

Lemma archive_if_stale_not_used t gid y db :
  Forall not_used_write (journal (archive_if_stale t gid y db)).
Proof.
  unfold archive_if_stale. rewrite get_bind.
  destruct (count_unused (s_id y) db =? 0); [| constructor].
  rewrite get_bind.
  destruct (find_session (s_id y) db) as [sd|]; [| constructor].
  destruct (s_lock_time sd) as [lockTime|]; [| constructor].
  destruct (5 * 60 * 1000 <? t - lockTime); [| constructor].
  apply Forall_bind_journal;
    [apply update_status_not_used | apply updateGlobalRoundState_not_used].
Qed.

Lemma session_manager_not_used t gid db :
  Forall not_used_write (journal (session_manager t gid db)).
Proof.
  unfold session_manager, read_open_due. rewrite get_bind.
  unfold session_manager_resume.
  apply Forall_bind_journal.
  { unfold write_locked. apply (for_each_journal (fun _ => True)); [| exact I].
    intros y d _ _. split; [exact I | apply update_status_not_used]. }
  unfold read_locked_due. rewrite get_bind.
  apply Forall_bind_journal.
  { unfold write_live. apply (for_each_journal (fun _ => True)); [| exact I].
    intros y d _ _. split; [exact I |]. unfold go_live.
    apply Forall_bind_journal;
      [apply update_status_not_used | apply updateGlobalRoundState_not_used]. }
  apply Forall_bind_journal; [apply sync_open_not_used |].
  apply Forall_bind_journal; [| constructor].
  unfold archive_stale. rewrite get_bind.
  apply (for_each_journal (fun _ => True)); [| exact I].
  intros y d _ _. split; [exact I | apply archive_if_stale_not_used].
Qed.

Lemma live_owner db m :
  List.NoDup (map s_id (roast_sessions db)) ->
  session_is_live (m_session_id m) db = true ->
  owner_status m db = Some Status.LIVE.
Proof.
  intros Hnd Hlive. unfold session_is_live in Hlive. apply existsb_exists in Hlive.
  destruct Hlive as (s & Hs & Hp). apply andb_true_iff in Hp. destruct Hp as [Hid Hst].
  unfold owner_status, status_of, find_session.
  destruct (List.find _ (roast_sessions db)) as [s'|] eqn:Hf.
  - apply find_some in Hf. destruct Hf as [Hs' Hid'].
    unfold by_id in Hid. apply Nat.eqb_eq in Hid, Hid'.
    assert (s' = s).
    { apply (NoDup_map_eq s_id (roast_sessions db)); try assumption. congruence. }
    subst s'. simpl. destruct (s_status s); simpl in Hst; congruence.
  - exfalso. apply (find_none _ _ Hf) in Hs. unfold by_id in Hid. congruence.
Qed.

(** C5 as stated fails: the completion service marks leftover messages used
    after it has archived the session, so the flag flips while the owning
    session is ARCHIVED; called with the id of an OPEN session it flips the
    flag while the session is OPEN. *)
Lemma C5_completion_marks_used_outside_live :
  journal (complete_live_round (mkEnv 60000 0 9 8) (Some 1%nat) store_live_leftover)
  = [WSessionStatus 1 Status.LIVE Status.ARCHIVED;
     WMessageUsed 5 (Some Status.ARCHIVED) false true;
     WSessionInsert (mkSession 9 (Some 3%nat) "ada" None Status.OPEN 60000 (Some 180000) 60000);
     WGlobal (mkGlobalRow 7 (Some 9%nat) RoundState.SUBMITTING 0 0 None (Some 180000) 60000)]
  /\ journal (complete_live_round (mkEnv 60000 0 9 8) (Some 1%nat) store_open_submission)
     = [WMessageUsed 5 (Some Status.OPEN) false true;
        WGlobal (mkGlobalRow 7 (Some 1%nat) RoundState.SUBMITTING 0 0 None (Some 120000) 60000)].
Proof. vm_compute. split; reflexivity. Qed.

(** The writes of the used flag, read off the journals: the completion
    service flips it from false to true, the controller writes none, and a
    client write that passes the policy sets it to true on a message whose
    session is LIVE. *)
Lemma used_writes_only_rise :
  (forall e body db, Forall flips_to_used (journal (complete_live_round e body db)))
  /\ (forall t gid db, Forall not_used_write (journal (session_manager t gid db)))
  /\ (forall t p v db,
        List.NoDup (map s_id (roast_sessions db)) ->
        Forall sets_used_while_live (journal (client_update_used t p v db))).
Proof.
  split; [exact complete_live_round_flips |].
  split; [exact session_manager_not_used |].
  intros t p v db Hnd. unfold client_update_used.
  destruct (forallb _ _) eqn:Hcheck; [| constructor].
  apply List.Forall_forall. intros w Hw.
  apply update_used_journal in Hw. destruct Hw as (m & Hm & Hvis & ->).
  simpl. rewrite forallb_forall in Hcheck.
  specialize (Hcheck m ltac:(apply filter_In; split; assumption)).
  unfold policy_with_check in Hcheck. simpl in Hcheck.
  apply andb_true_iff in Hcheck. destruct Hcheck as [_ Hv].
  apply andb_true_iff in Hvis. destruct Hvis as [_ Hlive].
  split; [destruct v; simpl in Hv; congruence |].
  apply live_owner; assumption.
Qed.

(** A client cannot clear the flag, nor set it outside LIVE: both attempts
    leave the store as it was. *)
Example client_cannot_clear_or_mark_early :
  final (client_update_used 60000 (fun m => Nat.eqb (m_id m) 5) false store_live_leftover)
  = store_live_leftover
  /\ final (markMessageUsed 60000 5 store_open_submission) = store_open_submission
  /\ map m_used (roast_messages (final (markMessageUsed 60000 5 store_live_leftover)))
     = [true].
Proof. vm_compute. repeat split. Qed.

(** ** The message-used trigger *)

Lemma progress_rows_spec t sid rows :
  Forall (fun g => int4_min <= g_current_roast_index g < int4_max) rows ->
  exists rows',
    progress_rows t sid rows = Some rows' /\
    Forall2 (fun g g' =>
      if progress_target sid g
      then g' = with_progress (Z.min (g_total_roasts g) (g_current_roast_index g + 1)) t g
      else g' = g) rows rows'.
Proof.
  induction 1 as [|g rows Hg _ IH].
  - exists []. split; [reflexivity | constructor].
  - destruct IH as (rows' & Hr & Hall).
    assert (Hrow : exists g', progress_row t sid g = Some g' /\
      if progress_target sid g
      then g' = with_progress (Z.min (g_total_roasts g) (g_current_roast_index g + 1)) t g
      else g' = g).
    { unfold progress_row, int4_add, LEAST.
      destruct (progress_target sid g); [| eauto].
      unfold int4_min, int4_max in *.
      destruct (Z.leb_spec (-2147483648) (g_current_roast_index g + 1)); [| lia].
      destruct (Z.leb_spec (g_current_roast_index g + 1) 2147483647); [| lia].
      simpl. eauto. }
    destruct Hrow as (g' & Hg' & Hspec).
    exists (g' :: rows'). simpl. rewrite Hg', Hr. split; [reflexivity |].
    constructor; assumption.
Qed.

(** C10.  The trigger on message-used flips keeps current_roast_index at or
    below total_roasts: it rewrites a row only when the message's flag went
    from false to true and the row belongs to the message's session in phase
    LIVE, and then sets the index to the smaller of total_roasts and the
    index plus one; every other row is left as it was.  (The indices are
    32-bit values below the maximum, so that the addition is defined.) *)
Theorem C10_trigger_keeps_index_within_total :
  forall (t : Z) (OLD NEW : Message) (rows : list GlobalRow),
    Forall (fun g => int4_min <= g_current_roast_index g < int4_max) rows ->
    exists rows',
      increment_global_round_progress_on_message_used t OLD NEW rows = Some rows' /\
      Forall2 (fun g g' =>
        if trigger_hits OLD NEW g
        then g' = with_progress (Z.min (g_total_roasts g) (g_current_roast_index g + 1)) t g
             /\ within_total g'
        else g' = g) rows rows' /\
      (Forall within_total rows -> Forall within_total rows').
Proof.
  intros t OLD NEW rows Hrange.
  unfold increment_global_round_progress_on_message_used, trigger_hits.
  destruct (m_used OLD) eqn:Ho, (m_used NEW) eqn:Hn; simpl.
  1, 2, 4: exists rows; split; [reflexivity | split; [| tauto]];
    clear; induction rows; constructor; auto.
  destruct (progress_rows_spec t (m_session_id NEW) rows Hrange) as (rows' & Hr & Hall).
  exists rows'. split; [exact Hr |].
  assert (H2 : Forall2 (fun g g' =>
      if progress_target (m_session_id NEW) g
      then g' = with_progress (Z.min (g_total_roasts g) (g_current_roast_index g + 1)) t g
           /\ within_total g'
      else g' = g) rows rows').
  { clear Hr Hrange. induction Hall as [|g g' rows rows' Hg _ IH]; constructor; auto.
    destruct (progress_target (m_session_id NEW) g); [| exact Hg].
    split; [exact Hg |]. subst g'. unfold within_total. simpl. lia. }
  split; [exact H2 |].
  clear Hr Hrange Hall. induction H2 as [|g g' rows rows' Hg _ IH]; intros Hb.
  - constructor.
  - inversion Hb; subst. constructor; auto.
    destruct (progress_target (m_session_id NEW) g); [tauto | congruence].
Qed.

(** C10 at a LIVE row with index 2 of 3, for a message of its session that
    goes from unused to used. *)
Lemma C10_trigger_witness :
  exists rows',
    increment_global_round_progress_on_message_used 20
      (unused_message 5 1) (used_message 5 1) [global_live_2_of_3] = Some rows' /\
    Forall2 (fun g g' =>
      if trigger_hits (unused_message 5 1) (used_message 5 1) g
      then g' = with_progress (Z.min (g_total_roasts g) (g_current_roast_index g + 1)) 20 g
           /\ within_total g'
      else g' = g) [global_live_2_of_3] rows' /\
    (Forall within_total [global_live_2_of_3] -> Forall within_total rows').
Proof.
  apply (C10_trigger_keeps_index_within_total 20
           (unused_message 5 1) (used_message 5 1) [global_live_2_of_3]).
  constructor; [| constructor]. unfold int4_min, int4_max. simpl. lia.
Defined.

(** ** Round completion: the successor session *)


(** The successor step with nothing active and the persona [p] drawn:
    the answer, the session table and the journal. *)
Lemma ensure_next_session_creates :
  forall (e : Env) (sessionId : uuid) (db : DB) (p : Persona),
    activeSessions db = [] ->
    nth_error (personas db) (random_index e) = Some p ->
    In p (personas db)
    /\ result (ensure_next_session e sessionId db)
       = Success sessionId (Some (new_session_id e))
    /\ roast_sessions (final (ensure_next_session e sessionId db))
       = roast_sessions db
         ++ [mkSession (new_session_id e) (Some (p_id p)) (p_username p)
                       (p_profile_pic_url p) Status.OPEN (now e)
                       (Some (now e + 2 * 60 * 1000)) (now e)]
    /\ Exists (is_global_write (Some (new_session_id e)) RoundState.SUBMITTING
                               (Some (now e + 2 * 60 * 1000)) None (now e))
              (journal (ensure_next_session e sessionId db)).
Proof.
  intros e sid db p Hact Hp.
  split; [eapply nth_error_In; exact Hp |].
  unfold ensure_next_session. rewrite get_bind, Hact.
  unfold create_next_session. rewrite get_bind.
  destruct (personas db) as [|p0 ps] eqn:Hps.
  { destruct (random_index e); discriminate. }
  rewrite Hp. rewrite !bind_result, !bind_final, !bind_journal, ret_final.
  split; [reflexivity |]. split.
  - match goal with |- context [updateGlobalRoundState ?a ?b ?c ?d ?f ?g ?h] =>
      destruct (updateGlobalRoundState_tables a b c d f g h) as (-> & _) end.
    reflexivity.
  - apply Exists_app. right. apply Exists_app. left.
    match goal with |- context [updateGlobalRoundState ?a ?b ?c ?d ?f ?g ?h] =>
      destruct (updateGlobalRoundState_journal a b c d f g h) as [Hne Hall];
      destruct (journal (updateGlobalRoundState a b c d f g h)); [congruence |]
    end.
    inversion Hall; subst. left. assumption.
Qed.

(** ** Round completion: calling it twice *)

(** ORDER BY ... DESC LIMIT 1 returns the first row among those with the
    greatest key. *)
Lemma latest_by_spec {A} (key : A -> Z) (l : list A) (x : A) :
  latest_by key l = Some x ->
  exists l1 l2, l = l1 ++ x :: l2
                /\ (forall y, In y l1 -> key y < key x)
                /\ (forall y, In y l2 -> key y <= key x).
Proof.
  revert x. induction l as [|a l IH]; intros x; simpl; [discriminate |].
  destruct (latest_by key l) as [m|] eqn:Hm.
  - destruct (IH m eq_refl) as (l1 & l2 & -> & H1 & H2).
    destruct (Z.leb_spec (key m) (key a)); intros [= <-].
    + exists [], (l1 ++ m :: l2). split; [reflexivity |]. split; [simpl; tauto |].
      intros y Hy. apply in_app_or in Hy. destruct Hy as [Hy | [<- | Hy]].
      * specialize (H1 y Hy). lia.
      * lia.
      * specialize (H2 y Hy). lia.
    + exists (a :: l1), l2. split; [reflexivity |]. split; [| exact H2].
      intros y [<- | Hy]; [lia | auto].
  - intros [= <-]. destruct l as [|b l]; [| simpl in Hm; destruct (latest_by key l);
      [destruct (key _ <=? key b) |]; discriminate].
    exists [], []. repeat split; simpl; tauto.
Qed.

Lemma latest_by_first_max {A} (key : A -> Z) (l1 l2 : list A) (x : A) :
  (forall y, In y l1 -> key y < key x) ->
  (forall y, In y l2 -> key y <= key x) ->
  latest_by key (l1 ++ x :: l2) = Some x.
Proof.
  intros H1 H2.
  assert (Hx : latest_by key (x :: l2) = Some x).
  { clear H1. revert H2. induction l2 as [|b l2 IH]; intros H2; [reflexivity |].
    simpl in *. destruct (latest_by key l2) as [m|] eqn:Hm.
    - assert (Hmx : In m l2) by (apply (latest_by_In key); exact Hm).
      destruct (Z.leb_spec (key m) (key b)).
      + destruct (Z.leb_spec (key b) (key x)); [reflexivity |].
        specialize (H2 b ltac:(left; reflexivity)). lia.
      + destruct (Z.leb_spec (key m) (key x)); [reflexivity |].
        specialize (H2 m ltac:(right; exact Hmx)). lia.
    - destruct (Z.leb_spec (key b) (key x)); [reflexivity |].
      specialize (H2 b ltac:(left; reflexivity)). lia. }
  induction l1 as [|a l1 IH]; [exact Hx |].
  simpl. rewrite IH by (intros y Hy; apply H1; right; exact Hy).
  specialize (H1 a ltac:(left; reflexivity)).
  destruct (Z.leb_spec (key x) (key a)); [lia | reflexivity].
Qed.

Lemma latest_by_none {A} (key : A -> Z) (l : list A) :
  latest_by key l = None -> l = [].
Proof.
  destruct l as [|a l]; [reflexivity |]. simpl.
  destruct (latest_by key l); [destruct (_ <=? _) |]; discriminate.
Qed.

Lemma erase_stateUpdate id sid rs total se ls1 ls2 t1 t2 :
  option_map (fun _ => 0) ls1 = option_map (fun _ => 0) ls2 ->
  erase_clock (stateUpdate id sid rs total se ls2 t2)
  = erase_clock (stateUpdate id sid rs total se ls1 t1).
Proof. intros H. unfold erase_clock, stateUpdate. simpl. rewrite H. reflexivity. Qed.

(** Upserting twice with the same arguments, at two clock readings, gives
    the rows of the first upsert up to clock readings. *)
Lemma upsert_rows_twice t1 t2 gid1 gid2 sid rs total se ls1 ls2 rows :
  List.NoDup (map g_id rows) ->
  (forall g, In g rows -> g_updated_at g <= t1) ->
  option_map (fun _ => 0) ls1 = option_map (fun _ => 0) ls2 ->
  map erase_clock
      (upsert_rows t2 gid2 sid rs total se ls2
         (upsert_rows t1 gid1 sid rs total se ls1 rows))
  = map erase_clock (upsert_rows t1 gid1 sid rs total se ls1 rows).
Proof.
  intros Hnd Hle Hls. unfold upsert_rows at 2 3.
  destruct (latest_by g_updated_at rows) as [e|] eqn:He.
  - destruct (latest_by_spec _ _ _ He) as (l1 & l2 & -> & H1 & H2).
    set (f := fun g => if Nat.eqb (g_id g) (g_id e)
                       then stateUpdate (g_id g) sid rs total se ls1 t1 else g).
    assert (Hl1 : map f l1 = l1).
    { rewrite <- (map_id l1) at 2. apply map_ext_in. intros g Hg. unfold f.
      destruct (Nat.eqb_spec (g_id g) (g_id e)) as [Heq | _]; [| reflexivity].
      exfalso. rewrite map_app in Hnd. simpl in Hnd. apply NoDup_remove_2 in Hnd.
      apply Hnd. apply in_or_app. left. rewrite <- Heq. apply in_map. exact Hg. }
    assert (Hl2 : map f l2 = l2).
    { rewrite <- (map_id l2) at 2. apply map_ext_in. intros g Hg. unfold f.
      destruct (Nat.eqb_spec (g_id g) (g_id e)) as [Heq | _]; [| reflexivity].
      exfalso. rewrite map_app in Hnd. simpl in Hnd. apply NoDup_remove_2 in Hnd.
      apply Hnd. apply in_or_app. right. rewrite <- Heq. apply in_map. exact Hg. }
    assert (Hlatest : latest_by g_updated_at (map f (l1 ++ e :: l2)) = Some (f e)).
    { rewrite map_app. simpl. rewrite Hl1, Hl2.
      assert (Hfe : g_updated_at (f e) = t1) by (unfold f; rewrite Nat.eqb_refl; reflexivity).
      apply latest_by_first_max; intros y Hy; rewrite Hfe.
      - specialize (H1 y Hy). specialize (Hle e ltac:(apply in_or_app; right; left; reflexivity)).
        lia.
      - apply Hle. apply in_or_app. right. right. exact Hy. }
    unfold upsert_rows. rewrite Hlatest.
    assert (Hid : g_id (f e) = g_id e) by (unfold f; rewrite Nat.eqb_refl; reflexivity).
    rewrite Hid, map_map. rewrite !map_map. apply map_ext. intros g. unfold f.
    destruct (Nat.eqb_spec (g_id g) (g_id e)) as [Heq | Hne].
    + simpl. rewrite Heq, Nat.eqb_refl. apply erase_stateUpdate. exact Hls.
    + destruct (Nat.eqb_spec (g_id g) (g_id e)); [contradiction | reflexivity].
  - apply latest_by_none in He. subst rows. simpl. unfold upsert_rows. simpl.
    rewrite Nat.eqb_refl. simpl. f_equal. apply erase_stateUpdate. exact Hls.
Qed.

Lemma DB_eta db :
  mkDB (roast_sessions db) (roast_messages db) (personas db) (roast_exchanges db)
       (global_round_state db) = db.
Proof. destruct db. reflexivity. Qed.

Lemma updateGlobalRoundState_final t gid sid rs se ls db :
  final (updateGlobalRoundState t gid sid rs se ls db)
  = set_global (upsert_rows t gid sid rs (total_for sid db) se ls (global_round_state db)) db.
Proof.
  unfold updateGlobalRoundState. rewrite !get_bind. unfold upsert_rows, latest_global.
  destruct (latest_by g_updated_at (global_round_state db)); reflexivity.
Qed.

Lemma bind_noop {A B} (c : M A) (k : A -> M B) (a : A) db :
  c db = (a, db, []) -> (c ≫= k) db = k a db.
Proof.
  intros H. unfold_M. rewrite H. destruct (k a db) as [[b d] w]. reflexivity.
Qed.

Lemma update_status_noop p st db :
  (forall s, In s (roast_sessions db) -> p s = false) ->
  update_status p st db = (tt, db, []).
Proof.
  intros H. unfold update_status.
  assert (Hmap : map (fun s => if p s then with_status st s else s) (roast_sessions db)
                 = roast_sessions db).
  { rewrite <- (map_id (roast_sessions db)) at 2. apply map_ext_in.
    intros s Hs. rewrite (H s Hs). reflexivity. }
  assert (Hfil : List.filter p (roast_sessions db) = []).
  { induction (roast_sessions db) as [|s l IH]; [reflexivity |]. simpl.
    rewrite (H s) by (left; reflexivity). apply IH.
    - intros s' Hs'. apply H. right. exact Hs'.
    - simpl in Hmap. injection Hmap as _ Hmap. exact Hmap. }
  rewrite Hmap, Hfil. unfold set_sessions. rewrite DB_eta. reflexivity.
Qed.

Lemma update_used_noop t p v db :
  (forall m, In m (roast_messages db) -> p m = false) ->
  update_used t p v db = (true, db, []).
Proof.
  intros H. unfold update_used.
  assert (Hmap : map (fun m => if p m then with_used v m else m) (roast_messages db)
                 = roast_messages db).
  { rewrite <- (map_id (roast_messages db)) at 2. apply map_ext_in.
    intros m Hm. rewrite (H m Hm). reflexivity. }
  assert (Hfil : List.filter p (roast_messages db) = []).
  { induction (roast_messages db) as [|m l IH]; [reflexivity |]. simpl.
    rewrite (H m) by (left; reflexivity). apply IH.
    - intros m' Hm'. apply H. right. exact Hm'.
    - simpl in Hmap. injection Hmap as _ Hmap. exact Hmap. }
  rewrite Hmap, Hfil. simpl. unfold set_global, set_messages. simpl.
  rewrite DB_eta. reflexivity.
Qed.

(** For an archived session whose messages are all used, a completion call
    does nothing before it looks for an active session. *)
Lemma completion_of_archived e sid db s0 :
  find_session sid db = Some s0 ->
  (forall s, In s (roast_sessions db) -> s_id s = sid -> s_status s = Status.ARCHIVED) ->
  (forall m, In m (roast_messages db) -> m_session_id m = sid -> m_used m = true) ->
  complete_live_round e (Some sid) db = ensure_next_session e sid db.
Proof.
  intros Hfind Harch Hused. unfold complete_live_round.
  rewrite get_bind, Hfind.
  rewrite (bind_noop _ _ tt).
  2:{ apply update_status_noop. intros s Hs.
      destruct (by_id sid s) eqn:Hid; [| reflexivity].
      unfold by_id in Hid. apply Nat.eqb_eq in Hid.
      rewrite (Harch s Hs Hid). reflexivity. }
  rewrite (bind_noop _ _ true); [reflexivity |].
  apply update_used_noop. intros m Hm.
  destruct (Nat.eqb_spec (m_session_id m) sid) as [Heq | _]; [| reflexivity].
  rewrite (Hused m Hm Heq). reflexivity.
Qed.

Lemma ensure_reconcile e sid db a rest d :
  activeSessions db = a :: rest ->
  find_session (s_id a) db = Some d ->
  result (ensure_next_session e sid db) = Success sid None
  /\ final (ensure_next_session e sid db)
     = set_global
         (upsert_rows (now e) (new_global_id e) (Some (s_id a))
            (roundState_of_status (s_status d)) (count_unused (s_id a) db) (s_lock_time d)
            (if Status.eqb (s_status d) Status.LIVE then Some (now e) else None)
            (global_round_state db)) db.
Proof.
  intros Hact Hfind. unfold ensure_next_session. rewrite get_bind, Hact.
  unfold reconcile. rewrite get_bind, Hfind.
  rewrite bind_result, bind_final, ret_result, ret_final, updateGlobalRoundState_final.
  split; reflexivity.
Qed.

Lemma ensure_waiting e sid db :
  activeSessions db = [] -> personas db = [] ->
  result (ensure_next_session e sid db) = Success sid None
  /\ final (ensure_next_session e sid db)
     = set_global
         (upsert_rows (now e) (new_global_id e) None RoundState.WAITING 0 None None
            (global_round_state db)) db.
Proof.
  intros Hact Hps. unfold ensure_next_session. rewrite get_bind, Hact.
  unfold create_next_session. rewrite get_bind, Hps.
  rewrite bind_result, bind_final, ret_result, ret_final, updateGlobalRoundState_final.
  split; reflexivity.
Qed.

Lemma ensure_create e sid db p :
  activeSessions db = [] ->
  nth_error (personas db) (random_index e) = Some p ->
  result (ensure_next_session e sid db) = Success sid (Some (new_session_id e))
  /\ final (ensure_next_session e sid db)
     = set_global
         (upsert_rows (now e) (new_global_id e) (Some (new_session_id e))
            RoundState.SUBMITTING (count_unused (new_session_id e) db)
            (Some (now e + 2 * 60 * 1000)) None (global_round_state db))
         (set_sessions (roast_sessions db ++ [successor_session e p]) db).
Proof.
  intros Hact Hp. unfold ensure_next_session. rewrite get_bind, Hact.
  unfold create_next_session. rewrite get_bind.
  destruct (personas db) as [|p0 ps] eqn:Hps.
  { destruct (random_index e); discriminate. }
  rewrite Hp.
  rewrite !bind_result, !bind_final, ret_result, ret_final, updateGlobalRoundState_final.
  split; reflexivity.
Qed.

Lemma find_session_In id db s : find_session id db = Some s -> In s (roast_sessions db) /\ s_id s = id.
Proof.
  unfold find_session. intros H. apply find_some in H.
  destruct H as [Hin Hid]. apply Nat.eqb_eq in Hid. tauto.
Qed.

Lemma find_app_fresh (id : uuid) (l : list Session) (s : Session) :
  ~ In id (map s_id l) -> s_id s = id ->
  List.find (fun x => Nat.eqb (s_id x) id) (l ++ [s]) = Some s.
Proof.
  intros Hfresh Hid. induction l as [|a l IH]; simpl.
  - rewrite Hid, Nat.eqb_refl. reflexivity.
  - destruct (Nat.eqb_spec (s_id a) id) as [Heq | _].
    + exfalso. apply Hfresh. left. exact Heq.
    + apply IH. intros Hin. apply Hfresh. right. exact Hin.
Qed.

Lemma find_app_old (id : uuid) (l : list Session) (s s0 : Session) :
  List.find (fun x => Nat.eqb (s_id x) id) l = Some s0 ->
  List.find (fun x => Nat.eqb (s_id x) id) (l ++ [s]) = Some s0.
Proof.
  induction l as [|a l IH]; simpl; [discriminate |].
  destruct (Nat.eqb (s_id a) id); auto.
Qed.

Lemma firstn_1_nil {A} (l : list A) : firstn 1 l = [] -> l = [].
Proof. destruct l; [reflexivity | discriminate]. Qed.

(** C2 as stated fails: with round 1 archived and round 2 LIVE, a second
    completion call for round 1 is not without effect: it stamps the global
    row's live-start time (and last-updated time) with its own clock. *)
Lemma C2_second_call_restamps_live_start :
  map g_live_start_time
      (global_round_state
         (final (complete_live_round (mkEnv 200000 0 9 8) (Some 1%nat) store_next_live)))
  = [Some 200000]
  /\ map g_live_start_time
      (global_round_state
         (final (complete_live_round (mkEnv 201000 0 10 8) (Some 1%nat)
            (final (complete_live_round (mkEnv 200000 0 9 8) (Some 1%nat) store_next_live)))))
  = [Some 201000].
Proof. vm_compute. split; reflexivity. Qed.

(** C2, amended.  For a session that is already ARCHIVED and whose
    messages are all used, a second completion call right after a first one
    creates no session and reports none, leaves the session, message, persona
    and exchange tables as the first call left them, and rewrites the global
    row with the same session, phase, index, total and deadline; only clock
    readings can differ: the row's last-updated stamp, and the value of its
    live-start time when the active session is LIVE.  (Ids are unique, the new
    session's id is fresh, the random draw is within range, and no row is
    stamped later than the first call's clock.) *)
Theorem C2_second_completion_changes_only_clock_readings :
  forall (e1 e2 : Env) (sid : uuid) (db : DB) (s0 : Session),
    find_session sid db = Some s0 ->
    (forall s, In s (roast_sessions db) -> s_id s = sid -> s_status s = Status.ARCHIVED) ->
    (forall m, In m (roast_messages db) -> m_session_id m = sid -> m_used m = true) ->
    ~ In (new_session_id e1) (map s_id (roast_sessions db)) ->
    ((random_index e1 < List.length (personas db))%nat \/ personas db = []) ->
    List.NoDup (map g_id (global_round_state db)) ->
    (forall g, In g (global_round_state db) -> g_updated_at g <= now e1) ->
    result (complete_live_round e2 (Some sid) (completed_once e1 sid db)) = Success sid None
    /\ roast_sessions (final (complete_live_round e2 (Some sid) (completed_once e1 sid db)))
       = roast_sessions (completed_once e1 sid db)
    /\ roast_messages (final (complete_live_round e2 (Some sid) (completed_once e1 sid db)))
       = roast_messages (completed_once e1 sid db)
    /\ personas (final (complete_live_round e2 (Some sid) (completed_once e1 sid db)))
       = personas (completed_once e1 sid db)
    /\ roast_exchanges (final (complete_live_round e2 (Some sid) (completed_once e1 sid db)))
       = roast_exchanges (completed_once e1 sid db)
    /\ map erase_clock
           (global_round_state
              (final (complete_live_round e2 (Some sid) (completed_once e1 sid db))))
       = map erase_clock (global_round_state (completed_once e1 sid db)).
Proof.
  intros e1 e2 sid db s0 Hfind Harch Hused Hfresh Hdraw Hnd Hclock.
  unfold completed_once.
  rewrite (completion_of_archived e1 sid db s0) by assumption.
  destruct (activeSessions db) as [|a rest] eqn:Hact.
  - destruct (personas db) as [|p0 ps] eqn:Hps.
    + (* no persona: WAITING, both times *)
      destruct (ensure_waiting e1 sid db Hact Hps) as [_ ->].
      set (db1 := set_global _ db).
      rewrite (completion_of_archived e2 sid db1 s0) by assumption.
      destruct (ensure_waiting e2 sid db1 Hact Hps) as [-> ->].
      repeat (split; [reflexivity |]).
      apply upsert_rows_twice; auto.
    + (* a successor is created by the first call, found by the second *)
      destruct Hdraw as [Hdraw | ?]; [| discriminate].
      destruct (nth_error (personas db) (random_index e1)) as [p|] eqn:Hp.
      2:{ apply nth_error_None in Hp. rewrite Hps in Hp. lia. }
      destruct (ensure_create e1 sid db p Hact Hp) as [_ ->].
      set (new := successor_session e1 p).
      set (db0 := set_sessions (roast_sessions db ++ [new]) db).
      set (db1 := set_global _ db0).
      destruct (find_session_In _ _ _ Hfind) as [Hin0 Hid0].
      assert (Hne : new_session_id e1 <> sid).
      { intros Heq. apply Hfresh. rewrite Heq, <- Hid0. apply in_map. exact Hin0. }
      rewrite (completion_of_archived e2 sid db1 s0).
      2:{ unfold find_session. simpl. apply find_app_old. exact Hfind. }
      2:{ simpl. intros s Hs Hid. apply in_app_or in Hs.
          destruct Hs as [Hs | [<- | []]]; [auto |]. simpl in Hid. congruence. }
      2:{ exact Hused. }
      assert (Hact1 : activeSessions db1 = [new]).
      { unfold activeSessions in *. simpl. rewrite List.filter_app.
        apply firstn_1_nil in Hact. rewrite Hact. reflexivity. }
      assert (Hfind1 : find_session (s_id new) db1 = Some new).
      { unfold find_session. simpl. apply find_app_fresh; [exact Hfresh | reflexivity]. }
      destruct (ensure_reconcile e2 sid db1 new [] new Hact1 Hfind1) as [-> ->].
      repeat (split; [reflexivity |]).
      apply upsert_rows_twice; auto.
    - (* an active session exists: reconciled, both times *)
      destruct (find_session (s_id a) db) as [d|] eqn:Hd.
      + destruct (ensure_reconcile e1 sid db a rest d Hact Hd) as [_ ->].
        set (db1 := set_global _ db).
        rewrite (completion_of_archived e2 sid db1 s0) by assumption.
        destruct (ensure_reconcile e2 sid db1 a rest d Hact Hd) as [-> ->].
        repeat (split; [reflexivity |]).
        apply upsert_rows_twice; auto.
        destruct (Status.eqb (s_status d) Status.LIVE); reflexivity.
      + assert (Hsame : forall e, ensure_next_session e sid db = (Success sid None, db, [])).
        { intros e. unfold ensure_next_session. rewrite get_bind, Hact.
          unfold reconcile. rewrite get_bind, Hd. reflexivity. }
        rewrite (Hsame e1).
        change (final (Success sid None, db, @nil Write)) with db.
        rewrite (completion_of_archived e2 sid db s0) by assumption.
        rewrite (Hsame e2). repeat split.
Qed.

(** C2 at a store with round 1 archived and round 2 LIVE, calls at 200s and
    201s. *)
Lemma C2_second_completion_witness :
  result (complete_live_round (mkEnv 201000 0 10 8) (Some 1%nat)
            (completed_once (mkEnv 200000 0 9 8) 1 store_next_live))
  = Success 1 None
  /\ roast_sessions (final (complete_live_round (mkEnv 201000 0 10 8) (Some 1%nat)
                              (completed_once (mkEnv 200000 0 9 8) 1 store_next_live)))
     = roast_sessions (completed_once (mkEnv 200000 0 9 8) 1 store_next_live)
  /\ roast_messages (final (complete_live_round (mkEnv 201000 0 10 8) (Some 1%nat)
                              (completed_once (mkEnv 200000 0 9 8) 1 store_next_live)))
     = roast_messages (completed_once (mkEnv 200000 0 9 8) 1 store_next_live)
  /\ personas (final (complete_live_round (mkEnv 201000 0 10 8) (Some 1%nat)
                        (completed_once (mkEnv 200000 0 9 8) 1 store_next_live)))
     = personas (completed_once (mkEnv 200000 0 9 8) 1 store_next_live)
  /\ roast_exchanges (final (complete_live_round (mkEnv 201000 0 10 8) (Some 1%nat)
                               (completed_once (mkEnv 200000 0 9 8) 1 store_next_live)))
     = roast_exchanges (completed_once (mkEnv 200000 0 9 8) 1 store_next_live)
  /\ map erase_clock
         (global_round_state
            (final (complete_live_round (mkEnv 201000 0 10 8) (Some 1%nat)
                      (completed_once (mkEnv 200000 0 9 8) 1 store_next_live))))
     = map erase_clock
           (global_round_state (completed_once (mkEnv 200000 0 9 8) 1 store_next_live)).
Proof.
  apply (C2_second_completion_changes_only_clock_readings
           (mkEnv 200000 0 9 8) (mkEnv 201000 0 10 8) 1 store_next_live
           (session_row 1 "ada" Status.ARCHIVED 1000)).
  - reflexivity.
  - simpl. intros x Hx Hid. destruct Hx as [Hx | [Hx | []]]; subst x; simpl in *;
      [reflexivity | discriminate].
  - simpl. intros x Hx _. destruct Hx as [Hx | []]. subst x. reflexivity.
  - simpl. intros [H | [H | []]]; discriminate.
  - left. simpl. lia.
  - simpl. constructor; [simpl; tauto | constructor].
  - simpl. intros x Hx. destruct Hx as [Hx | []]. subst x. simpl. lia.
Defined.

(** ** Phase and timestamps of the global row *)

Lemma global_write_live_has_start sid rs se ls t w :
  (rs = RoundState.LIVE -> ls <> None) ->
  is_global_write sid rs se ls t w -> live_has_start w.
Proof.
  intros H (g & -> & _ & Hr & _ & _ & Hl & _). simpl. rewrite Hr, Hl. exact H.
Qed.

Lemma updateGlobalRoundState_live_has_start t gid sid rs se ls db :
  (rs = RoundState.LIVE -> ls <> None) ->
  Forall live_has_start (journal (updateGlobalRoundState t gid sid rs se ls db)).
Proof.
  intros H. destruct (updateGlobalRoundState_journal t gid sid rs se ls db) as [_ Hall].
  eapply Forall_weaken; [| exact Hall].
  intros w. apply global_write_live_has_start. exact H.
Qed.

(** The controller, the other backend writer of the row, writes phase LIVE
    only together with a live-start time. *)
Lemma session_manager_live_rows_have_start t gid db :
  Forall live_has_start (journal (session_manager t gid db)).
Proof.
  assert (Hst : forall p st d, Forall live_has_start (journal (update_status p st d))).
  { intros p st d. unfold update_status, journal. simpl. apply List.Forall_forall.
    intros w Hw. apply in_map_iff in Hw. destruct Hw as (s & <- & _). exact I. }
  unfold session_manager, read_open_due. rewrite get_bind.
  unfold session_manager_resume.
  apply Forall_bind_journal.
  { unfold write_locked. apply (for_each_journal (fun _ => True)); [| exact I].
    intros y d _ _. split; [exact I | apply Hst]. }
  unfold read_locked_due. rewrite get_bind.
  apply Forall_bind_journal.
  { unfold write_live. apply (for_each_journal (fun _ => True)); [| exact I].
    intros y d _ _. split; [exact I |]. unfold go_live.
    apply Forall_bind_journal; [apply Hst |].
    apply updateGlobalRoundState_live_has_start. discriminate. }
  apply Forall_bind_journal.
  { unfold sync_open. rewrite get_bind.
    destruct (latest_by _ _) as [session|]; [| constructor].
    rewrite get_bind.
    match goal with |- context [if ?b then _ else _] => destruct b end; [| constructor].
    apply updateGlobalRoundState_live_has_start. discriminate. }
  apply Forall_bind_journal; [| constructor].
  unfold archive_stale. rewrite get_bind.
  apply (for_each_journal (fun _ => True)); [| exact I].
  intros y d _ _. split; [exact I |].
  unfold archive_if_stale. rewrite get_bind.
  destruct (count_unused (s_id y) d =? 0); [| constructor].
  rewrite get_bind.
  destruct (find_session (s_id y) d) as [sd|]; [| constructor].
  destruct (s_lock_time sd) as [lockTime|]; [| constructor].
  destruct (5 * 60 * 1000 <? t - lockTime); [| constructor].
  apply Forall_bind_journal; [apply Hst |].
  apply updateGlobalRoundState_live_has_start. discriminate.
Qed.

(** C3.  A completion call for the archived round 1 that arrives while its
    successor 2 is LOCKED takes the reconcile branch, which derives phase
    LIVE from status LOCKED but a live-start time only from status LIVE: the
    row it writes has phase LIVE and no live-start time. *)
Theorem C3_reconcile_writes_live_without_start :
  result (complete_live_round (mkEnv 130000 0 9 8) (Some 1%nat) store_next_locked)
  = Success 1 None
  /\ journal (complete_live_round (mkEnv 130000 0 9 8) (Some 1%nat) store_next_locked)
     = [WGlobal (mkGlobalRow 7 (Some 2%nat) RoundState.LIVE 0 0 None (Some 125000) 130000)]
  /\ option_map (fun g => (g_round_state g, g_live_start_time g))
       (latest_global
          (final (complete_live_round (mkEnv 130000 0 9 8) (Some 1%nat) store_next_locked)))
     = Some (RoundState.LIVE, None).
Proof. vm_compute. repeat split. Qed.


(** ** Session status: forward for a call that runs alone, not under interleaving *)

Lemma updateGlobalRoundState_writes t gid sid rs se ls db :
  Forall insert_or_global (journal (updateGlobalRoundState t gid sid rs se ls db)).
Proof.
  destruct (updateGlobalRoundState_journal t gid sid rs se ls db) as [_ H].
  eapply Forall_weaken; [| exact H]. intros w (g & -> & _). exact I.
Qed.

Lemma ensure_next_session_writes e sid db :
  Forall insert_or_global (journal (ensure_next_session e sid db)).
Proof.
  unfold ensure_next_session. rewrite get_bind.
  destruct (activeSessions db) as [|a rest].
  - unfold create_next_session. rewrite get_bind.
    destruct (personas db) as [|p0 ps] eqn:Hps.
    + apply Forall_bind_journal; [apply updateGlobalRoundState_writes | constructor].
    + destruct (nth_error (p0 :: ps) (random_index e)); [| constructor].
      apply Forall_bind_journal; [repeat constructor |].
      apply Forall_bind_journal; [apply updateGlobalRoundState_writes | constructor].
  - unfold reconcile. rewrite get_bind.
    apply Forall_bind_journal; [| constructor].
    destruct (find_session (s_id a) db);
      [apply updateGlobalRoundState_writes | constructor].
Qed.

(** The completion service's status write is conditioned on the status it
    replaces, so it moves forward on any store, whoever wrote before it. *)
Lemma complete_live_round_moves_forward e body db :
  Forall moves_forward (journal (complete_live_round e body db)).
Proof.
  unfold complete_live_round. destruct body as [sessionId|]; [| constructor].
  rewrite get_bind. destruct (find_session sessionId db) as [found|]; [| constructor].
  apply Forall_bind_journal.
  { unfold archive_live, update_status, journal. simpl. apply List.Forall_forall.
    intros w Hw. apply in_map_iff in Hw. destruct Hw as (s & <- & Hs).
    apply filter_In in Hs. destruct Hs as [_ Hp].
    apply andb_true_iff in Hp. destruct Hp as [_ Hlive].
    destruct (s_status s); simpl in *; try discriminate. lia. }
  apply Forall_bind_journal.
  - apply List.Forall_forall. intros w Hw.
    apply update_used_journal in Hw. destruct Hw as (m & _ & _ & ->). exact I.
  - match goal with |- context [if ?b then _ else _] => destruct b end; [| constructor].
    eapply Forall_weaken; [| apply ensure_next_session_writes].
    intros [] H; simpl in *; tauto.
Qed.

Lemma update_by_id_forward y st d :
  List.NoDup (map s_id (roast_sessions d)) -> In y (roast_sessions d) ->
  (Status.rank (s_status y) <= Status.rank st)%nat ->
  Forall moves_forward (journal (update_status (by_id (s_id y)) st d)).
Proof.
  intros Hnd Hy Hrank. unfold update_status, journal. simpl. apply List.Forall_forall.
  intros w Hw. apply in_map_iff in Hw. destruct Hw as (s & <- & Hs).
  apply filter_In in Hs. destruct Hs as [Hs Hid].
  unfold by_id in Hid. apply Nat.eqb_eq in Hid.
  assert (s = y) by (apply (NoDup_map_eq s_id (roast_sessions d)); assumption).
  subst s. exact Hrank.
Qed.

(** A loop over rows read from the store, whose body writes the status of
    the row's id forwards and touches no other session. *)
Lemma for_each_rows_forward (Q : Session -> Prop) (body : Session -> M unit) l d :
  (forall y d', Q y -> List.NoDup (map s_id (roast_sessions d')) ->
                In y (roast_sessions d') -> Forall moves_forward (journal (body y d'))) ->
  (forall y d', map s_id (roast_sessions (final (body y d'))) = map s_id (roast_sessions d')) ->
  (forall y z d', In z (roast_sessions d') -> s_id z <> s_id y ->
                  In z (roast_sessions (final (body y d')))) ->
  List.NoDup (map s_id (roast_sessions d)) -> List.NoDup (map s_id l) ->
  (forall y, In y l -> Q y /\ In y (roast_sessions d)) ->
  Forall moves_forward (journal (for_each l body d)).
Proof.
  intros Hfw Hids Hrest. revert d.
  induction l as [|x l IH]; intros d Hnd Hndl Hin; simpl; [constructor |].
  inversion Hndl as [|? ? Hx Hndl']; subst.
  apply Forall_bind_journal.
  - apply Hfw; try apply Hin; try assumption; left; reflexivity.
  - apply IH; try assumption.
    + rewrite Hids. exact Hnd.
    + intros y Hy. destruct (Hin y (or_intror Hy)) as [Hq Hyd]. split; [exact Hq |].
      apply Hrest; [exact Hyd |].
      intros Heq. apply Hx. rewrite <- Heq. apply in_map. exact Hy.
Qed.

Lemma go_live_ids t gid y d :
  map s_id (roast_sessions (final (go_live t gid y d))) = map s_id (roast_sessions d).
Proof.
  unfold go_live. rewrite bind_final.
  destruct (updateGlobalRoundState_tables t gid (Some (s_id y)) RoundState.LIVE
              (s_lock_time y) (Some t) (final (update_status (by_id (s_id y)) Status.LIVE d)))
    as (-> & _).
  apply update_status_ids.
Qed.

Lemma archive_if_stale_ids t gid y d :
  map s_id (roast_sessions (final (archive_if_stale t gid y d))) = map s_id (roast_sessions d).
Proof.
  unfold archive_if_stale. rewrite get_bind.
  destruct (count_unused (s_id y) d =? 0); [| reflexivity].
  rewrite get_bind.
  destruct (find_session (s_id y) d) as [sd|]; [| reflexivity].
  destruct (s_lock_time sd) as [lockTime|]; [| reflexivity].
  destruct (5 * 60 * 1000 <? t - lockTime); [| reflexivity].
  rewrite bind_final.
  match goal with |- context [updateGlobalRoundState ?a ?b ?c ?e ?f ?g ?h] =>
    destruct (updateGlobalRoundState_tables a b c e f g h) as (-> & _) end.
  apply update_status_ids.
Qed.

Lemma sync_open_writes t gid db : Forall insert_or_global (journal (sync_open t gid db)).
Proof.
  unfold sync_open. rewrite get_bind.
  destruct (latest_by _ _) as [session|]; [| constructor].
  rewrite get_bind.
  match goal with |- context [if ?b then _ else _] => destruct b end; [| constructor].
  apply updateGlobalRoundState_writes.
Qed.

(** A controller run that no other writer interleaves with moves every
    status it writes forward. *)
Lemma session_manager_alone_moves_forward t gid db :
  List.NoDup (map s_id (roast_sessions db)) ->
  Forall moves_forward (journal (session_manager t gid db)).
Proof.
  intros Hnd. unfold session_manager, read_open_due. rewrite get_bind.
  unfold session_manager_resume.
  set (opens := List.filter _ (roast_sessions db)).
  assert (Hids1 : map s_id (roast_sessions (final (write_locked opens db)))
                  = map s_id (roast_sessions db)).
  { unfold write_locked.
    apply (for_each_inv (fun d => map s_id (roast_sessions d) = map s_id (roast_sessions db)));
      [| reflexivity].
    intros y d _ Hd. rewrite update_status_ids. exact Hd. }
  apply Forall_bind_journal.
  { unfold write_locked.
    apply (for_each_rows_forward (fun y => s_status y = Status.OPEN)); try assumption.
    - intros y d' Hq Hnd' Hy. apply update_by_id_forward; try assumption.
      rewrite Hq. simpl. lia.
    - intros y d'. apply update_status_ids.
    - intros y z d' Hz Hne. apply update_status_keeps; [exact Hz |].
      apply by_id_false. congruence.
    - apply NoDup_map_filter. exact Hnd.
    - intros y Hy. apply filter_In in Hy. destruct Hy as [Hy Hp]. split; [| exact Hy].
      apply andb_true_iff in Hp. destruct Hp as [Hp _].
      destruct (s_status y); simpl in Hp; congruence. }
  unfold read_locked_due. rewrite get_bind.
  set (db1 := final (write_locked opens db)) in *.
  set (locked := List.filter _ (roast_sessions db1)).
  assert (Hnd1 : List.NoDup (map s_id (roast_sessions db1))) by (rewrite Hids1; exact Hnd).
  assert (Hids2 : map s_id (roast_sessions (final (write_live t gid locked db1)))
                  = map s_id (roast_sessions db1)).
  { unfold write_live.
    apply (for_each_inv (fun d => map s_id (roast_sessions d) = map s_id (roast_sessions db1)));
      [| reflexivity].
    intros y d _ Hd. rewrite go_live_ids. exact Hd. }
  apply Forall_bind_journal.
  { unfold write_live.
    apply (for_each_rows_forward (fun y => s_status y = Status.LOCKED)); try assumption.
    - intros y d' Hq Hnd' Hy. unfold go_live. apply Forall_bind_journal.
      + apply update_by_id_forward; try assumption. rewrite Hq. simpl. lia.
      + eapply Forall_weaken; [| apply updateGlobalRoundState_writes].
        intros [] H; simpl in *; tauto.
    - intros y d'. apply go_live_ids.
    - intros y z d' Hz Hne.
      apply (go_live_kept (map s_id (roast_sessions d')) z t gid y d');
        [congruence | split; [reflexivity | exact Hz]].
    - apply NoDup_map_filter. exact Hnd1.
    - intros y Hy. apply filter_In in Hy. destruct Hy as [Hy Hp]. split; [| exact Hy].
      apply andb_true_iff in Hp. destruct Hp as [Hp _].
      destruct (s_status y); simpl in Hp; congruence. }
  set (db2 := final (write_live t gid locked db1)) in *.
  assert (Hnd2 : List.NoDup (map s_id (roast_sessions db2))) by (rewrite Hids2; exact Hnd1).
  apply Forall_bind_journal.
  { eapply Forall_weaken; [| apply sync_open_writes].
    intros [] H; simpl in *; tauto. }
  apply Forall_bind_journal; [| constructor].
  unfold archive_stale. rewrite get_bind.
  set (db3 := final (sync_open t gid db2)).
  assert (Hs3 : roast_sessions db3 = roast_sessions db2) by apply sync_open_tables.
  apply (for_each_rows_forward (fun y => s_status y = Status.LIVE)).
  - intros y d' Hq Hnd' Hy. unfold archive_if_stale. rewrite get_bind.
    destruct (count_unused (s_id y) d' =? 0); [| constructor].
    rewrite get_bind.
    destruct (find_session (s_id y) d') as [sd|]; [| constructor].
    destruct (s_lock_time sd) as [lockTime|]; [| constructor].
    destruct (5 * 60 * 1000 <? t - lockTime); [| constructor].
    apply Forall_bind_journal.
    + apply update_by_id_forward; try assumption. rewrite Hq. simpl. lia.
    + eapply Forall_weaken; [| apply updateGlobalRoundState_writes].
      intros [] H; simpl in *; tauto.
  - intros y d'. apply archive_if_stale_ids.
  - intros y z d' Hz Hne.
    apply (archive_if_stale_kept (map s_id (roast_sessions d')) z t gid y d');
      [congruence | split; [reflexivity | exact Hz]].
  - rewrite Hs3. exact Hnd2.
  - apply NoDup_map_filter. rewrite Hs3. exact Hnd2.
  - intros y Hy. apply filter_In in Hy. destruct Hy as [Hy Hp]. split; [| exact Hy].
    destruct (s_status y); simpl in Hp; congruence.
Qed.

(** C1.  The controller's status writes are keyed by the session id alone,
    not by the status the session has when the write lands.  Two invocations
    polled at the same moment: A reads the overdue OPEN session, B runs to its
    end and takes the session through LOCKED to LIVE, and A's write of LOCKED
    then lands on the LIVE session, so the status goes from LIVE back to
    LOCKED (and on to LIVE a second time). *)
Theorem C1_stale_controller_write_regresses :
  status_of 1 store_open_overdue = Some Status.OPEN
  /\ map s_id stale_open_sessions = [1%nat]
  /\ status_of 1 store_after_B = Some Status.LIVE
  /\ journal A_resumed
     = [WSessionStatus 1 Status.LIVE Status.LOCKED;
        WSessionStatus 1 Status.LOCKED Status.LIVE;
        WGlobal (mkGlobalRow 7 (Some 1%nat) RoundState.LIVE 0 0 (Some 20000) (Some 1000) 20000)]
  /\ (Status.rank Status.LOCKED < Status.rank Status.LIVE)%nat.
Proof. vm_compute. repeat split; lia. Qed.

(** The same stale write after the round was completed: ARCHIVED is left
    again, and the archived session ends LIVE. *)
Example stale_controller_write_leaves_archived :
  status_of 1 store_after_B_completed = Some Status.ARCHIVED
  /\ hd_error (journal A_resumed_late) = Some (WSessionStatus 1 Status.ARCHIVED Status.LOCKED)
  /\ status_of 1 (final A_resumed_late) = Some Status.LIVE.
Proof. vm_compute. repeat split. Qed.

(** ** The playback scheduler *)

Lemma find_seq_least (P : nat -> bool) (n a i : nat) :
  List.find P (seq a n) = Some i ->
  P i = true /\ (a <= i < a + n)%nat /\ forall j, (a <= j < i)%nat -> P j = false.
Proof.
  revert a. induction n as [|n IH]; intros a; simpl; [discriminate |].
  destruct (P a) eqn:Pa.
  - intros [= <-]. repeat split; try lia. assumption.
  - intros H. destruct (IH _ H) as (Hi & Hr & Hmin).
    repeat split; try lia; try assumption.
    intros j Hj. destruct (Nat.eq_dec j a) as [-> | Hne]; [assumption |].
    apply Hmin. lia.
Qed.

Section SchedulerFacts.
Variable session_id : uuid.
Variable messages : list Message.
Variable T0 : list Exchange.

Abbreviation inv := (sched_inv session_id messages T0).

Lemma saved_rows_S m :
  saved_rows session_id messages (S m)
  = saved_rows session_id messages m ++ [exchange_of session_id messages m].
Proof. unfold saved_rows. rewrite seq_S, map_app. reflexivity. Qed.

Lemma inv_start clock : inv (startTimestampScheduler clock T0).
Proof.
  unfold sched_inv, startTimestampScheduler; simpl.
  repeat split; try (intros; set_solver || lia).
  left. unfold saved_rows. simpl. rewrite app_nil_r. reflexivity.
Qed.

(** A tick hands processRoast the next index in queue order only. *)
Lemma tick_call_next clock s i :
  inv s -> tick_call messages clock s = Some i ->
  i = List.length (started s)
  /\ currentlyProcessingRef s = None
  /\ mountedRef s = true /\ playingRef s = true.
Proof.
  intros (Hst & Hpr & _). unfold tick_call.
  destruct (schedulerInterval s); simpl; [| discriminate].
  destruct (mountedRef s); simpl; [| discriminate].
  destruct (playingRef s); simpl; [| discriminate].
  destruct (pausedRef s); [discriminate |].
  destruct (due_index messages (clock - liveStartTimeRef s) s) as [d|] eqn:Hd;
    [| discriminate].
  destruct (currentlyProcessingRef s); [discriminate |].
  intros [= ->]. repeat split.
  unfold due_index in Hd. apply find_seq_least in Hd.
  destruct Hd as (Hi & Hr & Hmin).
  apply andb_true_iff in Hi. destruct Hi as [Hdue Hnew].
  unfold in_processed in *. rewrite negb_true_iff, bool_decide_eq_false in Hnew.
  assert (Hge : (List.length (started s) <= i)%nat).
  { destruct (le_lt_dec (List.length (started s)) i); [assumption |].
    exfalso. apply Hnew. apply Hpr. assumption. }
  destruct (Nat.eq_dec i (List.length (started s))) as [|Hne]; [assumption |].
  exfalso.
  specialize (Hmin (List.length (started s)) ltac:(lia)).
  apply andb_false_iff in Hmin. destruct Hmin as [Hm | Hm].
  - apply Z.leb_gt in Hm. apply Z.leb_le in Hdue.
    unfold BASE_DELAY_PER_ROAST in *. lia.
  - rewrite negb_false_iff, bool_decide_eq_true in Hm.
    apply Hpr in Hm. lia.
Qed.

Lemma inv_interval s b :
  inv s ->
  inv (mkSched (mountedRef s) (playingRef s) (pausedRef s) b (liveStartTimeRef s)
               (roastProcessedRef s) (currentlyProcessingRef s) (exchanges s)
               (in_flight s) (started s)).
Proof. intros H. exact H. Qed.

Lemma inv_clear_interval s : inv s -> inv (clear_interval_if_done messages s).
Proof.
  intros H. unfold clear_interval_if_done.
  destruct (_ && _); [apply inv_interval |]; assumption.
Qed.

Lemma inv_tick clock s : inv s -> inv (tick messages clock s).
Proof.
  intros H. unfold tick.
  destruct (negb (schedulerInterval s)); [assumption |].
  destruct (negb (mountedRef s) || negb (playingRef s)); [apply inv_interval; assumption |].
  destruct (pausedRef s); [assumption |].
  apply inv_clear_interval.
  destruct (tick_call messages clock s) as [i|] eqn:Hc; [| assumption].
  destruct (tick_call_next _ _ _ H Hc) as (-> & Hcp & Hm & Hp).
  destruct H as (Hst & Hpr & Hfl).
  unfold processRoast. rewrite Hm, Hp, Hcp. simpl.
  rewrite Hcp in Hfl. destruct (in_flight s) eqn:Hin; [| contradiction].
  unfold sched_inv. simpl. rewrite length_app. simpl.
  replace (List.length (started s) + 1)%nat with (S (List.length (started s))) by lia.
  split; [| split].
  - rewrite seq_S. simpl. rewrite <- Hst. reflexivity.
  - intros i. rewrite elem_of_union, elem_of_singleton, Hpr. lia.
  - repeat split.
    destruct Hfl as [He | (m & _ & _ & Hdead)]; [assumption |].
    rewrite Hm, Hp in Hdead. discriminate.
Qed.

(** An activation suspended at [a] is the only one, and the guard names it. *)
Lemma suspended_inv idx a s :
  inv s -> suspended_at idx a s = true ->
  currentlyProcessingRef s = Some idx /\ in_flight s = [(idx, a)].
Proof.
  intros (_ & _ & Hfl) Hs. unfold suspended_at in Hs.
  destruct (currentlyProcessingRef s) as [i|], (in_flight s) as [|[j b] [|? ?]];
    try contradiction; simpl in Hs; try discriminate.
  destruct Hfl as (-> & _ & _).
  rewrite orb_false_r in Hs. apply andb_true_iff in Hs. destruct Hs as [Hj Hab].
  apply Nat.eqb_eq in Hj. subst j.
  destruct a, b; try discriminate; split; reflexivity.
Qed.

Lemma inv_step s ev : inv s -> inv (step session_id messages s ev).
Proof.
  intros H. destruct ev as [clock | idx | idx | idx | b |]; simpl.
  - apply inv_tick. assumption.
  - destruct (suspended_at idx AwaitRoast s) eqn:Hs; [| assumption].
    destruct (suspended_inv _ _ _ H Hs) as [Hcp Hin].
    destruct H as (Hst & Hpr & Hfl). rewrite Hcp, Hin in Hfl.
    destruct Hfl as (_ & Hk & Hex).
    unfold after_roast, sched_inv.
    destruct (negb (mountedRef s) || negb (playingRef s)) eqn:Hdead; simpl;
      rewrite Hin; simpl; rewrite Nat.eqb_refl; simpl.
    + repeat split; try assumption; try apply Hpr.
      right. exists idx. repeat split; try assumption.
      destruct (mountedRef s), (playingRef s); simpl in *; congruence.
    + rewrite Hcp. repeat split; try assumption; apply Hpr.
  - destruct (suspended_at idx AwaitResponse s) eqn:Hs; [| assumption].
    destruct (suspended_inv _ _ _ H Hs) as [Hcp Hin].
    destruct H as (Hst & Hpr & Hfl). rewrite Hcp, Hin in Hfl.
    destruct Hfl as (_ & Hk & Hex).
    unfold after_response, sched_inv. simpl.
    rewrite Hin, Hcp. simpl. rewrite Nat.eqb_refl.
    repeat split; try assumption; try apply Hpr.
    unfold saveExchange. rewrite Hex, <- Hk, saved_rows_S, app_assoc. reflexivity.
  - destruct (suspended_at idx AwaitCleanup s) eqn:Hs; [| assumption].
    destruct (suspended_inv _ _ _ H Hs) as [Hcp Hin].
    destruct H as (Hst & Hpr & Hfl). rewrite Hcp, Hin in Hfl.
    destruct Hfl as (_ & Hk & Hex).
    unfold after_cleanup, finishPlayback, sched_inv.
    destruct (Z.of_nat idx =? _); simpl; rewrite Hin; simpl; rewrite Nat.eqb_refl; simpl;
      (repeat split; try assumption; try apply Hpr; left; assumption).
  - exact H.
  - destruct H as (Hst & Hpr & Hfl). unfold sched_inv. simpl.
    repeat split; try assumption; try apply Hpr.
    destruct (currentlyProcessingRef s), (in_flight s) as [|[j a] [|? ?]];
      try contradiction; try assumption.
    destruct Hfl as [He | (m & Hm & He & _)]; [left; assumption |].
    right. exists m. repeat split; assumption.
Qed.

Lemma inv_run evs s : inv s -> inv (run session_id messages evs s).
Proof.
  revert s. induction evs as [|ev evs IH]; intros s H; simpl; [assumption |].
  apply IH, inv_step, H.
Qed.

Lemma inv_one_in_flight s : inv s -> (List.length (in_flight s) <= 1)%nat.
Proof.
  intros (_ & _ & Hfl).
  destruct (currentlyProcessingRef s), (in_flight s) as [|[j a] [|? ?]];
    try contradiction; simpl; lia.
Qed.

Lemma inv_saved s :
  inv s ->
  exists m, (m <= List.length (started s))%nat
            /\ exchanges s = T0 ++ saved_rows session_id messages m.
Proof.
  intros (_ & _ & Hfl).
  destruct (currentlyProcessingRef s), (in_flight s) as [|[j a] [|? ?]];
    try contradiction.
  - destruct Hfl as (-> & Hk & He). destruct a; eexists; (split; [| exact He]); lia.
  - destruct Hfl as [He | (m & Hm & He & _)]; eexists; (split; [| exact He]); lia.
Qed.
End SchedulerFacts.

(** C7.  In one scheduler run, whatever events arrive and in whatever order:
    at most one call of processRoast is in flight; the indices handed to
    processRoast are 0, 1, 2, ... in queue order, each once; and a tick calls
    processRoast for an index only when currentlyProcessing is null, nothing
    is in flight and the index is not in the processed set. *)
Theorem C7_scheduler_one_in_flight_in_order :
  forall (session_id : uuid) (messages : list Message) (clock0 : Z)
         (T0 : list Exchange) (evs : list Event),
    (List.length
       (in_flight (run session_id messages evs (startTimestampScheduler clock0 T0))) <= 1)%nat
    /\ started (run session_id messages evs (startTimestampScheduler clock0 T0))
       = seq 0 (List.length
                  (started (run session_id messages evs (startTimestampScheduler clock0 T0))))
    /\ List.NoDup (started (run session_id messages evs (startTimestampScheduler clock0 T0)))
    /\ forall clock i,
         tick_call messages clock
                   (run session_id messages evs (startTimestampScheduler clock0 T0)) = Some i ->
         currentlyProcessingRef
           (run session_id messages evs (startTimestampScheduler clock0 T0)) = None
         /\ in_flight (run session_id messages evs (startTimestampScheduler clock0 T0)) = []
         /\ i ∉ roastProcessedRef
                  (run session_id messages evs (startTimestampScheduler clock0 T0)).
Proof.
  intros sid messages clock0 T0 evs.
  pose proof (inv_run sid messages T0 evs _ (inv_start sid messages T0 clock0)) as H.
  set (s := run sid messages evs (startTimestampScheduler clock0 T0)) in *.
  split; [exact (inv_one_in_flight _ _ _ _ H) |].
  pose proof H as (Hst & Hpr & Hfl).
  split; [exact Hst |]. split; [rewrite Hst; apply List.seq_NoDup |].
  intros clock i Hc.
  destruct (tick_call_next _ _ _ _ _ _ H Hc) as (-> & Hcp & _ & _).
  split; [exact Hcp |]. split.
  - rewrite Hcp in Hfl. destruct (in_flight s); [reflexivity | contradiction].
  - rewrite Hpr. lia.
Qed.

(** C9 as stated fails: nothing keeps a second scheduler run on the same
    session from writing the sequence numbers of the first again.  After two
    runs over a one-message queue of session 1 the table holds two exchanges
    of session 1 with sequence number 1. *)
Lemma C9_second_run_repeats_sequence_numbers :
  map (fun e => (e_session_id e, e_sequence_number e)) table_after_second_run
  = [(1%nat, 1); (1%nat, 1)].
Proof. vm_compute. reflexivity. Qed.

(** A two-message queue played to the end: sequence numbers 1 and 2, hosts A
    then B. *)
Example two_roasts_played :
  map (fun e => (e_sequence_number e, e_host_type e))
      (exchanges (run 1 [unused_message 5 1; unused_message 6 1]
                      [Tick 100; Tick 350; RoastPlayed 0; ResponsePlayed 0; CleanupDone 0;
                       Tick 900; Tick 15100; RoastPlayed 1; ResponsePlayed 1; CleanupDone 1]
                      (startTimestampScheduler 100 [])))
  = [(1, HostA); (2, HostB)].
Proof. vm_compute. reflexivity. Qed.

(** ** Rounding to the nearest double *)

Lemma rne_spec (a b : Z) : 0 < b -> - b <= 2 * (rne a b * b - a) <= b.
Proof.
  intros Hb. unfold rne.
  pose proof (Z.div_mod a b ltac:(lia)) as Hdiv.
  pose proof (Z.mod_pos_bound a b Hb) as Hmod.
  destruct (Z.ltb_spec (2 * (a mod b)) b) as [H1|H1]; [nia |].
  destruct (Z.ltb_spec b (2 * (a mod b))) as [H2|H2]; [nia |].
  destruct (Z.even (a / b)); nia.
Qed.

Lemma rne_tie_even (a b : Z) :
  0 < b -> 2 * Z.abs (rne a b * b - a) = b -> Z.even (rne a b) = true.
Proof.
  intros Hb. unfold rne.
  pose proof (Z.div_mod a b ltac:(lia)) as Hdiv.
  pose proof (Z.mod_pos_bound a b Hb) as Hmod.
  destruct (Z.ltb_spec (2 * (a mod b)) b) as [H1|H1]; [intros H; nia |].
  destruct (Z.ltb_spec b (2 * (a mod b))) as [H2|H2]; [intros H; nia |].
  destruct (Z.even (a / b)) eqn:He; intros _; [exact He |].
  rewrite Z.even_add, He. reflexivity.
Qed.

Lemma rne_upper (a b m : Z) : 0 < b -> a <= m * b -> rne a b <= m.
Proof. intros Hb H. pose proof (rne_spec a b Hb). nia. Qed.

Lemma rne_lower (a b m : Z) : 0 < b -> m * b <= a -> m <= rne a b.
Proof. intros Hb H. pose proof (rne_spec a b Hb). nia. Qed.

Lemma rne_nearest (a b m : Z) :
  0 < b -> Z.abs (rne a b * b - a) <= Z.abs (m * b - a).
Proof.
  intros Hb. pose proof (rne_spec a b Hb).
  destruct (Z.lt_trichotomy m (rne a b)) as [Hlt | [-> | Hgt]]; [| lia |].
  - assert (m * b <= (rne a b - 1) * b) by (apply Z.mul_le_mono_nonneg_r; lia). lia.
  - assert ((rne a b + 1) * b <= m * b) by (apply Z.mul_le_mono_nonneg_r; lia). lia.
Qed.

Lemma rne_exact (n b : Z) : 0 < b -> rne (n * b) b = n.
Proof.
  intros Hb. apply Z.le_antisymm; [apply rne_upper | apply rne_lower]; lia.
Qed.

(** The two powers of two that carry a scale [s], whatever its sign. *)
Lemma pow_ratio (x y s : Z) :
  0 <= x -> 0 <= y -> x = y + s ->
  2 ^ x * 2 ^ Z.max (- s) 0 = 2 ^ y * 2 ^ Z.max s 0.
Proof.
  intros Hx Hy ->. destruct (Z.le_gt_cases 0 s) as [Hs|Hs].
  - rewrite (Z.max_r (- s) 0), (Z.max_l s 0) by lia.
    rewrite Z.pow_add_r, Z.pow_0_r by lia. ring.
  - rewrite (Z.max_l (- s) 0), (Z.max_r s 0) by lia.
    rewrite <- Z.pow_add_r, Z.pow_0_r, Z.mul_1_r by lia. f_equal. lia.
Qed.

Lemma pow_max_pos (s : Z) : 0 < 2 ^ Z.max s 0.
Proof. apply Z.pow_pos_nonneg; lia. Qed.

Lemma pow_scale_next (s : Z) :
  2 ^ Z.max (s + 1) 0 * 2 ^ Z.max (- s) 0
  = 2 * (2 ^ Z.max s 0 * 2 ^ Z.max (- (s + 1)) 0).
Proof.
  destruct (Z.le_gt_cases 0 s) as [Hs|Hs].
  - rewrite (Z.max_l (s + 1) 0), (Z.max_r (- s) 0), (Z.max_l s 0),
      (Z.max_r (- (s + 1)) 0) by lia.
    rewrite Z.pow_add_r, Z.pow_0_r, Z.pow_1_r by lia. ring.
  - rewrite (Z.max_r (s + 1) 0), (Z.max_l (- s) 0), (Z.max_r s 0),
      (Z.max_l (- (s + 1)) 0) by lia.
    replace (- s) with (- (s + 1) + 1) by lia.
    rewrite Z.pow_add_r, Z.pow_0_r, Z.pow_1_r by lia. ring.
Qed.

(** The scale puts the quotient in [2^52, 2^53). *)
Lemma div_scale_bounds (a b : Z) :
  0 < a -> 0 < b ->
  2 ^ 52 * (b * 2 ^ Z.max (- div_scale a b) 0) <= a * 2 ^ Z.max (div_scale a b) 0
  /\ a * 2 ^ Z.max (div_scale a b) 0 < 2 ^ 53 * (b * 2 ^ Z.max (- div_scale a b) 0).
Proof.
  intros Ha Hb. unfold div_scale.
  set (s0 := 52 + Z.log2 b - Z.log2 a).
  destruct (Z.log2_spec a Ha) as [Ha1 Ha2].
  destruct (Z.log2_spec b Hb) as [Hb1 Hb2].
  pose proof (Z.log2_nonneg a) as Hla. pose proof (Z.log2_nonneg b) as Hlb.
  rewrite Z.pow_succ_r in Ha2, Hb2 by assumption.
  pose proof (pow_ratio (52 + Z.log2 b) (Z.log2 a) s0 ltac:(lia) Hla ltac:(unfold s0; lia))
    as Hr.
  rewrite Z.pow_add_r in Hr by lia.
  pose proof (pow_max_pos s0) as Hu0. pose proof (pow_max_pos (- s0)) as Hd0.
  pose proof (pow_max_pos (s0 + 1)) as Hu1. pose proof (pow_max_pos (- (s0 + 1))) as Hd1.
  pose proof (pow_scale_next s0) as Hn.
  set (u0 := 2 ^ Z.max s0 0) in *. set (d0 := 2 ^ Z.max (- s0) 0) in *.
  set (u1 := 2 ^ Z.max (s0 + 1) 0) in *. set (d1 := 2 ^ Z.max (- (s0 + 1)) 0) in *.
  set (A := 2 ^ Z.log2 a) in *. set (B := 2 ^ Z.log2 b) in *.
  assert (HA : 0 < A) by (apply Z.pow_pos_nonneg; lia).
  assert (HB : 0 < B) by (apply Z.pow_pos_nonneg; lia).
  assert (Hup : a * u0 < 2 ^ 53 * (b * d0)).
  { assert (a * u0 < 2 * A * u0) by nia.
    assert (2 * A * u0 = 2 ^ 53 * (B * d0)) by (change (2 ^ 53) with (2 * 2 ^ 52); nia).
    assert (B * d0 <= b * d0) by nia. nia. }
  assert (Hlo : 2 ^ 52 * (b * d0) < 2 * (a * u0)).
  { assert (A * u0 <= a * u0) by nia.
    assert (b * d0 < 2 * B * d0) by nia. nia. }
  destruct (Z.leb_spec (2 ^ 52 * (b * d0)) (a * u0)) as [Hge|Hlt].
  - fold u0 d0. split; assumption.
  - fold u1 d1.
    assert (H1 : (a * u1) * d0 = 2 * (a * u0) * d1) by nia.
    assert (H2 : (b * d1) * d0 = (b * d0) * d1) by nia.
    split.
    + apply (Z.mul_le_mono_pos_r _ _ d0 Hd0). nia.
    + apply (Z.mul_lt_mono_pos_r d0 _ _ Hd0). change (2 ^ 53) with (2 * 2 ^ 52). nia.
Qed.

(** The mantissa is within half a unit of the scaled quotient, and it is
    even when the quotient lies half way between two integers. *)
Lemma div_mantissa_spec (a b : Z) :
  0 < a -> 0 < b ->
  2 * Z.abs (div_mantissa a b * (b * 2 ^ Z.max (- div_scale a b) 0)
             - a * 2 ^ Z.max (div_scale a b) 0)
  <= b * 2 ^ Z.max (- div_scale a b) 0
  /\ (2 * Z.abs (div_mantissa a b * (b * 2 ^ Z.max (- div_scale a b) 0)
                 - a * 2 ^ Z.max (div_scale a b) 0)
      = b * 2 ^ Z.max (- div_scale a b) 0 ->
      Z.even (div_mantissa a b) = true).
Proof.
  intros Ha Hb. pose proof (pow_max_pos (- div_scale a b)) as Hd.
  assert (HD : 0 < b * 2 ^ Z.max (- div_scale a b) 0) by nia.
  unfold div_mantissa. split.
  - pose proof (rne_spec (a * 2 ^ Z.max (div_scale a b) 0) _ HD). lia.
  - apply rne_tie_even. exact HD.
Qed.

Lemma div_mantissa_bounds (a b : Z) :
  0 < a -> 0 < b -> 2 ^ 52 <= div_mantissa a b <= 2 ^ 53.
Proof.
  intros Ha Hb. destruct (div_scale_bounds a b Ha Hb) as [Hlo Hhi].
  unfold div_mantissa. pose proof (pow_max_pos (- div_scale a b)).
  split; [apply rne_lower | apply rne_upper]; nia.
Qed.

Lemma pos_pow2 (x : Z) : 0 <= x -> Z.pos (Z.to_pos (2 ^ x)) = 2 ^ x.
Proof. intros Hx. apply Z2Pos.id, Z.pow_pos_nonneg; lia. Qed.

(** A dyadic number over any power of two that is large enough. *)
Lemma dyadic_canon (m e c : Z) :
  0 <= c -> 0 <= e + c -> (dyadic m e == (m * 2 ^ (e + c)) # Z.to_pos (2 ^ c))%Q.
Proof.
  intros Hc Hec. unfold dyadic, Qeq.
  destruct (Z.leb_spec 0 e) as [He|He].
  - cbn [Qnum Qden inject_Z]. rewrite pos_pow2, Z.pow_add_r by lia. ring.
  - cbn [Qnum Qden]. rewrite !pos_pow2 by lia.
    replace (2 ^ c) with (2 ^ (e + c) * 2 ^ (- e)).
    + ring.
    + rewrite <- Z.pow_add_r by lia. f_equal. lia.
Qed.

Lemma ratio_canon (a b : Z) :
  0 < b -> (inject_Z a / inject_Z b == a # Z.to_pos b)%Q.
Proof.
  intros Hb. destruct b as [|p|p]; try lia.
  unfold Qeq, Qdiv, Qmult, Qinv, inject_Z. simpl. lia.
Qed.

Lemma double_mantissa (dd : double) : - 2 ^ 53 < mantissa dd < 2 ^ 53.
Proof.
  pose proof (mantissa_fits dd) as H. apply Z.ltb_lt in H. lia.
Qed.

(** The rounded quotient against a double, over a common power of two:
    rounding does not step over a double, and no double is nearer. *)
Lemma div_pos_against (a b c : Z) (dd : double) :
  0 < a -> 0 < b -> 0 <= c -> div_scale a b <= c -> - exponent dd <= c ->
  (a * 2 ^ c <= mantissa dd * 2 ^ (exponent dd + c) * b ->
   div_mantissa a b * 2 ^ (- div_scale a b + c)
   <= mantissa dd * 2 ^ (exponent dd + c))
  /\ (mantissa dd * 2 ^ (exponent dd + c) * b <= a * 2 ^ c ->
      mantissa dd * 2 ^ (exponent dd + c)
      <= div_mantissa a b * 2 ^ (- div_scale a b + c))
  /\ Z.abs (div_mantissa a b * 2 ^ (- div_scale a b + c) * b - a * 2 ^ c)
     <= Z.abs (mantissa dd * 2 ^ (exponent dd + c) * b - a * 2 ^ c).
Proof.
  intros Ha Hb Hc Hsc Hec.
  destruct (div_scale_bounds a b Ha Hb) as [Hlo Hhi].
  pose proof (div_mantissa_bounds a b Ha Hb) as Hn.
  pose proof (double_mantissa dd) as Hm.
  unfold div_mantissa in *.
  set (s := div_scale a b) in *. set (m := mantissa dd) in *. set (e := exponent dd) in *.
  pose proof (pow_max_pos s) as Hu. pose proof (pow_max_pos (- s)) as Hd.
  pose proof (pow_ratio c (- s + c) s Hc ltac:(lia) ltac:(lia)) as Hr.
  set (u := 2 ^ Z.max s 0) in *. set (d := 2 ^ Z.max (- s) 0) in *.
  assert (HD : 0 < b * d) by nia.
  pose proof (rne_spec (a * u) (b * d) HD) as Hspec.
  pose proof (fun M => rne_upper (a * u) (b * d) M HD) as Hupper.
  pose proof (fun M => rne_lower (a * u) (b * d) M HD) as Hlower.
  pose proof (fun M => rne_nearest (a * u) (b * d) M HD) as Hnear.
  set (n := rne (a * u) (b * d)) in *.
  assert (HC : 0 < 2 ^ c) by (apply Z.pow_pos_nonneg; lia).
  assert (HG : 0 < 2 ^ (- s + c)) by (apply Z.pow_pos_nonneg; lia).
  assert (HH : 0 < 2 ^ (e + c)) by (apply Z.pow_pos_nonneg; lia).
  set (C := 2 ^ c) in *. set (G := 2 ^ (- s + c)) in *. set (H := 2 ^ (e + c)) in *.
  assert (HaC : a * C * d = G * (a * u)) by nia.
  destruct (Z.le_gt_cases 0 (e + s)) as [Hes|Hes].
  - (* the double is a multiple of the unit of the rounded quotient *)
    assert (HHG : H = G * 2 ^ (e + s)).
    { unfold H, G. rewrite <- Z.pow_add_r by lia. f_equal. lia. }
    set (M := m * 2 ^ (e + s)).
    assert (HM : m * H = M * G) by (unfold M; rewrite HHG; ring).
    split; [| split].
    + intros Hle. rewrite HM.
      apply Z.mul_le_mono_nonneg_r; [lia |]. apply Hupper.
      apply (Z.mul_le_mono_pos_l _ _ G HG).
      replace (G * (M * (b * d))) with (m * H * b * d) by (rewrite HM; ring).
      rewrite <- HaC. apply Z.mul_le_mono_nonneg_r; [lia | exact Hle].
    + intros Hle. rewrite HM.
      apply Z.mul_le_mono_nonneg_r; [lia |]. apply Hlower.
      apply (Z.mul_le_mono_pos_l _ _ G HG).
      replace (G * (M * (b * d))) with (m * H * b * d) by (rewrite HM; ring).
      rewrite <- HaC. apply Z.mul_le_mono_nonneg_r; [lia | exact Hle].
    + apply (Z.mul_le_mono_pos_r _ _ d Hd).
      rewrite <- (Z.abs_eq d) at 1 2 by lia. rewrite <- !Z.abs_mul.
      replace ((n * G * b - a * C) * d) with (G * (n * (b * d) - a * u)).
      2:{ replace ((n * G * b - a * C) * d) with (n * G * b * d - a * C * d) by ring.
          rewrite HaC. ring. }
      replace ((m * H * b - a * C) * d) with (G * (M * (b * d) - a * u)).
      2:{ replace ((m * H * b - a * C) * d) with (m * H * b * d - a * C * d) by ring.
          rewrite HaC, HM. ring. }
      rewrite !(Z.abs_mul G). apply Z.mul_le_mono_nonneg_l; [lia | apply Hnear].
  - (* the double has bits below that unit: it is smaller than 2^52 units *)
    assert (HGH : G = H * 2 ^ (- (e + s))).
    { unfold H, G. rewrite <- Z.pow_add_r by lia. f_equal. lia. }
    assert (HT : 2 <= 2 ^ (- (e + s))).
    { change 2 with (2 ^ 1) at 1. apply Z.pow_le_mono_r; lia. }
    set (T := 2 ^ (- (e + s))) in *.
    split; [| split].
    + intros Hle. exfalso.
      assert (H1 : a * C * d <= m * H * b * d)
        by (apply Z.mul_le_mono_nonneg_r; [lia | exact Hle]).
      rewrite HaC, HGH in H1.
      assert (H2 : 2 ^ 53 * (H * (b * d)) <= H * T * (a * u)).
      { change (2 ^ 53) with (2 * 2 ^ 52).
        assert (2 * (H * (2 ^ 52 * (b * d))) <= T * (H * (a * u))); [| lia].
        apply Z.mul_le_mono_nonneg; try lia. nia. }
      assert (H3 : m * (H * (b * d)) < 2 ^ 53 * (H * (b * d))).
      { apply Z.mul_lt_mono_pos_r; [nia | lia]. }
      lia.
    + intros _. rewrite HGH.
      assert (m * H <= 2 ^ 53 * H) by (apply Z.mul_le_mono_nonneg_r; lia).
      assert (2 ^ 53 * H <= n * (H * T)); [| lia].
      change (2 ^ 53) with (2 ^ 52 * 2).
      replace (2 ^ 52 * 2 * H) with (2 ^ 52 * (H * 2)) by ring.
      apply Z.mul_le_mono_nonneg; try lia. nia.
    + apply (Z.mul_le_mono_pos_r _ _ d Hd).
      rewrite <- (Z.abs_eq d) at 1 2 by lia. rewrite <- !Z.abs_mul.
      replace ((n * G * b - a * C) * d) with (H * (T * (n * (b * d) - a * u))).
      2:{ replace ((n * G * b - a * C) * d) with (n * G * b * d - a * C * d) by ring.
          rewrite HaC, HGH. ring. }
      replace ((m * H * b - a * C) * d) with (H * (m * (b * d) - T * (a * u))).
      2:{ replace ((m * H * b - a * C) * d) with (m * H * b * d - a * C * d) by ring.
          rewrite HaC, HGH. ring. }
      rewrite !(Z.abs_mul H). apply Z.mul_le_mono_nonneg_l; [lia |].
      rewrite Z.abs_mul, (Z.abs_eq T) by lia.
      assert (Hx : 2 * (T * Z.abs (n * (b * d) - a * u)) <= T * (b * d)).
      { replace (2 * (T * Z.abs (n * (b * d) - a * u)))
          with (T * (2 * Z.abs (n * (b * d) - a * u))) by ring.
        apply Z.mul_le_mono_nonneg_l; lia. }
      assert (Hy : T * (2 ^ 52 * (b * d)) <= T * (a * u))
        by (apply Z.mul_le_mono_nonneg_l; lia).
      assert (Hz : m * (b * d) <= (2 ^ 53 - 1) * (b * d))
        by (apply Z.mul_le_mono_nonneg_r; lia).
      assert (Hw : 2 * (b * d) <= T * (b * d))
        by (apply Z.mul_le_mono_nonneg_r; lia).
      change (2 ^ 53) with (2 * 2 ^ 52) in Hz. nia.
Qed.

Lemma Qlt_bool_iff (a b : Q) : Qlt_bool a b = true <-> (a < b)%Q.
Proof.
  unfold Qlt_bool. rewrite negb_true_iff. split.
  - intros H. apply Qnot_le_lt. intros Hle.
    apply Qle_bool_iff in Hle. congruence.
  - intros H. destruct (Qle_bool b a) eqn:E; [| reflexivity].
    apply Qle_bool_iff in E. exfalso. exact (Qlt_not_le _ _ H E).
Qed.

Lemma Qlt_bool_false_iff (a b : Q) : Qlt_bool a b = false <-> (b <= a)%Q.
Proof.
  unfold Qlt_bool. rewrite negb_false_iff. apply Qle_bool_iff.
Qed.

Section AgainstDouble.
Variables (a b : Z) (dd : double).
Hypotheses (Ha : 0 < a) (Hb : 0 < b).

Let c : Z := Z.max 0 (Z.max (div_scale a b) (- exponent dd)).

Lemma against_scale :
  0 <= c /\ div_scale a b <= c /\ - exponent dd <= c.
Proof. unfold c. lia. Qed.

Lemma div_pos_canon :
  (div_pos a b == (div_mantissa a b * 2 ^ (- div_scale a b + c)) # Z.to_pos (2 ^ c))%Q.
Proof. destruct against_scale as (H0 & H1 & H2). apply dyadic_canon; lia. Qed.

Lemma value_canon :
  (value dd == (mantissa dd * 2 ^ (exponent dd + c)) # Z.to_pos (2 ^ c))%Q.
Proof. destruct against_scale as (H0 & H1 & H2). apply dyadic_canon; lia. Qed.

(** Rounding does not step over a double. *)
Lemma div_pos_le_double :
  (inject_Z a / inject_Z b <= value dd)%Q -> (div_pos a b <= value dd)%Q.
Proof.
  destruct against_scale as (H0 & H1 & H2).
  destruct (div_pos_against a b c dd Ha Hb H0 H1 H2) as (Hup & _ & _).
  rewrite div_pos_canon, value_canon, (ratio_canon a b Hb).
  unfold Qle. cbn [Qnum Qden]. rewrite pos_pow2, Z2Pos.id by lia.
  intros H. apply Z.mul_le_mono_nonneg_r; [apply Z.pow_nonneg; lia |]. apply Hup. lia.
Qed.

Lemma div_pos_ge_double :
  (value dd <= inject_Z a / inject_Z b)%Q -> (value dd <= div_pos a b)%Q.
Proof.
  destruct against_scale as (H0 & H1 & H2).
  destruct (div_pos_against a b c dd Ha Hb H0 H1 H2) as (_ & Hdown & _).
  rewrite div_pos_canon, value_canon, (ratio_canon a b Hb).
  unfold Qle. cbn [Qnum Qden]. rewrite pos_pow2, Z2Pos.id by lia.
  intros H. apply Z.mul_le_mono_nonneg_r; [apply Z.pow_nonneg; lia |]. apply Hdown. lia.
Qed.

(** No double is nearer the exact quotient than the rounded one. *)
Lemma div_pos_nearest :
  (Qabs (div_pos a b - inject_Z a / inject_Z b)
   <= Qabs (value dd - inject_Z a / inject_Z b))%Q.
Proof.
  destruct against_scale as (H0 & H1 & H2).
  destruct (div_pos_against a b c dd Ha Hb H0 H1 H2) as (_ & _ & Hnear).
  rewrite div_pos_canon, value_canon, (ratio_canon a b Hb).
  unfold Qle, Qabs, Qminus, Qplus, Qopp. cbn [Qnum Qden].
  rewrite Pos2Z.inj_mul, pos_pow2, Z2Pos.id by lia.
  apply Z.mul_le_mono_nonneg_r; [apply Z.mul_nonneg_nonneg; [apply Z.pow_nonneg |]; lia |].
  match goal with
  | |- Z.abs ?x <= Z.abs ?y =>
      replace x with (div_mantissa a b * 2 ^ (- div_scale a b + c) * b - a * 2 ^ c) by ring;
      replace y with (mantissa dd * 2 ^ (exponent dd + c) * b - a * 2 ^ c) by ring
  end.
  exact Hnear.
Qed.

End AgainstDouble.

Lemma dyadic_pos (m e : Z) : 0 < m -> (0 < dyadic m e)%Q.
Proof.
  intros Hm. unfold dyadic. destruct (Z.leb_spec 0 e) as [He|He].
  - unfold Qlt, inject_Z. cbn [Qnum Qden].
    assert (0 < 2 ^ e) by (apply Z.pow_pos_nonneg; lia). nia.
  - unfold Qlt. cbn [Qnum Qden]. lia.
Qed.

Lemma div_pos_positive (a b : Z) : 0 < a -> 0 < b -> (0 < div_pos a b)%Q.
Proof.
  intros Ha Hb. apply dyadic_pos. pose proof (div_mantissa_bounds a b Ha Hb). lia.
Qed.

(** ** The elapsed time of the follower, in doubles *)

Lemma round_int_small (z : Z) : Z.abs z < 2 ^ 53 -> round_int z = z.
Proof.
  intros H. unfold round_int. destruct (Z.ltb_spec (Z.abs z) (2 ^ 53)); [reflexivity | lia].
Qed.

(** Above 2^53 the integer is rounded to a multiple of the power of two that
    leaves 53 bits, at most half of that power away, and keeps its sign. *)
Lemma round_int_large (z : Z) :
  2 ^ 53 <= Z.abs z ->
  exists n j,
    round_int z = Z.sgn z * (n * 2 ^ j) /\ 1 <= j /\ 2 ^ 52 <= n <= 2 ^ 53
    /\ 2 * Z.abs (n * 2 ^ j - Z.abs z) <= 2 ^ j.
Proof.
  intros H. unfold round_int. destruct (Z.ltb_spec (Z.abs z) (2 ^ 53)) as [Hlt|_]; [lia |].
  set (x := Z.abs z) in *. set (j := Z.log2 x - 52).
  assert (Hx : 0 < x) by lia.
  destruct (Z.log2_spec x Hx) as [Hlo Hhi].
  assert (Hj : 1 <= j).
  { unfold j. assert (53 <= Z.log2 x); [| lia]. apply Z.log2_le_pow2; lia. }
  assert (Hp : 0 < 2 ^ j) by (apply Z.pow_pos_nonneg; lia).
  replace (Z.log2 x) with (52 + j) in Hlo by (unfold j; lia).
  replace (Z.succ (Z.log2 x)) with (53 + j) in Hhi by (unfold j; lia).
  rewrite Z.pow_add_r in Hlo, Hhi by lia.
  exists (rne x (2 ^ j)), j. split; [reflexivity |]. split; [exact Hj |].
  pose proof (rne_spec x (2 ^ j) Hp). split; [| lia].
  split; [apply rne_lower | apply rne_upper]; lia.
Qed.

Lemma round_int_sign (z : Z) :
  (z <= 0 -> round_int z <= 0)
  /\ (0 < z -> Z.min z (2 ^ 53) <= round_int z).
Proof.
  destruct (Z.lt_ge_cases (Z.abs z) (2 ^ 53)) as [Hs|Hl].
  - rewrite (round_int_small z Hs). lia.
  - destruct (round_int_large z Hl) as (n & j & -> & Hj & Hn & _).
    assert (Hp : 2 <= 2 ^ j) by (change 2 with (2 ^ 1) at 1; apply Z.pow_le_mono_r; lia).
    assert (2 ^ 53 <= n * 2 ^ j) by (change (2 ^ 53) with (2 ^ 52 * 2); nia).
    split; intros Hz.
    + rewrite (Z.sgn_neg z) by lia. lia.
    + rewrite (Z.sgn_pos z) by lia. lia.
Qed.

Lemma div_double_pos (a b : Z) : 0 < a -> div_double a b = div_pos a b.
Proof. intros Ha. destruct a; try lia. reflexivity. Qed.

Lemma elapsed_nonpos (k : Z) :
  k <= 0 -> (div_double (round_int k) 1000 <= inject_Z 0)%Q.
Proof.
  intros Hk. destruct (round_int_sign k) as [Hneg _]. specialize (Hneg Hk).
  destruct (round_int k) as [|p|p] eqn:Hr; try lia.
  - apply Qle_refl.
  - unfold div_double.
    pose proof (div_pos_positive (- Z.neg p) 1000 ltac:(lia) ltac:(lia)) as Hpos.
    apply Qlt_le_weak. apply (Qopp_lt_compat 0 (div_pos (- Z.neg p) 1000)) in Hpos.
    exact Hpos.
Qed.

Lemma elapsed_small (k : Z) :
  0 < k <= 30000 ->
  round_int k = k
  /\ (inject_Z 0 < div_double k 1000)%Q /\ (div_double k 1000 <= inject_Z 30)%Q.
Proof.
  intros [Hpos Hle].
  split; [apply round_int_small; change (2 ^ 53) with 9007199254740992; lia |].
  rewrite (div_double_pos k 1000 Hpos).
  split; [apply div_pos_positive; lia |].
  change (inject_Z 30) with (value thirty).
  apply div_pos_le_double; [lia | lia |].
  rewrite (ratio_canon k 1000) by lia. unfold Qle. simpl. lia.
Qed.

Lemma elapsed_large (k : Z) :
  30000 < k -> (inject_Z 30 < div_double (round_int k) 1000)%Q.
Proof.
  intros Hk. destruct (round_int_sign k) as [_ Hbig]. specialize (Hbig ltac:(lia)).
  assert (Ha : 30001 <= round_int k) by (change (2 ^ 53) with 9007199254740992 in Hbig; lia).
  rewrite div_double_pos by lia.
  apply (Qlt_le_trans _ (value just_over_thirty)); [reflexivity |].
  apply div_pos_ge_double; [lia | lia |].
  rewrite (ratio_canon (round_int k) 1000) by lia. unfold Qle. simpl. lia.
Qed.

(** The model's quotient by 1000 is the one the machine computes: for every
    delay of the first 300 ms, a delay in each following tenth of a second
    up to 30 s, and a few delays beyond. *)
Example div_double_agrees_with_machine :
  forallb (fun k => same_float (machine_quotient k 1000) (model_quotient k 1000))
          (map Z.of_nat (seq 1 300)
           ++ map (fun i => 97 * Z.of_nat i) (seq 4 306)
           ++ [29999; 30000; 30001; 86400000; 2 ^ 40 + 1; 2 ^ 53 - 1; 2 ^ 53; 2 ^ 53 + 2;
               2 ^ 60; 2 ^ 62 + 2 ^ 10])
  = true.
Proof. vm_compute. reflexivity. Qed.

Example round_int_agrees_with_machine :
  map round_int [1; 30000; 2 ^ 53 - 1; 2 ^ 53; 2 ^ 53 + 1; 2 ^ 53 + 3; 2 ^ 54 + 2;
                 2 ^ 54 + 6; 2 ^ 60 + 129; 2 ^ 62 + 2 ^ 9; 2 ^ 62 + 2 ^ 9 + 1]
  = map machine_integer
        [1; 30000; 2 ^ 53 - 1; 2 ^ 53; 2 ^ 53 + 1; 2 ^ 53 + 3; 2 ^ 54 + 2;
         2 ^ 54 + 6; 2 ^ 60 + 129; 2 ^ 62 + 2 ^ 9; 2 ^ 62 + 2 ^ 9 + 1].
Proof. vm_compute. reflexivity. Qed.

(** ** The follower's offset seek *)

Lemma follower_skips (mounted : bool) (T k : Z) (duration : Duration) :
  30000 < k -> playFollowerAudio mounted T (T + k) duration = NoPlayback.
Proof.
  intros Hk. unfold playFollowerAudio. replace (T + k - T) with k by lia.
  destruct mounted; [| reflexivity]. cbn [negb].
  pose proof (elapsed_large k Hk) as H. apply Qlt_bool_iff in H. rewrite H. reflexivity.
Qed.

Lemma follower_plays (T k : Z) (duration : Duration) :
  0 < k <= 30000 ->
  playFollowerAudio true T (T + k) duration
  = if before_end (div_double k 1000) duration
    then PlayFrom (div_double k 1000) else PlayFrom (inject_Z 0).
Proof.
  intros Hk. unfold playFollowerAudio. replace (T + k - T) with k by lia. cbn [negb].
  destruct (elapsed_small k Hk) as (-> & Hpos & Hle).
  apply Qlt_bool_false_iff in Hle. apply Qlt_bool_iff in Hpos.
  rewrite Hle, Hpos. reflexivity.
Qed.

Lemma follower_restarts (T k : Z) (duration : Duration) :
  k <= 0 -> playFollowerAudio true T (T + k) duration = PlayFrom (inject_Z 0).
Proof.
  intros Hk. unfold playFollowerAudio. replace (T + k - T) with k by lia. cbn [negb].
  pose proof (elapsed_nonpos k Hk) as H0.
  assert (H30 : Qlt_bool (inject_Z 30) (div_double (round_int k) 1000) = false).
  { apply Qlt_bool_false_iff. apply (Qle_trans _ (inject_Z 0)); [exact H0 | discriminate]. }
  apply Qlt_bool_false_iff in H0. rewrite H30, H0. reflexivity.
Qed.




(** A clip of 5 seconds seen 2.5 seconds late is played from 2.5 seconds; seen
    32 seconds late it is skipped; a stream without a known end seen 7.3
    seconds late is played from the double nearest 7.3. *)
Example follower_late_join :
  playFollowerAudio true 1000 3500 (Seconds five_seconds)
  = PlayFrom (5629499534213120 # 2251799813685248)
  /\ playFollowerAudio true 1000 33000 (Seconds five_seconds) = NoPlayback
  /\ playFollowerAudio true 1000 8300 Unbounded
     = PlayFrom (8219069319951155 # 1125899906842624).
Proof. repeat split. Qed.

(** * Further properties *)

Ltac nodup_ids :=
  repeat (apply List.NoDup_cons; [simpl; intuition discriminate |]); apply List.NoDup_nil.

(** ** The controller as a map over the session table *)

Lemma update_status_sessions p st d :
  roast_sessions (final (update_status p st d))
  = map (fun s => if p s then with_status st s else s) (roast_sessions d).
Proof. reflexivity. Qed.

(** A loop whose body sets the status of the rows with the id of its
    argument sets the status of the rows whose id occurs in the list. *)
Lemma loop_by_id_sessions (st : Status.t) (body : Session -> M unit) :
  (forall y d, roast_sessions (final (body y d))
               = map (fun r => if by_id (s_id y) r then with_status st r else r)
                     (roast_sessions d)) ->
  forall l d,
    roast_sessions (final (for_each l body d))
    = map (fun r => if id_in l r then with_status st r else r) (roast_sessions d).
Proof.
  intros Hbody l. induction l as [|x l IH]; intros d.
  - simpl. rewrite ret_final. symmetry. apply map_id.
  - simpl for_each. rewrite bind_final, IH, Hbody, map_map.
    apply map_ext. intros r. unfold id_in, by_id. simpl existsb.
    rewrite (Nat.eqb_sym (s_id x) (s_id r)).
    destruct (Nat.eqb (s_id r) (s_id x)); simpl.
    + destruct (existsb _ l); reflexivity.
    + reflexivity.
Qed.

(** With unique ids, an id occurs among the selected rows exactly for the
    rows the selection holds of. *)
Lemma id_in_filter (p : Session -> bool) (l : list Session) (r : Session) :
  List.NoDup (map s_id l) -> In r l -> id_in (List.filter p l) r = p r.
Proof.
  intros Hnd Hr. unfold id_in. destruct (p r) eqn:Hp.
  - apply existsb_exists. exists r. split; [| apply Nat.eqb_refl].
    apply filter_In. split; assumption.
  - destruct (existsb _ _) eqn:He; [| reflexivity].
    apply existsb_exists in He. destruct He as (y & Hy & Hid).
    apply filter_In in Hy. destruct Hy as [Hy Hpy]. apply Nat.eqb_eq in Hid.
    assert (y = r) by (apply (NoDup_map_eq s_id l); assumption).
    subst y. congruence.
Qed.

Lemma loop_over_selected (st : Status.t) (body : Session -> M unit) (p : Session -> bool) d :
  (forall y d', roast_sessions (final (body y d'))
                = map (fun r => if by_id (s_id y) r then with_status st r else r)
                      (roast_sessions d')) ->
  List.NoDup (map s_id (roast_sessions d)) ->
  roast_sessions (final (for_each (List.filter p (roast_sessions d)) body d))
  = map (fun r => if p r then with_status st r else r) (roast_sessions d).
Proof.
  intros Hbody Hnd. rewrite (loop_by_id_sessions st body Hbody).
  apply map_ext_in. intros r Hr. rewrite id_in_filter by assumption. reflexivity.
Qed.

Lemma go_live_sessions t gid y d :
  roast_sessions (final (go_live t gid y d))
  = map (fun r => if by_id (s_id y) r then with_status Status.LIVE r else r)
        (roast_sessions d).
Proof.
  unfold go_live. rewrite bind_final.
  match goal with |- context [updateGlobalRoundState ?a ?b ?c ?e ?f ?g ?h] =>
    destruct (updateGlobalRoundState_tables a b c e f g h) as (-> & _) end.
  reflexivity.
Qed.

Lemma go_live_messages t gid y d :
  roast_messages (final (go_live t gid y d)) = roast_messages d.
Proof.
  unfold go_live. rewrite bind_final.
  match goal with |- context [updateGlobalRoundState ?a ?b ?c ?e ?f ?g ?h] =>
    destruct (updateGlobalRoundState_tables a b c e f g h) as (_ & -> & _) end.
  reflexivity.
Qed.

Lemma sync_open_messages t gid d :
  roast_messages (final (sync_open t gid d)) = roast_messages d.
Proof.
  unfold sync_open. rewrite get_bind.
  destruct (latest_by _ _) as [session|]; [| reflexivity].
  rewrite get_bind.
  match goal with |- context [if ?b then _ else _] => destruct b end; [| reflexivity].
  apply updateGlobalRoundState_tables.
Qed.

Lemma count_unused_messages id d d' :
  roast_messages d = roast_messages d' -> count_unused id d = count_unused id d'.
Proof. intros H. unfold count_unused. rewrite H. reflexivity. Qed.

Lemma find_map_same_id (f : Session -> Session) (x : uuid) (l : list Session) :
  (forall r, s_id (f r) = s_id r) ->
  List.find (fun s => Nat.eqb (s_id s) x) (map f l)
  = option_map f (List.find (fun s => Nat.eqb (s_id s) x) l).
Proof.
  intros Hid. induction l as [|a l IH]; [reflexivity |].
  simpl. rewrite Hid. destruct (Nat.eqb (s_id a) x); [reflexivity | exact IH].
Qed.

Lemma find_session_unique d y :
  List.NoDup (map s_id (roast_sessions d)) -> In y (roast_sessions d) ->
  find_session (s_id y) d = Some y.
Proof.
  intros Hnd Hy. unfold find_session.
  destruct (List.find _ (roast_sessions d)) as [y'|] eqn:Hf.
  - apply find_some in Hf. destruct Hf as [Hy' Hid]. apply Nat.eqb_eq in Hid.
    f_equal. apply (NoDup_map_eq s_id (roast_sessions d)); assumption.
  - exfalso. apply (find_none _ _ Hf) in Hy. rewrite Nat.eqb_refl in Hy. discriminate.
Qed.

Lemma map_unless (f : Session -> Session) (c : Session -> bool) (l : list Session) :
  (forall r, c r = false) -> map (fun r => if c r then f r else r) l = l.
Proof.
  intros Hc. rewrite <- (map_id l) at 2. apply map_ext. intros r. rewrite Hc. reflexivity.
Qed.

(** The safety net on one row, when the row read back by id has the lock
    time of the row selected. *)
Lemma archive_if_stale_sessions t gid y d y' :
  find_session (s_id y) d = Some y' -> s_lock_time y' = s_lock_time y ->
  roast_sessions (final (archive_if_stale t gid y d))
  = map (fun r => if by_id (s_id y) r && stalled t (fun id => count_unused id d) y
                  then with_status Status.ARCHIVED r else r)
        (roast_sessions d)
  /\ roast_messages (final (archive_if_stale t gid y d)) = roast_messages d.
Proof.
  intros Hf Hlock. unfold archive_if_stale, stalled. rewrite get_bind.
  destruct (count_unused (s_id y) d =? 0).
  2:{ split; [| reflexivity]. symmetry. apply map_unless. intros r.
      simpl. apply andb_false_r. }
  rewrite get_bind, Hf, Hlock.
  destruct (s_lock_time y) as [lockTime|].
  2:{ split; [| reflexivity]. symmetry. apply map_unless. intros r.
      simpl. apply andb_false_r. }
  destruct (5 * 60 * 1000 <? t - lockTime).
  2:{ split; [| reflexivity]. symmetry. apply map_unless. intros r.
      simpl. apply andb_false_r. }
  rewrite bind_final.
  match goal with |- context [updateGlobalRoundState ?a ?b ?c ?e ?f ?g ?h] =>
    destruct (updateGlobalRoundState_tables a b c e f g h) as (-> & -> & _) end.
  split; [| reflexivity]. rewrite update_status_sessions.
  apply map_ext. intros r. simpl. rewrite andb_true_r. reflexivity.
Qed.

Lemma stalled_ext t cnt cnt' y :
  cnt (s_id y) = cnt' (s_id y) -> stalled t cnt y = stalled t cnt' y.
Proof. intros H. unfold stalled. rewrite H. reflexivity. Qed.

Lemma archive_loop_sessions t gid cnt l : forall d,
  (forall id, count_unused id d = cnt id) ->
  (forall y, In y l ->
     exists y', find_session (s_id y) d = Some y' /\ s_lock_time y' = s_lock_time y) ->
  roast_sessions (final (for_each l (archive_if_stale t gid) d))
  = map (fun r => if id_in (List.filter (stalled t cnt) l) r
                  then with_status Status.ARCHIVED r else r)
        (roast_sessions d)
  /\ roast_messages (final (for_each l (archive_if_stale t gid) d)) = roast_messages d.
Proof.
  induction l as [|x l IH]; intros d Hcnt Hrows.
  - simpl. rewrite !ret_final. split; [| reflexivity]. symmetry. apply map_id.
  - destruct (Hrows x (or_introl eq_refl)) as (x' & Hfx & Hlx).
    destruct (archive_if_stale_sessions t gid x d x' Hfx Hlx) as [Hs Hm].
    simpl for_each. rewrite bind_final.
    set (d1 := final (archive_if_stale t gid x d)) in *.
    destruct (IH d1) as [IHs IHm].
    + intros id. rewrite <- Hcnt. apply count_unused_messages. exact Hm.
    + intros y Hy. destruct (Hrows y (or_intror Hy)) as (y' & Hfy & Hly).
      unfold find_session in *. rewrite Hs, find_map_same_id, Hfy.
      * eexists. split; [reflexivity |]. rewrite <- Hly.
        destruct (by_id (s_id x) y' && _); reflexivity.
      * intros r. destruct (by_id (s_id x) r && _); reflexivity.
    + rewrite IHs, IHm, Hs, Hm, map_map. split; [| reflexivity].
      apply map_ext. intros r.
      rewrite (stalled_ext t (fun id => count_unused id d) cnt x (Hcnt (s_id x))).
      simpl List.filter. unfold by_id.
      destruct (stalled t cnt x); simpl.
      * unfold id_in at 2. simpl existsb. fold (id_in (List.filter (stalled t cnt) l) r).
        rewrite (Nat.eqb_sym (s_id x) (s_id r)), andb_true_r.
        destruct (Nat.eqb (s_id r) (s_id x)); simpl.
        -- destruct (id_in _ _); reflexivity.
        -- reflexivity.
      * rewrite andb_false_r. reflexivity.
Qed.

Lemma filter_filter_andb {A} (p q : A -> bool) (l : list A) :
  List.filter q (List.filter p l) = List.filter (fun r => p r && q r) l.
Proof.
  induction l as [|a l IH]; [reflexivity |]. simpl.
  destruct (p a); simpl; [destruct (q a) |]; rewrite IH; reflexivity.
Qed.

Lemma archive_stale_sessions t gid d :
  List.NoDup (map s_id (roast_sessions d)) ->
  roast_sessions (final (archive_stale t gid d))
  = map (pass_archive t (fun id => count_unused id d)) (roast_sessions d)
  /\ roast_messages (final (archive_stale t gid d)) = roast_messages d.
Proof.
  intros Hnd. unfold archive_stale. rewrite get_bind.
  destruct (archive_loop_sessions t gid (fun id => count_unused id d)
              (List.filter (fun s => Status.eqb (s_status s) Status.LIVE) (roast_sessions d)) d)
    as [Hs Hm].
  - reflexivity.
  - intros y Hy. apply filter_In in Hy. exists y. split; [| reflexivity].
    apply find_session_unique; tauto.
  - rewrite Hs, Hm. split; [| reflexivity].
    apply map_ext_in. intros r Hr. rewrite filter_filter_andb, id_in_filter by assumption.
    reflexivity.
Qed.

Lemma map_same_ids (f : Session -> Session) (l : list Session) :
  (forall r, s_id (f r) = s_id r) -> map s_id (map f l) = map s_id l.
Proof. intros H. rewrite map_map. apply map_ext. exact H. Qed.

Lemma pass_lock_id t r : s_id (pass_lock t r) = s_id r.
Proof. unfold pass_lock. destruct (_ && _); reflexivity. Qed.

Lemma pass_live_id t r : s_id (pass_live t r) = s_id r.
Proof. unfold pass_live. destruct (_ && _); reflexivity. Qed.

Lemma write_locked_messages l d :
  roast_messages (final (write_locked l d)) = roast_messages d.
Proof.
  unfold write_locked.
  apply (for_each_inv (fun d' => roast_messages d' = roast_messages d)); [| reflexivity].
  intros y d' _ H. exact H.
Qed.

Lemma write_live_messages t gid l d :
  roast_messages (final (write_live t gid l d)) = roast_messages d.
Proof.
  unfold write_live.
  apply (for_each_inv (fun d' => roast_messages d' = roast_messages d)); [| reflexivity].
  intros y d' _ H. rewrite go_live_messages. exact H.
Qed.

Lemma session_manager_rows (t : Z) (gid : uuid) (db : DB)
  (Hids : List.NoDup (map s_id (roast_sessions db))) :
  roast_sessions (final (session_manager t gid db))
  = map (controller_row t (fun id => count_unused id db)) (roast_sessions db)
  /\ roast_messages (final (session_manager t gid db)) = roast_messages db.
Proof.
  unfold session_manager, read_open_due. rewrite get_bind.
  unfold session_manager_resume. rewrite bind_final.
  set (d1 := final (write_locked _ db)).
  assert (Hs1 : roast_sessions d1 = map (pass_lock t) (roast_sessions db)).
  { unfold d1, write_locked.
    apply (loop_over_selected Status.LOCKED
             (fun session => update_status (by_id (s_id session)) Status.LOCKED)).
    - intros y d'. reflexivity.
    - exact Hids. }
  assert (Hm1 : roast_messages d1 = roast_messages db) by apply write_locked_messages.
  assert (Hnd1 : List.NoDup (map s_id (roast_sessions d1))).
  { rewrite Hs1, map_same_ids; [exact Hids | apply pass_lock_id]. }
  unfold read_locked_due. rewrite get_bind, bind_final.
  set (d2 := final (write_live _ _ _ d1)).
  assert (Hs2 : roast_sessions d2 = map (pass_live t) (roast_sessions d1)).
  { unfold d2, write_live.
    apply (loop_over_selected Status.LIVE (go_live t gid)).
    - intros y d'. apply go_live_sessions.
    - exact Hnd1. }
  assert (Hm2 : roast_messages d2 = roast_messages d1) by apply write_live_messages.
  assert (Hnd2 : List.NoDup (map s_id (roast_sessions d2))).
  { rewrite Hs2, map_same_ids; [exact Hnd1 | apply pass_live_id]. }
  rewrite bind_final.
  set (d3 := final (sync_open t gid d2)).
  assert (Hs3 : roast_sessions d3 = roast_sessions d2) by apply sync_open_tables.
  assert (Hm3 : roast_messages d3 = roast_messages d2) by apply sync_open_messages.
  rewrite bind_final, ret_final.
  destruct (archive_stale_sessions t gid d3) as [Hs4 Hm4]; [rewrite Hs3; exact Hnd2 |].
  rewrite Hs4, Hm4, Hs3, Hs2, Hs1, Hm3, Hm2, Hm1, !map_map. split; [| reflexivity].
  apply map_ext. intros r. unfold controller_row, pass_archive.
  rewrite (stalled_ext t (fun id => count_unused id d3) (fun id => count_unused id db)).
  - reflexivity.
  - apply count_unused_messages. congruence.
Qed.

(** X1. With unique session ids, one run of the controller changes the
    session table row by row, whatever order the store keeps the rows in:
    the table after the run holds, up to order, the row [controller_row] of
    each row before it, so that a row that is OPEN with its lock time
    reached becomes LOCKED, a row that is then LOCKED with its lock time at
    least ten seconds past becomes LIVE, and a row that is then LIVE, has no
    unused message and was locked more than five minutes ago becomes
    ARCHIVED.  Looked up by id, each row is found as its rewritten row, and
    an id that was not in the table is not in it afterwards; the messages
    are left alone. *)
Theorem session_manager_maps_rows (t : Z) (gid : uuid) (db : DB)
  (Hids : List.NoDup (map s_id (roast_sessions db))) :
  Permutation (roast_sessions (final (session_manager t gid db)))
              (map (controller_row t (fun id => count_unused id db)) (roast_sessions db))
  /\ (forall r, In r (roast_sessions db) ->
        find_session (s_id r) (final (session_manager t gid db))
        = Some (controller_row t (fun id => count_unused id db) r))
  /\ (forall id, find_session id db = None ->
        find_session id (final (session_manager t gid db)) = None)
  /\ roast_messages (final (session_manager t gid db)) = roast_messages db.
Proof.
  destruct (session_manager_rows t gid db Hids) as [Hs Hm].
  assert (Hfind : forall id,
            find_session id (final (session_manager t gid db))
            = option_map (controller_row t (fun id => count_unused id db))
                         (find_session id db)).
  { intros id. unfold find_session. rewrite Hs. apply find_map_same_id.
    intros r. unfold controller_row, pass_archive.
    destruct (_ && _); simpl; rewrite pass_live_id; apply pass_lock_id. }
  split; [rewrite Hs; apply Permutation_refl |].
  split; [| split; [| exact Hm]].
  - intros r Hin. rewrite Hfind, (find_session_unique db r Hids Hin). reflexivity.
  - intros id Hnone. rewrite Hfind, Hnone. reflexivity.
Qed.

Lemma session_manager_maps_rows_witness :
  Permutation (roast_sessions (final (session_manager 136000 7 store_next_locked)))
              (map (controller_row 136000 (fun id => count_unused id store_next_locked))
                   (roast_sessions store_next_locked))
  /\ find_session 2 (final (session_manager 136000 7 store_next_locked))
     = Some (session_row 2 "bob" Status.LIVE 125000)
  /\ roast_messages (final (session_manager 136000 7 store_next_locked))
     = roast_messages store_next_locked.
Proof.
  destruct (session_manager_maps_rows 136000 7 store_next_locked) as (Hp & Hf & _ & Hm).
  - nodup_ids.
  - split; [exact Hp |]. split; [| exact Hm]. reflexivity.
Defined.

Lemma row_if_lock (b : bool) st r :
  s_lock_time (if b then with_status st r else r) = s_lock_time r.
Proof. destruct b; reflexivity. Qed.

Lemma row_if_id (b : bool) st r : s_id (if b then with_status st r else r) = s_id r.
Proof. destruct b; reflexivity. Qed.

Lemma row_if_status (b : bool) st r :
  s_status (if b then with_status st r else r) = if b then st else s_status r.
Proof. destruct b; reflexivity. Qed.

Lemma controller_row_idem t cnt r :
  controller_row t cnt (controller_row t cnt r) = controller_row t cnt r.
Proof.
  unfold controller_row, pass_archive, pass_live, pass_lock, stalled.
  repeat rewrite ?row_if_lock, ?row_if_id, ?row_if_status.
  destruct r as [id pid name avatar st start [l|] created];
    cbn [s_status s_lock_time s_id opt_leb].
  - destruct (l <=? t), (l <=? t - 10 * 1000), (cnt id =? 0), (5 * 60 * 1000 <? t - l);
      destruct st; reflexivity.
  - destruct (cnt id =? 0); destruct st; reflexivity.
Qed.

(** X2. Polling the controller a second time at the same clock reading
    leaves every session row as the first run left it. *)
Theorem session_manager_twice_same_rows (t : Z) (gid gid' : uuid) (db : DB)
  (Hids : List.NoDup (map s_id (roast_sessions db))) :
  roast_sessions (final (session_manager t gid' (final (session_manager t gid db))))
  = roast_sessions (final (session_manager t gid db)).
Proof.
  destruct (session_manager_rows t gid db Hids) as [Hs Hm].
  destruct (session_manager_rows t gid' (final (session_manager t gid db))) as [Hs' _].
  - rewrite Hs, map_same_ids; [exact Hids |].
    intros r. unfold controller_row, pass_archive.
    destruct (_ && _); simpl; rewrite pass_live_id; apply pass_lock_id.
  - rewrite Hs', Hs, map_map. apply map_ext. intros r.
    rewrite <- (controller_row_idem t (fun id => count_unused id db) r) at 2.
    unfold controller_row, pass_archive. f_equal.
    rewrite (stalled_ext t (fun id => count_unused id (final (session_manager t gid db)))
                         (fun id => count_unused id db)); [reflexivity |].
    apply count_unused_messages. exact Hm.
Qed.

Lemma session_manager_twice_same_rows_witness :
  roast_sessions (final (session_manager 20000 8 (final (session_manager 20000 7 store_open_overdue))))
  = roast_sessions (final (session_manager 20000 7 store_open_overdue)).
Proof. apply (session_manager_twice_same_rows 20000 7 8 store_open_overdue). nodup_ids. Defined.

Lemma controller_row_id t cnt r : s_id (controller_row t cnt r) = s_id r.
Proof.
  unfold controller_row, pass_archive.
  destruct (_ && _); simpl; rewrite pass_live_id; apply pass_lock_id.
Qed.

(** The status of a row after a run, read back by id. *)
Lemma session_manager_status_of t gid db r :
  List.NoDup (map s_id (roast_sessions db)) -> In r (roast_sessions db) ->
  status_of (s_id r) (final (session_manager t gid db))
  = Some (s_status (controller_row t (fun id => count_unused id db) r)).
Proof.
  intros Hids Hr. destruct (session_manager_rows t gid db Hids) as [Hs _].
  unfold status_of, find_session. rewrite Hs, find_map_same_id.
  - fold (find_session (s_id r) db). rewrite (find_session_unique db r Hids Hr). reflexivity.
  - apply controller_row_id.
Qed.

Lemma controller_row_archived t cnt r :
  s_status (controller_row t cnt r) = Status.ARCHIVED
  <-> s_status r = Status.ARCHIVED
      \/ (cnt (s_id r) = 0
          /\ exists lockTime, s_lock_time r = Some lockTime /\ 5 * 60 * 1000 < t - lockTime).
Proof.
  unfold controller_row, pass_archive, pass_live, pass_lock, stalled.
  repeat rewrite ?row_if_lock, ?row_if_id, ?row_if_status.
  destruct r as [id pid name avatar st start [l|] created];
    cbn [s_status s_lock_time s_id opt_leb].
  - destruct (Z.leb_spec l t) as [Ha|Ha], (Z.leb_spec l (t - 10 * 1000)) as [Hb|Hb],
             (Z.eqb_spec (cnt id) 0) as [Hc|Hc],
             (Z.ltb_spec (5 * 60 * 1000) (t - l)) as [Hd|Hd];
      destruct st; cbn; split; intros H;
      try discriminate; try reflexivity; try lia;
      try (left; reflexivity);
      try (right; split; [assumption | exists l; split; [reflexivity | assumption]]);
      try (destruct H as [H | (H0 & l' & Hl & Hlt)];
           [discriminate | injection Hl as <-; lia]).
  - destruct (cnt id =? 0); destruct st; cbn; split; intros H;
      try discriminate; try reflexivity; try (left; reflexivity);
      try (destruct H as [H | (H0 & l' & Hl & Hlt)]; discriminate).
Qed.

(** X3. After a run of the controller a session is ARCHIVED exactly when it
    was ARCHIVED before, or it has no unused message and its lock time lies
    more than five minutes back; this holds whatever its status was, so an
    OPEN session with no submission that was not polled in time is archived
    without having been shown. *)
Theorem session_manager_archives_exactly (t : Z) (gid : uuid) (db : DB) (r : Session)
  (Hids : List.NoDup (map s_id (roast_sessions db)))
  (Hr : In r (roast_sessions db)) :
  status_of (s_id r) (final (session_manager t gid db)) = Some Status.ARCHIVED
  <-> s_status r = Status.ARCHIVED
      \/ (count_unused (s_id r) db = 0
          /\ exists lockTime, s_lock_time r = Some lockTime /\ 5 * 60 * 1000 < t - lockTime).
Proof.
  rewrite (session_manager_status_of t gid db r Hids Hr).
  rewrite <- (controller_row_archived t (fun id => count_unused id db) r).
  split; [intros H; injection H as H; exact H | intros ->; reflexivity].
Qed.

Lemma session_manager_archives_exactly_witness :
  status_of 1 (final (session_manager 400000 7 store_open_overdue)) = Some Status.ARCHIVED
  <-> s_status (session_row 1 "ada" Status.OPEN 1000) = Status.ARCHIVED
      \/ (count_unused 1 store_open_overdue = 0
          /\ exists lockTime, s_lock_time (session_row 1 "ada" Status.OPEN 1000) = Some lockTime
                              /\ 5 * 60 * 1000 < 400000 - lockTime).
Proof.
  apply (session_manager_archives_exactly 400000 7 store_open_overdue
           (session_row 1 "ada" Status.OPEN 1000)).
  - nodup_ids.
  - left. reflexivity.
Defined.

(** ** Reading the global row back *)

Lemma map_not_hit (id : uuid) (new : GlobalRow -> GlobalRow) (l : list GlobalRow) :
  (forall g, In g l -> g_id g <> id) ->
  map (fun g => if Nat.eqb (g_id g) id then new g else g) l = l.
Proof.
  intros H. rewrite <- (map_id l) at 2. apply map_ext_in. intros g Hg.
  destruct (Nat.eqb_spec (g_id g) id) as [Heq|]; [| reflexivity].
  exfalso. exact (H g Hg Heq).
Qed.

Lemma upsert_rows_latest t gid sid rs total se ls rows :
  List.NoDup (map g_id rows) -> (forall g, In g rows -> g_updated_at g <= t) ->
  exists g,
    latest_by g_updated_at (upsert_rows t gid sid rs total se ls rows) = Some g
    /\ g = stateUpdate (g_id g) sid rs total se ls t
    /\ List.NoDup (map g_id (upsert_rows t gid sid rs total se ls rows))
    /\ (forall g', In g' (upsert_rows t gid sid rs total se ls rows) -> g_updated_at g' <= t)
    /\ List.length (upsert_rows t gid sid rs total se ls rows) = Nat.max 1 (List.length rows).
Proof.
  intros Hnd Hst. unfold upsert_rows.
  destruct (latest_by g_updated_at rows) as [e|] eqn:He.
  - destruct (latest_by_spec _ _ _ He) as (l1 & l2 & Hl & H1 & H2).
    assert (Hfresh : forall g, In g (l1 ++ l2) -> g_id g <> g_id e).
    { rewrite Hl, map_app in Hnd. simpl in Hnd. apply List.NoDup_remove_2 in Hnd.
      intros g Hg Heq. apply Hnd. rewrite <- Heq, <- map_app. apply in_map. exact Hg. }
    assert (Hrows : map (fun g => if Nat.eqb (g_id g) (g_id e)
                                  then stateUpdate (g_id g) sid rs total se ls t else g) rows
                    = l1 ++ stateUpdate (g_id e) sid rs total se ls t :: l2).
    { rewrite Hl, map_app. simpl.
      rewrite Nat.eqb_refl, !map_not_hit; [reflexivity | |];
        intros g Hg; apply Hfresh, in_or_app; tauto. }
    rewrite Hrows.
    exists (stateUpdate (g_id e) sid rs total se ls t).
    split; [| split; [reflexivity | split; [| split]]].
    + apply latest_by_first_max; simpl.
      * intros y Hy. specialize (H1 y Hy).
        assert (g_updated_at e <= t) by (apply Hst; rewrite Hl; apply in_elt). lia.
      * intros y Hy. apply Hst. rewrite Hl. apply in_or_app. right. right. exact Hy.
    + rewrite map_app. simpl. rewrite Hl, map_app in Hnd. exact Hnd.
    + intros g Hg. apply in_app_or in Hg. destruct Hg as [Hg | [<- | Hg]].
      * apply Hst. rewrite Hl. apply in_or_app. left. exact Hg.
      * simpl. lia.
      * apply Hst. rewrite Hl. apply in_or_app. right. right. exact Hg.
    + rewrite Hl, !length_app. simpl. lia.
  - apply latest_by_none in He. subst rows. simpl.
    exists (stateUpdate gid sid rs total se ls t).
    split; [reflexivity | split; [reflexivity | split; [| split]]].
    + nodup_ids.
    + intros g [<- | []]. simpl. lia.
    + reflexivity.
Qed.

Lemma updateGlobalRoundState_global now gid sid rs se ls db :
  global_stamped now db ->
  exists g,
    latest_global (final (updateGlobalRoundState now gid sid rs se ls db)) = Some g
    /\ g = stateUpdate (g_id g) sid rs (total_for sid db) se ls now
    /\ global_stamped now (final (updateGlobalRoundState now gid sid rs se ls db))
    /\ List.length (global_round_state (final (updateGlobalRoundState now gid sid rs se ls db)))
       = Nat.max 1 (List.length (global_round_state db)).
Proof.
  intros [Hnd Hst]. rewrite updateGlobalRoundState_final.
  destruct (upsert_rows_latest now gid sid rs (total_for sid db) se ls
              (global_round_state db) Hnd Hst) as (g & Hg & Heq & Hnd' & Hst' & Hlen).
  exists g. unfold latest_global, global_stamped. simpl. tauto.
Qed.

Ltac stamped :=
  split; [nodup_ids |
          simpl; intros ? Hg;
          repeat (destruct Hg as [<- | Hg]; [simpl; lia |]); destruct Hg].

(** X4. Read your write: when no global row carries a stamp later than the
    clock of the call and row ids are unique, the row a reader gets next
    (latest updated_at) is the one updateGlobalRoundState wrote, with index 0
    and the count of unused messages as total; the table keeps its size,
    or gets its first row. *)
Theorem updateGlobalRoundState_reads_back
  (now : Z) (gid : uuid) (sid : option uuid) (rs : RoundState.t) (se ls : option Z) (db : DB)
  (Hst : global_stamped now db) :
  exists g,
    latest_global (final (updateGlobalRoundState now gid sid rs se ls db)) = Some g
    /\ g_session_id g = sid /\ g_round_state g = rs
    /\ g_current_roast_index g = 0 /\ g_total_roasts g = total_for sid db
    /\ g_submit_end_time g = se /\ g_live_start_time g = ls /\ g_updated_at g = now
    /\ List.length (global_round_state (final (updateGlobalRoundState now gid sid rs se ls db)))
       = Nat.max 1 (List.length (global_round_state db)).
Proof.
  destruct (updateGlobalRoundState_global now gid sid rs se ls db Hst)
    as (g & Hg & Heq & _ & Hlen).
  exists g. split; [exact Hg |]. rewrite Heq. simpl. repeat split. exact Hlen.
Qed.

Lemma updateGlobalRoundState_reads_back_witness :
  exists g,
    latest_global (final (updateGlobalRoundState 200000 8 None RoundState.WAITING None None
                            store_next_live)) = Some g
    /\ g_session_id g = None /\ g_round_state g = RoundState.WAITING
    /\ g_current_roast_index g = 0 /\ g_total_roasts g = total_for None store_next_live
    /\ g_submit_end_time g = None /\ g_live_start_time g = None /\ g_updated_at g = 200000
    /\ List.length (global_round_state
                      (final (updateGlobalRoundState 200000 8 None RoundState.WAITING None None
                                store_next_live)))
       = Nat.max 1 (List.length (global_round_state store_next_live)).
Proof.
  apply (updateGlobalRoundState_reads_back 200000 8 None RoundState.WAITING None None
           store_next_live).
  stamped.
Defined.

(** ** Marking the leftovers of a session *)

Lemma progress_row_success t sid g g' :
  progress_row t sid g = Some g' -> g' = advanced t sid 1 g.
Proof.
  unfold progress_row, advanced, int4_add, LEAST.
  destruct (progress_target sid g); simpl.
  - destruct (_ && _); intros [= <-]; reflexivity.
  - intros [= <-]. reflexivity.
Qed.

Lemma progress_rows_success t sid rows : forall rows',
  progress_rows t sid rows = Some rows' -> rows' = map (advanced t sid 1) rows.
Proof.
  induction rows as [|g rows IH]; intros rows'; simpl.
  - intros [= <-]. reflexivity.
  - destruct (progress_row t sid g) as [g1|] eqn:Hg; [| discriminate].
    destruct (progress_rows t sid rows) as [r1|]; [| discriminate].
    intros [= <-]. rewrite (progress_row_success _ _ _ _ Hg), (IH r1 eq_refl). reflexivity.
Qed.

Lemma advanced_step t sid k g :
  advanced t sid k (advanced t sid 1 g) = advanced t sid (S k) g.
Proof.
  unfold advanced. destruct (progress_target sid g) eqn:Ht; simpl.
  - unfold progress_target in *. simpl. rewrite Ht. simpl.
    destruct k as [|k]; simpl.
    + reflexivity.
    + unfold with_progress. simpl. f_equal. lia.
  - rewrite Ht. reflexivity.
Qed.

Lemma fire_triggers_success t sid touched : forall rows rows',
  (forall m, In m touched -> leftover sid m = true) ->
  fire_triggers t true touched rows = Some rows' ->
  rows' = map (advanced t sid (List.length touched)) rows.
Proof.
  induction touched as [|m touched IH]; intros rows rows' Hall; simpl.
  - intros [= <-]. rewrite <- (map_id rows) at 1. apply map_ext. intros g.
    unfold advanced. rewrite andb_false_r. reflexivity.
  - assert (Hm : leftover sid m = true) by (apply Hall; left; reflexivity).
    unfold leftover in Hm. apply andb_true_iff in Hm. destruct Hm as [Hsid Hused].
    apply Nat.eqb_eq in Hsid. apply negb_true_iff in Hused.
    unfold increment_global_round_progress_on_message_used. simpl. rewrite Hused, Hsid. simpl.
    destruct (progress_rows t sid rows) as [rows1|] eqn:H1; [| discriminate].
    intros Hrest. apply IH in Hrest; [| intros m' Hm'; apply Hall; right; exact Hm'].
    rewrite Hrest, (progress_rows_success _ _ _ _ H1), map_map.
    apply map_ext. intros g. apply advanced_step.
Qed.

Lemma count_unused_leftover sid db :
  count_unused sid db = Z.of_nat (List.length (List.filter (leftover sid) (roast_messages db))).
Proof. reflexivity. Qed.

Lemma filter_none {A} (p : A -> bool) (l : list A) :
  (forall x, In x l -> p x = false) -> List.filter p l = [].
Proof.
  induction l as [|a l IH]; intros H; [reflexivity |]. simpl.
  rewrite (H a (or_introl eq_refl)). apply IH. intros x Hx. apply H. right. exact Hx.
Qed.

Lemma update_used_success t p v db :
  result (update_used t p v db) = true ->
  exists rows,
    fire_triggers t v (List.filter p (roast_messages db)) (global_round_state db) = Some rows
    /\ final (update_used t p v db)
       = set_global rows
           (set_messages (map (fun m => if p m then with_used v m else m) (roast_messages db))
                         db).
Proof.
  unfold update_used. destruct (fire_triggers _ _ _ _) as [rows|]; [| discriminate].
  intros _. exists rows. split; reflexivity.
Qed.

(** X5. When the statement that marks a session's leftovers goes through,
    the session then has no unused message, and every LIVE progress row of
    the session has moved on by the number of leftovers, clamped at its
    total; the other rows of the global table are as before. *)
Theorem mark_remaining_used_advances (t : Z) (sid : uuid) (db : DB)
  (Hok : result (mark_remaining_used t sid db) = true) :
  count_unused sid (final (mark_remaining_used t sid db)) = 0
  /\ global_round_state (final (mark_remaining_used t sid db))
     = map (advanced t sid (Z.to_nat (count_unused sid db))) (global_round_state db).
Proof.
  unfold mark_remaining_used in *.
  destruct (update_used_success t _ true db Hok) as (rows & Hfire & ->).
  split.
  - unfold count_unused. simpl. rewrite filter_none; [reflexivity |].
    intros m Hm. apply in_map_iff in Hm. destruct Hm as (m0 & <- & _).
    destruct (Nat.eqb (m_session_id m0) sid) eqn:Hs, (m_used m0) eqn:Hu; simpl;
      rewrite ?Hs, ?Hu; reflexivity.
  - simpl. rewrite count_unused_leftover, Nat2Z.id.
    apply (fire_triggers_success t sid _ _ _); [| exact Hfire].
    intros m Hm. apply filter_In in Hm. exact (proj2 Hm).
Qed.

Lemma mark_remaining_used_advances_witness :
  count_unused 1 (final (mark_remaining_used 20000 1 store_live_leftover)) = 0
  /\ global_round_state (final (mark_remaining_used 20000 1 store_live_leftover))
     = map (advanced 20000 1 (Z.to_nat (count_unused 1 store_live_leftover)))
           (global_round_state store_live_leftover).
Proof. apply (mark_remaining_used_advances 20000 1 store_live_leftover). reflexivity. Defined.

(** ** Marking one message twice *)

Lemma with_used_same m : m_used m = true -> with_used true m = m.
Proof. destruct m. simpl. intros ->. reflexivity. Qed.

Lemma fire_triggers_used t touched rows :
  (forall m, In m touched -> m_used m = true) ->
  fire_triggers t true touched rows = Some rows.
Proof.
  induction touched as [|m touched IH]; intros H; [reflexivity |]. simpl.
  unfold increment_global_round_progress_on_message_used. simpl.
  rewrite (H m (or_introl eq_refl)). simpl. apply IH. intros m' Hm'. apply H. right. exact Hm'.
Qed.

Lemma update_used_already t p db :
  (forall m, In m (roast_messages db) -> p m = true -> m_used m = true) ->
  result (update_used t p true db) = true /\ final (update_used t p true db) = db.
Proof.
  intros H. unfold update_used. rewrite fire_triggers_used.
  - split; [reflexivity |]. unfold final. simpl.
    assert (Hmap : map (fun m => if p m then with_used true m else m) (roast_messages db)
                   = roast_messages db).
    { rewrite <- (map_id (roast_messages db)) at 2. apply map_ext_in. intros m Hm.
      destruct (p m) eqn:Hp; [| reflexivity]. apply with_used_same, H; assumption. }
    rewrite Hmap. destruct db. reflexivity.
  - intros m Hm. apply filter_In in Hm. apply H; tauto.
Qed.

Lemma client_check_passes db (vis : Message -> bool) (l : list Message) :
  (forall m, vis m = true -> policy_using db m = true) ->
  forallb (fun m => policy_with_check db (with_used true m)) (List.filter vis l) = true.
Proof.
  intros H. apply forallb_forall. intros m Hm. apply filter_In in Hm.
  unfold policy_with_check. simpl. rewrite andb_true_r. apply (H m), Hm.
Qed.

Lemma client_update_used_passes t p db :
  client_update_used t p true db
  = update_used t (fun m => p m && policy_using db m) true db.
Proof.
  unfold client_update_used. rewrite client_check_passes; [reflexivity |].
  intros m Hm. apply andb_true_iff in Hm. exact (proj2 Hm).
Qed.

(** X6. Marking a message used is idempotent: after a call of
    markMessageUsed that went through, a second call for the same message
    (at any later clock reading, from any client) also goes through and
    leaves every table, the progress index included, as the first call
    left it. *)
Theorem markMessageUsed_twice (t t' : Z) (messageId : uuid) (db : DB)
  (Hok : result (markMessageUsed t messageId db) = true) :
  result (markMessageUsed t' messageId (final (markMessageUsed t messageId db))) = true
  /\ final (markMessageUsed t' messageId (final (markMessageUsed t messageId db)))
     = final (markMessageUsed t messageId db).
Proof.
  unfold markMessageUsed in *. rewrite !client_update_used_passes in *.
  destruct (update_used_success t _ true db Hok) as (rows & _ & ->).
  apply update_used_already. simpl. intros m Hm Hvis.
  apply in_map_iff in Hm. destruct Hm as (m0 & <- & _).
  unfold policy_using in *. simpl in Hvis.
  destruct (Nat.eqb (m_id m0) messageId && session_is_live (m_session_id m0) db) eqn:Hv.
  - reflexivity.
  - simpl in Hvis. unfold session_is_live in *. simpl in Hvis. rewrite Hv in Hvis. discriminate.
Qed.

Lemma markMessageUsed_twice_witness :
  result (markMessageUsed 30000 5 (final (markMessageUsed 20000 5 store_live_leftover))) = true
  /\ final (markMessageUsed 30000 5 (final (markMessageUsed 20000 5 store_live_leftover)))
     = final (markMessageUsed 20000 5 store_live_leftover).
Proof. apply (markMessageUsed_twice 20000 30000 5 store_live_leftover). reflexivity. Defined.

(** ** The completion service *)

(** A call that answers with success got through both of its updates and
    then ran the successor step on the store they left. *)
Lemma complete_live_round_shape e sid db r c :
  result (complete_live_round e (Some sid) db) = Success r c ->
  exists s0 rows,
    find_session sid db = Some s0
    /\ fire_triggers (now e) true (List.filter (leftover sid) (roast_messages db))
                     (global_round_state db) = Some rows
    /\ let d2 :=
         set_global rows
           (set_messages (map (fun m => if leftover sid m then with_used true m else m)
                              (roast_messages db))
              (set_sessions (map (after_archive sid) (roast_sessions db)) db)) in
       result (ensure_next_session e sid d2) = Success r c
       /\ final (complete_live_round e (Some sid) db) = final (ensure_next_session e sid d2).
Proof.
  unfold complete_live_round. rewrite get_bind.
  destruct (find_session sid db) as [s0|]; [| discriminate].
  rewrite !bind_result, !bind_final.
  set (d1 := final (archive_live sid db)).
  destruct (result (mark_remaining_used (now e) sid d1)) eqn:Hok; [| discriminate].
  intros Hres. unfold mark_remaining_used in *.
  destruct (update_used_success (now e) _ true d1 Hok) as (rows & Hfire & Hfin).
  exists s0, rows. split; [reflexivity |]. split; [exact Hfire |].
  rewrite Hfin in *. split; [exact Hres | reflexivity].
Qed.

Lemma activeSessions_head d a rest :
  activeSessions d = a :: rest ->
  In a (roast_sessions d) /\ Status.active (s_status a) = true.
Proof.
  unfold activeSessions. intros H.
  destruct (List.filter _ (roast_sessions d)) as [|x l] eqn:Hf; [discriminate |].
  injection H as <- _.
  assert (Hin : In x (List.filter (fun s => Status.active (s_status s)) (roast_sessions d)))
    by (rewrite Hf; left; reflexivity).
  apply filter_In in Hin. exact Hin.
Qed.

Lemma activeSessions_none d :
  activeSessions d = [] -> Forall inactive (roast_sessions d).
Proof.
  unfold activeSessions. intros H. apply firstn_1_nil in H.
  apply List.Forall_forall. intros s Hs. unfold inactive.
  destruct (Status.active (s_status s)) eqn:Ha; [| reflexivity].
  assert (Hin : In s (List.filter (fun s => Status.active (s_status s)) (roast_sessions d)))
    by (apply filter_In; tauto).
  rewrite H in Hin. destruct Hin.
Qed.

(** The three ways the successor step answers with success. *)
Lemma ensure_next_session_shape e sid d r c :
  result (ensure_next_session e sid d) = Success r c ->
  r = sid
  /\ ((exists a rest dd,
         activeSessions d = a :: rest /\ find_session (s_id a) d = Some dd /\ c = None
         /\ final (ensure_next_session e sid d)
            = set_global
                (upsert_rows (now e) (new_global_id e) (Some (s_id a))
                   (roundState_of_status (s_status dd)) (count_unused (s_id a) d)
                   (s_lock_time dd)
                   (if Status.eqb (s_status dd) Status.LIVE then Some (now e) else None)
                   (global_round_state d)) d)
      \/ (activeSessions d = [] /\ personas d = [] /\ c = None
          /\ final (ensure_next_session e sid d)
             = set_global
                 (upsert_rows (now e) (new_global_id e) None RoundState.WAITING 0 None None
                    (global_round_state d)) d)
      \/ (exists p,
            activeSessions d = [] /\ nth_error (personas d) (random_index e) = Some p
            /\ c = Some (new_session_id e)
            /\ final (ensure_next_session e sid d)
               = set_global
                   (upsert_rows (now e) (new_global_id e) (Some (new_session_id e))
                      RoundState.SUBMITTING (count_unused (new_session_id e) d)
                      (Some (now e + 2 * 60 * 1000)) None (global_round_state d))
                   (set_sessions (roast_sessions d ++ [successor_session e p]) d))).
Proof.
  intros Hres.
  destruct (activeSessions d) as [|a rest] eqn:Hact.
  - destruct (personas d) as [|p0 ps] eqn:Hps.
    + destruct (ensure_waiting e sid d Hact Hps) as [Hr Hf].
      rewrite Hr in Hres. injection Hres as <- <-.
      split; [reflexivity |]. right. left. tauto.
    + destruct (nth_error (personas d) (random_index e)) as [p|] eqn:Hnth.
      * destruct (ensure_create e sid d p Hact Hnth) as [Hr Hf].
        rewrite Hr in Hres. injection Hres as <- <-.
        split; [reflexivity |]. right. right. exists p. rewrite <- Hps. tauto.
      * exfalso. unfold ensure_next_session in Hres. rewrite get_bind, Hact in Hres.
        unfold create_next_session in Hres. rewrite get_bind in Hres.
        rewrite Hps in *. rewrite Hnth in Hres. discriminate.
  - destruct (activeSessions_head d a rest Hact) as [Hin _].
    destruct (find_session (s_id a) d) as [dd|] eqn:Hfind.
    + destruct (ensure_reconcile e sid d a rest dd Hact Hfind) as [Hr Hf].
      rewrite Hr in Hres. injection Hres as <- <-.
      split; [reflexivity |]. left. exists a, rest, dd. tauto.
    + exfalso. unfold find_session in Hfind.
      apply (find_none _ _ Hfind) in Hin. rewrite Nat.eqb_refl in Hin. discriminate.
Qed.

Lemma after_archive_id sid s : s_id (after_archive sid s) = s_id s.
Proof. unfold after_archive. destruct (_ && _); reflexivity. Qed.

Lemma count_other_session sid id (l : list Message) :
  id <> sid ->
  List.filter (fun m => Nat.eqb (m_session_id m) id && negb (m_used m))
              (map (fun m => if leftover sid m then with_used true m else m) l)
  = List.filter (fun m => Nat.eqb (m_session_id m) id && negb (m_used m)) l.
Proof.
  intros Hne. induction l as [|m l IH]; [reflexivity |]. simpl.
  destruct (leftover sid m) eqn:Hl.
  - unfold leftover in Hl. apply andb_true_iff in Hl. destruct Hl as [Hs _].
    apply Nat.eqb_eq in Hs. simpl. rewrite andb_false_r.
    destruct (Nat.eqb_spec (m_session_id m) id) as [Hid|_]; [congruence |].
    simpl. exact IH.
  - rewrite IH. reflexivity.
Qed.

(** The tables a successful completion leaves. *)
Lemma complete_live_round_tables e sid db r c :
  result (complete_live_round e (Some sid) db) = Success r c ->
  r = sid
  /\ roast_messages (final (complete_live_round e (Some sid) db))
     = map (fun m => if leftover sid m then with_used true m else m) (roast_messages db)
  /\ match c with
     | Some n =>
         n = new_session_id e
         /\ exists p,
              nth_error (personas db) (random_index e) = Some p
              /\ roast_sessions (final (complete_live_round e (Some sid) db))
                 = map (after_archive sid) (roast_sessions db) ++ [successor_session e p]
              /\ Forall inactive (map (after_archive sid) (roast_sessions db))
     | None =>
         roast_sessions (final (complete_live_round e (Some sid) db))
         = map (after_archive sid) (roast_sessions db)
         /\ (Exists (fun s => Status.active (s_status s) = true)
                    (map (after_archive sid) (roast_sessions db))
             \/ personas db = [])
     end.
Proof.
  intros Hres.
  destruct (complete_live_round_shape e sid db r c Hres) as (s0 & rows & _ & _ & Hens & ->).
  cbv zeta in Hens.
  set (d2 := set_global rows _) in *.
  destruct (ensure_next_session_shape e sid d2 r c Hens)
    as [-> [(a & rest & dd & Hact & _ & -> & ->) | [(Hact & Hps & -> & ->) | (p & Hact & Hnth & -> & ->)]]];
    (split; [reflexivity |]); (split; [reflexivity |]).
  - split; [reflexivity |]. left. apply List.Exists_exists. exists a.
    exact (activeSessions_head d2 a rest Hact).
  - split; [reflexivity |]. right. exact Hps.
  - split; [reflexivity |]. exists p. split; [exact Hnth |]. split; [reflexivity |].
    exact (activeSessions_none d2 Hact).
Qed.

(** X7. A completion that answers with success leaves the named session
    without unused messages and never LIVE: a LIVE session is ARCHIVED, a
    session in any other status keeps it (and still loses its queue).  The
    unused counts of the other sessions are as before. *)
Theorem complete_live_round_settles (e : Env) (sid : uuid) (db : DB) (s0 : Session)
  (r : uuid) (c : option uuid)
  (Hfind : find_session sid db = Some s0)
  (Hres : result (complete_live_round e (Some sid) db) = Success r c) :
  r = sid
  /\ status_of sid (final (complete_live_round e (Some sid) db))
     = Some (if Status.eqb (s_status s0) Status.LIVE then Status.ARCHIVED else s_status s0)
  /\ count_unused sid (final (complete_live_round e (Some sid) db)) = 0
  /\ (forall id, id <> sid ->
        count_unused id (final (complete_live_round e (Some sid) db)) = count_unused id db).
Proof.
  destruct (complete_live_round_tables e sid db r c Hres) as (-> & Hm & Hs).
  split; [reflexivity |].
  assert (Hfirst : List.find (fun s => Nat.eqb (s_id s) sid)
                     (map (after_archive sid) (roast_sessions db))
                   = Some (after_archive sid s0)).
  { rewrite find_map_same_id by apply after_archive_id.
    unfold find_session in Hfind. rewrite Hfind. reflexivity. }
  assert (Hst : s_status (after_archive sid s0)
                = if Status.eqb (s_status s0) Status.LIVE then Status.ARCHIVED else s_status s0).
  { unfold after_archive, by_id. destruct (find_session_In _ _ _ Hfind) as [_ ->].
    rewrite Nat.eqb_refl. simpl. destruct (Status.eqb _ _); reflexivity. }
  split; [| split].
  - unfold status_of, find_session. destruct c as [n|].
    + destruct Hs as (_ & p & _ & -> & _).
      rewrite (find_app_old _ _ _ _ Hfirst). simpl. rewrite Hst. reflexivity.
    + destruct Hs as [-> _]. rewrite Hfirst. simpl. rewrite Hst. reflexivity.
  - unfold count_unused. rewrite Hm, filter_none; [reflexivity |].
    intros m Hin. apply in_map_iff in Hin. destruct Hin as (m0 & <- & _). unfold leftover.
    destruct (Nat.eqb (m_session_id m0) sid) eqn:Hsid, (m_used m0) eqn:Hu; simpl;
      rewrite ?Hsid, ?Hu; reflexivity.
  - intros id Hne. unfold count_unused. rewrite Hm, count_other_session by exact Hne.
    reflexivity.
Qed.

Lemma complete_live_round_settles_witness :
  1%nat = 1%nat
  /\ status_of 1 (final (complete_live_round (mkEnv 30000 1 9 8) (Some 1%nat) store_live_leftover))
     = Some (if Status.eqb (s_status (session_row 1 "ada" Status.LIVE 1000)) Status.LIVE
             then Status.ARCHIVED
             else s_status (session_row 1 "ada" Status.LIVE 1000))
  /\ count_unused 1 (final (complete_live_round (mkEnv 30000 1 9 8) (Some 1%nat)
                              store_live_leftover)) = 0
  /\ (forall id, id <> 1%nat ->
        count_unused id (final (complete_live_round (mkEnv 30000 1 9 8) (Some 1%nat)
                                  store_live_leftover))
        = count_unused id store_live_leftover).
Proof.
  apply (complete_live_round_settles (mkEnv 30000 1 9 8) 1 store_live_leftover
           (session_row 1 "ada" Status.LIVE 1000) 1 (Some 9%nat)); reflexivity.
Defined.

(** X8. A successful completion inserts a successor only when no session is
    active once the named one is archived: the new OPEN row, for the persona
    the draw picked, is then the only active session.  Otherwise it inserts
    nothing, and some session is active unless no persona exists. *)
Theorem complete_live_round_one_successor (e : Env) (sid : uuid) (db : DB)
  (r : uuid) (c : option uuid)
  (Hres : result (complete_live_round e (Some sid) db) = Success r c) :
  match c with
  | Some n =>
      n = new_session_id e
      /\ exists p,
           nth_error (personas db) (random_index e) = Some p
           /\ roast_sessions (final (complete_live_round e (Some sid) db))
              = map (after_archive sid) (roast_sessions db) ++ [successor_session e p]
           /\ Forall inactive (map (after_archive sid) (roast_sessions db))
  | None =>
      roast_sessions (final (complete_live_round e (Some sid) db))
      = map (after_archive sid) (roast_sessions db)
      /\ (Exists (fun s => Status.active (s_status s) = true)
                 (map (after_archive sid) (roast_sessions db))
          \/ personas db = [])
  end.
Proof. exact (proj2 (proj2 (complete_live_round_tables e sid db r c Hres))). Qed.

Lemma complete_live_round_one_successor_witness :
  9%nat = new_session_id (mkEnv 30000 1 9 8)
  /\ exists p,
       nth_error (personas store_live_leftover) (random_index (mkEnv 30000 1 9 8)) = Some p
       /\ roast_sessions (final (complete_live_round (mkEnv 30000 1 9 8) (Some 1%nat)
                                   store_live_leftover))
          = map (after_archive 1) (roast_sessions store_live_leftover)
            ++ [successor_session (mkEnv 30000 1 9 8) p]
       /\ Forall inactive (map (after_archive 1) (roast_sessions store_live_leftover)).
Proof.
  apply (complete_live_round_one_successor (mkEnv 30000 1 9 8) 1 store_live_leftover
           1 (Some 9%nat)).
  reflexivity.
Defined.

Lemma advanced_id t sid n g : g_id (advanced t sid n g) = g_id g.
Proof. unfold advanced. destruct (_ && _); reflexivity. Qed.

Lemma advanced_stamp t sid n g :
  g_updated_at g <= t -> g_updated_at (advanced t sid n g) <= t.
Proof. unfold advanced. destruct (_ && _); simpl; lia. Qed.

Lemma advanced_rows_stamped t sid n rows :
  List.NoDup (map g_id rows) -> (forall g, In g rows -> g_updated_at g <= t) ->
  List.NoDup (map g_id (map (advanced t sid n) rows))
  /\ (forall g, In g (map (advanced t sid n) rows) -> g_updated_at g <= t).
Proof.
  intros Hnd Hst. split.
  - rewrite map_map.
    rewrite (map_ext (fun g => g_id (advanced t sid n g)) g_id); [exact Hnd |].
    intros g. apply advanced_id.
  - intros g Hg. apply in_map_iff in Hg. destruct Hg as (g0 & <- & Hg0).
    apply advanced_stamp, Hst, Hg0.
Qed.

(** X9. After a successful completion, on a global table with unique ids and
    no stamp ahead of the clock and with a fresh id for the successor, the
    row a reader gets next was stamped by this call, has index 0 and agrees
    with the session table: it names no session and says WAITING, or it names
    a session whose stored status gives its phase (OPEN as SUBMITTING, LOCKED
    and LIVE as LIVE). *)
Theorem complete_live_round_global_agrees (e : Env) (sid : uuid) (db : DB)
  (r : uuid) (c : option uuid)
  (Hres : result (complete_live_round e (Some sid) db) = Success r c)
  (Hst : global_stamped (now e) db)
  (Hfresh : ~ In (new_session_id e) (map s_id (roast_sessions db))) :
  exists g,
    latest_global (final (complete_live_round e (Some sid) db)) = Some g
    /\ g_updated_at g = now e
    /\ g_current_roast_index g = 0
    /\ match g_session_id g with
       | None => g_round_state g = RoundState.WAITING
       | Some a =>
           exists st,
             status_of a (final (complete_live_round e (Some sid) db)) = Some st
             /\ g_round_state g = roundState_of_status st
       end.
Proof.
  destruct (complete_live_round_shape e sid db r c Hres) as (s0 & rows & _ & Hfire & Hens & ->).
  cbv zeta in Hens.
  set (d2 := set_global rows _) in *.
  apply (fire_triggers_success (now e) sid) in Hfire;
    [| intros m Hm; apply filter_In in Hm; exact (proj2 Hm)].
  destruct Hst as [Hnd Hle].
  destruct (advanced_rows_stamped (now e) sid
              (List.length (List.filter (leftover sid) (roast_messages db)))
              (global_round_state db) Hnd Hle) as [Hnd2 Hle2].
  rewrite <- Hfire in Hnd2, Hle2.
  destruct (ensure_next_session_shape e sid d2 r c Hens)
    as [-> [(a & rest & dd & Hact & Hfind & -> & ->) | [(Hact & Hps & -> & ->) | (p & Hact & Hnth & -> & ->)]]].
  - destruct (upsert_rows_latest (now e) (new_global_id e) (Some (s_id a))
                (roundState_of_status (s_status dd)) (count_unused (s_id a) d2)
                (s_lock_time dd)
                (if Status.eqb (s_status dd) Status.LIVE then Some (now e) else None)
                rows Hnd2 Hle2) as (g & Hg & Heq & _).
    exists g. split; [exact Hg |]. rewrite Heq. simpl. split; [reflexivity |].
    split; [reflexivity |]. exists (s_status dd). split; [| reflexivity].
    unfold status_of. change (find_session (s_id a) (set_global _ d2))
      with (find_session (s_id a) d2). rewrite Hfind. reflexivity.
  - destruct (upsert_rows_latest (now e) (new_global_id e) None RoundState.WAITING 0 None None
                rows Hnd2 Hle2) as (g & Hg & Heq & _).
    exists g. split; [exact Hg |]. rewrite Heq. simpl. repeat split.
  - destruct (upsert_rows_latest (now e) (new_global_id e) (Some (new_session_id e))
                RoundState.SUBMITTING (count_unused (new_session_id e) d2)
                (Some (now e + 2 * 60 * 1000)) None rows Hnd2 Hle2) as (g & Hg & Heq & _).
    exists g. split; [exact Hg |]. rewrite Heq. simpl. split; [reflexivity |].
    split; [reflexivity |]. exists Status.OPEN. split; [| reflexivity].
    unfold status_of, find_session. simpl.
    rewrite (find_app_fresh (new_session_id e) _ (successor_session e p)).
    + reflexivity.
    + rewrite map_same_ids; [exact Hfresh | apply after_archive_id].
    + reflexivity.
Qed.

Lemma complete_live_round_global_agrees_witness :
  exists g,
    latest_global (final (complete_live_round (mkEnv 30000 1 9 8) (Some 1%nat)
                            store_live_leftover)) = Some g
    /\ g_updated_at g = now (mkEnv 30000 1 9 8)
    /\ g_current_roast_index g = 0
    /\ match g_session_id g with
       | None => g_round_state g = RoundState.WAITING
       | Some a =>
           exists st,
             status_of a (final (complete_live_round (mkEnv 30000 1 9 8) (Some 1%nat)
                                   store_live_leftover)) = Some st
             /\ g_round_state g = roundState_of_status st
       end.
Proof.
  apply (complete_live_round_global_agrees (mkEnv 30000 1 9 8) 1 store_live_leftover
           1 (Some 9%nat)).
  - reflexivity.
  - stamped.
  - simpl. intuition discriminate.
Defined.

(** ** Submissions and the lock time *)

Lemma exists_by_unique_id (C : Session -> Session) (q : Session -> bool)
      (l : list Session) (r : Session) :
  (forall s, s_id (C s) = s_id s) ->
  List.NoDup (map s_id l) -> In r l ->
  existsb (fun s => by_id (s_id r) s && q s) (map C l) = q (C r).
Proof.
  intros HC Hnd Hr. destruct (q (C r)) eqn:Hq.
  - apply existsb_exists. exists (C r). split; [apply in_map; exact Hr |].
    unfold by_id. rewrite HC, Nat.eqb_refl, Hq. reflexivity.
  - destruct (existsb _ _) eqn:He; [| reflexivity].
    apply existsb_exists in He. destruct He as (s' & Hin & Hp).
    apply in_map_iff in Hin. destruct Hin as (s & <- & Hs).
    apply andb_true_iff in Hp. destruct Hp as [Hid Hqs].
    unfold by_id in Hid. rewrite HC in Hid. apply Nat.eqb_eq in Hid.
    assert (s = r) by (apply (NoDup_map_eq s_id l); assumption).
    subst s. congruence.
Qed.

Lemma controller_row_open t cnt r lockTime :
  s_status r = Status.OPEN -> s_lock_time r = Some lockTime ->
  Status.eqb (s_status (controller_row t cnt r)) Status.OPEN = (t <? lockTime).
Proof.
  intros Hst Hl.
  unfold controller_row, pass_archive, pass_live, pass_lock, stalled.
  repeat rewrite ?row_if_lock, ?row_if_id, ?row_if_status.
  rewrite Hst, Hl. cbn [opt_leb Status.eqb andb].
  destruct (Z.leb_spec lockTime t) as [Ha|Ha], (Z.ltb_spec t lockTime) as [Hb|Hb]; try lia.
  - cbn [Status.eqb andb]. destruct (lockTime <=? t - 10 * 1000); cbn [Status.eqb andb].
    + destruct (_ && _); reflexivity.
    + reflexivity.
  - reflexivity.
Qed.

(** X10. The controller closes submissions at the lock time: for an OPEN
    session with a lock time, a submission made after a controller run at
    clock t is accepted exactly when t is before the lock time; from the
    lock time on the insert policy refuses it. *)
Theorem submissions_close_at_lock_time (t : Z) (gid : uuid) (db : DB) (r : Session)
  (lockTime : Z) (new_id : uuid) (t' : Z) (audio_url transcript : option string)
  (Hids : List.NoDup (map s_id (roast_sessions db)))
  (Hr : In r (roast_sessions db))
  (Hopen : s_status r = Status.OPEN)
  (Hlock : s_lock_time r = Some lockTime) :
  (exists db', submit_message new_id t' (s_id r) audio_url transcript
                 (final (session_manager t gid db)) = Some db')
  <-> t < lockTime.
Proof.
  destruct (session_manager_rows t gid db Hids) as [Hs _].
  unfold submit_message, policy_insert_check. cbn [m_session_id]. rewrite Hs.
  rewrite (exists_by_unique_id (controller_row t (fun id => count_unused id db))
             (fun s => Status.eqb (s_status s) Status.OPEN) _ r
             (controller_row_id t _) Hids Hr).
  rewrite (controller_row_open t _ r lockTime Hopen Hlock).
  destruct (Z.ltb_spec t lockTime) as [Hlt|Hge].
  - split; [intros _; exact Hlt | intros _; eexists; reflexivity].
  - split; [intros [db' Hd]; discriminate | lia].
Qed.

Lemma submissions_close_at_lock_time_witness :
  (exists db', submit_message 6 130000 (s_id (session_row 1 "ada" Status.OPEN 120000))
                 None (Some "late"%string) (final (session_manager 125000 7 store_open_submission))
               = Some db')
  <-> 125000 < 120000.
Proof.
  apply (submissions_close_at_lock_time 125000 7 store_open_submission
           (session_row 1 "ada" Status.OPEN 120000) 120000 6 130000 None (Some "late"%string)).
  - nodup_ids.
  - left. reflexivity.
  - reflexivity.
  - reflexivity.
Defined.

(** ** The playback scheduler: bounds and completion *)

Section SchedulerBounds.
Variable session_id : uuid.
Variable messages : list Message.
Variable T0 : list Exchange.

Lemma tick_call_bound clock s i :
  tick_call messages clock s = Some i -> (i < List.length messages)%nat.
Proof.
  unfold tick_call.
  destruct (negb (schedulerInterval s)); [discriminate |].
  destruct (negb (mountedRef s) || negb (playingRef s)); [discriminate |].
  destruct (pausedRef s); [discriminate |].
  destruct (due_index messages (clock - liveStartTimeRef s) s) as [d|] eqn:Hd;
    [| discriminate].
  destruct (currentlyProcessingRef s); [discriminate |].
  intros [= <-]. unfold due_index in Hd. apply find_seq_least in Hd. lia.
Qed.

Lemma clear_interval_fields s :
  playingRef (clear_interval_if_done messages s) = playingRef s
  /\ started (clear_interval_if_done messages s) = started s.
Proof. unfold clear_interval_if_done. destruct (_ && _); split; reflexivity. Qed.

Lemma tick_fields clock s :
  playingRef (tick messages clock s) = playingRef s
  /\ (started (tick messages clock s) = started s
      \/ (exists i, tick_call messages clock s = Some i
                    /\ started (tick messages clock s) = started s ++ [i])).
Proof.
  unfold tick.
  destruct (negb (schedulerInterval s)); [split; [| left]; reflexivity |].
  destruct (negb (mountedRef s) || negb (playingRef s)) eqn:Hdead;
    [split; [| left]; reflexivity |].
  destruct (pausedRef s); [split; [| left]; reflexivity |].
  destruct (clear_interval_fields
              match tick_call messages clock s with
              | Some i => processRoast i s
              | None => s
              end) as [-> ->].
  destruct (tick_call messages clock s) as [i|]; [| split; [| left]; reflexivity].
  unfold processRoast. rewrite Hdead.
  destruct (currentlyProcessingRef s); simpl; split; try reflexivity.
  - left. reflexivity.
  - right. exists i. split; reflexivity.
Qed.

Lemma not_suspended_when_idle idx a s :
  in_flight s = [] -> suspended_at idx a s = false.
Proof. unfold suspended_at. intros ->. reflexivity. Qed.

Lemma bounds_start clock : sched_bounds session_id messages T0 (startTimestampScheduler clock T0).
Proof.
  split; [apply inv_start |]. split; [simpl; lia |]. simpl. discriminate.
Qed.

Lemma bounds_step s ev :
  sched_bounds session_id messages T0 s ->
  sched_bounds session_id messages T0 (step session_id messages s ev).
Proof.
  intros (Hinv & Hlen & Hdone).
  split; [apply inv_step; exact Hinv |].
  destruct ev as [clock | idx | idx | idx | b |]; simpl.
  - destruct (tick_fields clock s) as [Hp [Hs | (i & Hc & Hs)]]; rewrite Hp, Hs.
    + split; [exact Hlen |]. intros Hf. specialize (Hdone Hf).
      destruct Hdone as (Hc & Hfl & Hst & Hex).
      unfold tick. rewrite Hf.
      destruct (negb (schedulerInterval s)); [repeat split; assumption |].
      rewrite orb_true_r. repeat split; assumption.
    + pose proof (tick_call_bound _ _ _ Hc) as Hb.
      destruct (tick_call_next _ _ _ _ _ _ Hinv Hc) as (-> & _ & _ & Hplay).
      split; [rewrite length_app; simpl; lia |]. congruence.
  - destruct (suspended_at idx AwaitRoast s) eqn:Hs; [| tauto].
    assert (Hplay : playingRef s = true).
    { destruct (playingRef s) eqn:Hp; [reflexivity |].
      destruct (Hdone eq_refl) as (_ & Hfl & _).
      rewrite (not_suspended_when_idle _ _ _ Hfl) in Hs. discriminate. }
    unfold after_roast. destruct (negb (mountedRef s) || negb (playingRef s)); simpl;
      (split; [exact Hlen | congruence]).
  - destruct (suspended_at idx AwaitResponse s) eqn:Hs; [| tauto].
    assert (Hplay : playingRef s = true).
    { destruct (playingRef s) eqn:Hp; [reflexivity |].
      destruct (Hdone eq_refl) as (_ & Hfl & _).
      rewrite (not_suspended_when_idle _ _ _ Hfl) in Hs. discriminate. }
    unfold after_response. simpl. split; [exact Hlen | congruence].
  - destruct (suspended_at idx AwaitCleanup s) eqn:Hs; [| tauto].
    destruct (suspended_inv _ _ _ _ _ _ Hinv Hs) as [Hcp Hin].
    assert (Hplay : playingRef s = true).
    { destruct (playingRef s) eqn:Hp; [reflexivity |].
      destruct (Hdone eq_refl) as (_ & Hfl & _). rewrite Hfl in Hin. discriminate. }
    unfold after_cleanup.
    destruct (Z.eqb_spec (Z.of_nat idx) (Z.of_nat (List.length messages) - 1)) as [Hlast|_];
      simpl; (split; [exact Hlen |]); [| congruence].
    intros _. destruct Hinv as (Hst & _ & Hfl). rewrite Hcp, Hin in Hfl.
    destruct Hfl as (_ & Hk & Hex).
    assert (Hn : List.length (started s) = List.length messages) by lia.
    unfold stopped_complete. simpl. rewrite Hin. simpl. rewrite Nat.eqb_refl. simpl.
    rewrite <- Hn. repeat split; assumption.
  - split; [exact Hlen |]. exact Hdone.
  - split; [exact Hlen |]. exact Hdone.
Qed.

Lemma bounds_run evs s :
  sched_bounds session_id messages T0 s ->
  sched_bounds session_id messages T0 (run session_id messages evs s).
Proof.
  revert s. induction evs as [|ev evs IH]; intros s H; simpl; [assumption |].
  apply IH, bounds_step, H.
Qed.
End SchedulerBounds.

Lemma nth_error_map_seq {A} (f : nat -> A) (m : nat) : forall (a i : nat),
  (i < m)%nat -> nth_error (map f (seq a m)) i = Some (f (a + i)%nat).
Proof.
  induction m as [|m IH]; intros a i Hi; [lia |].
  destruct i as [|i]; simpl.
  - rewrite Nat.add_0_r. reflexivity.
  - rewrite IH by lia. f_equal. f_equal. lia.
Qed.

(** X11. Playback stops only with the whole queue played: in any run,
    whatever events arrive, once the playing flag is off nothing is in
    flight, every index of the queue was started, in order, and the row of
    every message has been saved. *)
Theorem playback_stops_only_when_complete
  (session_id : uuid) (messages : list Message) (clock0 : Z) (T0 : list Exchange)
  (evs : list Event)
  (Hoff : playingRef (run session_id messages evs (startTimestampScheduler clock0 T0)) = false) :
  in_flight (run session_id messages evs (startTimestampScheduler clock0 T0)) = []
  /\ started (run session_id messages evs (startTimestampScheduler clock0 T0))
     = seq 0 (List.length messages)
  /\ exchanges (run session_id messages evs (startTimestampScheduler clock0 T0))
     = T0 ++ saved_rows session_id messages (List.length messages).
Proof.
  destruct (bounds_run session_id messages T0 evs _
              (bounds_start session_id messages T0 clock0)) as (_ & _ & Hdone).
  destruct (Hdone Hoff) as (_ & Hfl & Hst & Hex). repeat split; assumption.
Qed.

Lemma playback_stops_only_when_complete_witness :
  in_flight (run 1 queue_of_one one_roast_events (startTimestampScheduler 0 [])) = []
  /\ started (run 1 queue_of_one one_roast_events (startTimestampScheduler 0 []))
     = seq 0 (List.length queue_of_one)
  /\ exchanges (run 1 queue_of_one one_roast_events (startTimestampScheduler 0 []))
     = [] ++ saved_rows 1 queue_of_one (List.length queue_of_one).
Proof.
  apply (playback_stops_only_when_complete 1 queue_of_one 0 [] one_roast_events).
  reflexivity.
Defined.

(** X12. Every row a run saves belongs to a message of the queue, and the
    hosts alternate: the run has saved the rows of the first m messages for
    some m up to the queue length, and the row of index i carries the id of
    message i, host A when i is even and host B when it is odd, and sequence
    number i+1. *)
Theorem run_saves_rows_of_queue_messages
  (session_id : uuid) (messages : list Message) (clock0 : Z) (T0 : list Exchange)
  (evs : list Event) :
  exists m : nat,
    (m <= List.length messages)%nat
    /\ exchanges (run session_id messages evs (startTimestampScheduler clock0 T0))
       = T0 ++ saved_rows session_id messages m
    /\ forall i : nat, (i < m)%nat ->
         exists msg,
           nth_error messages i = Some msg
           /\ nth_error (saved_rows session_id messages m) i
              = Some (mkExchange session_id (Some (m_id msg))
                                 (if Nat.even i then HostA else HostB) (Z.of_nat i + 1)).
Proof.
  destruct (bounds_run session_id messages T0 evs _
              (bounds_start session_id messages T0 clock0)) as (Hinv & Hlen & _).
  destruct (inv_saved _ _ _ _ Hinv) as (m & Hm & Hex).
  exists m. split; [lia |]. split; [exact Hex |].
  intros i Hi. destruct (nth_error messages i) as [msg|] eqn:Hnth.
  - exists msg. split; [reflexivity |]. unfold saved_rows.
    rewrite nth_error_map_seq by exact Hi. simpl. unfold exchange_of, hostType_of.
    rewrite Hnth. reflexivity.
  - apply nth_error_None in Hnth. lia.
Qed.

Lemma find_seq_first (P : nat -> bool) (n : nat) : forall (a i : nat),
  (a <= i < a + n)%nat -> P i = true -> (forall j, (a <= j < i)%nat -> P j = false) ->
  List.find P (seq a n) = Some i.
Proof.
  induction n as [|n IH]; intros a i Hi Hp Hmin; [lia |]. simpl.
  destruct (Nat.eq_dec a i) as [-> | Hne].
  - rewrite Hp. reflexivity.
  - rewrite (Hmin a) by lia. apply IH; [lia | exact Hp |]. intros j Hj. apply Hmin. lia.
Qed.

Section SchedulerPass.
Variable session_id : uuid.
Variable messages : list Message.
Variable T0 : list Exchange.
Variable t0 : Z.
Variable clock_at : nat -> Z.

Lemma ready_start : ready_for session_id messages T0 t0 0 (startTimestampScheduler t0 T0).
Proof.
  unfold ready_for, startTimestampScheduler, saved_rows. simpl. rewrite app_nil_r.
  repeat split; try reflexivity; intros H; [set_solver | lia].
Qed.

Lemma due_index_next i clock s :
  (forall j : nat, j ∈ roastProcessedRef s <-> (j < i)%nat) ->
  (i < List.length messages)%nat ->
  Z.of_nat i * BASE_DELAY_PER_ROAST <= clock ->
  due_index messages clock s = Some i.
Proof.
  intros Hpr Hi Hdue. unfold due_index. apply find_seq_first; [lia | |].
  - apply andb_true_iff. split; [apply Z.leb_le; exact Hdue |].
    unfold in_processed. rewrite negb_true_iff, bool_decide_eq_false, Hpr. lia.
  - intros j Hj. apply andb_false_iff. right.
    unfold in_processed. rewrite negb_false_iff, bool_decide_eq_true, Hpr. lia.
Qed.

(** The refs after index [i] was played to its end from a view with
    nothing in flight. *)
Lemma pass_one_state i pr ex st :
  due_index messages (clock_at i - t0)
            (mkSched true true false true t0 pr None ex [] st) = Some i ->
  run session_id messages (pass_events clock_at i)
      (mkSched true true false true t0 pr None ex [] st)
  = if Z.of_nat i =? Z.of_nat (List.length messages) - 1
    then mkSched true false false false t0 ({[i]} ∪ pr) None
                 (ex ++ [exchange_of session_id messages i]) [] (st ++ [i])
    else mkSched true true false true t0 ({[i]} ∪ pr) None
                 (ex ++ [exchange_of session_id messages i]) [] (st ++ [i]).
Proof.
  intros Hd. unfold pass_events, run. cbn [fold_left].
  assert (H1 : step session_id messages (mkSched true true false true t0 pr None ex [] st)
                    (Tick (clock_at i))
               = mkSched true true false true t0 ({[i]} ∪ pr) (Some i) ex
                         [(i, AwaitRoast)] (st ++ [i])).
  { cbn [step]. unfold tick, tick_call.
    cbn [schedulerInterval mountedRef playingRef pausedRef negb orb
         currentlyProcessingRef liveStartTimeRef].
    rewrite Hd. unfold processRoast, clear_interval_if_done.
    cbn [schedulerInterval mountedRef playingRef pausedRef negb orb
         currentlyProcessingRef liveStartTimeRef roastProcessedRef exchanges in_flight started].
    rewrite andb_false_r. reflexivity. }
  rewrite H1. clear H1.
  assert (H2 : step session_id messages
                    (mkSched true true false true t0 ({[i]} ∪ pr) (Some i) ex
                             [(i, AwaitRoast)] (st ++ [i])) (RoastPlayed i)
               = mkSched true true false true t0 ({[i]} ∪ pr) (Some i) ex
                         [(i, AwaitResponse)] (st ++ [i])).
  { cbn [step]. unfold suspended_at, after_roast, move_activation.
    cbn [in_flight existsb map mountedRef playingRef negb orb pausedRef schedulerInterval
         liveStartTimeRef roastProcessedRef currentlyProcessingRef exchanges started].
    rewrite Nat.eqb_refl. reflexivity. }
  rewrite H2. clear H2.
  assert (H3 : step session_id messages
                    (mkSched true true false true t0 ({[i]} ∪ pr) (Some i) ex
                             [(i, AwaitResponse)] (st ++ [i])) (ResponsePlayed i)
               = mkSched true true false true t0 ({[i]} ∪ pr) (Some i)
                         (ex ++ [exchange_of session_id messages i])
                         [(i, AwaitCleanup)] (st ++ [i])).
  { cbn [step]. unfold suspended_at, after_response, move_activation, saveExchange.
    cbn [in_flight existsb map mountedRef playingRef negb orb pausedRef schedulerInterval
         liveStartTimeRef roastProcessedRef currentlyProcessingRef exchanges started].
    rewrite Nat.eqb_refl. reflexivity. }
  rewrite H3. clear H3.
  cbn [step]. unfold suspended_at, after_cleanup, drop_activation, finishPlayback.
  cbn [in_flight existsb List.filter mountedRef playingRef negb orb pausedRef schedulerInterval
       liveStartTimeRef roastProcessedRef currentlyProcessingRef exchanges started].
  rewrite Nat.eqb_refl. cbn [andb orb negb].
  destruct (Z.of_nat i =? Z.of_nat (List.length messages) - 1); reflexivity.
Qed.

(** One index played to its end from a ready view. *)
Lemma pass_one i s :
  ready_for session_id messages T0 t0 i s ->
  (i < List.length messages)%nat ->
  t0 + Z.of_nat i * BASE_DELAY_PER_ROAST <= clock_at i ->
  (S i < List.length messages ->
     ready_for session_id messages T0 t0 (S i)
               (run session_id messages (pass_events clock_at i) s))%nat
  /\ (S i = List.length messages ->
        playingRef (run session_id messages (pass_events clock_at i) s) = false
        /\ schedulerInterval (run session_id messages (pass_events clock_at i) s) = false
        /\ currentlyProcessingRef (run session_id messages (pass_events clock_at i) s) = None
        /\ in_flight (run session_id messages (pass_events clock_at i) s) = []
        /\ started (run session_id messages (pass_events clock_at i) s) = seq 0 (S i)
        /\ exchanges (run session_id messages (pass_events clock_at i) s)
           = T0 ++ saved_rows session_id messages (S i)).
Proof.
  intros (Hm & Hp & Hpa & Hint & Hl & Hpr & Hc & Hex & Hfl & Hst) Hi Hdue.
  assert (Hd : due_index messages (clock_at i - liveStartTimeRef s) s = Some i)
    by (apply due_index_next; [exact Hpr | exact Hi | lia]).
  destruct s as [mo pl pa iv ls pr cu ex fl st].
  cbn [mountedRef playingRef pausedRef schedulerInterval liveStartTimeRef roastProcessedRef
       currentlyProcessingRef exchanges in_flight started]
    in Hm, Hp, Hpa, Hint, Hl, Hpr, Hc, Hex, Hfl, Hst, Hd.
  subst. rewrite (pass_one_state i pr _ _ Hd).
  destruct (Z.eqb_spec (Z.of_nat i) (Z.of_nat (List.length messages) - 1)) as [Hlast|Hmore].
  - split; [intros; lia |]. intros _.
    cbn [mountedRef playingRef pausedRef schedulerInterval liveStartTimeRef roastProcessedRef
         currentlyProcessingRef exchanges in_flight started].
    rewrite saved_rows_S, seq_S, app_assoc. repeat split; reflexivity.
  - split; [| intros; lia]. intros _. unfold ready_for.
    cbn [mountedRef playingRef pausedRef schedulerInterval liveStartTimeRef roastProcessedRef
         currentlyProcessingRef exchanges in_flight started].
    rewrite saved_rows_S, seq_S, app_assoc.
    repeat split; try reflexivity.
    + intros Hj. apply elem_of_union in Hj. destruct Hj as [Hj | Hj].
      * apply elem_of_singleton in Hj. lia.
      * apply Hpr in Hj. lia.
    + intros Hj. apply elem_of_union.
      destruct (Nat.eq_dec j i) as [-> | Hne];
        [left; apply elem_of_singleton; reflexivity | right; apply Hpr; lia].
Qed.

Lemma run_app evs1 evs2 s :
  run session_id messages (evs1 ++ evs2) s
  = run session_id messages evs2 (run session_id messages evs1 s).
Proof. unfold run. apply fold_left_app. Qed.

Lemma full_pass_S k :
  full_pass clock_at (S k) = full_pass clock_at k ++ pass_events clock_at k.
Proof. unfold full_pass. rewrite seq_S, flat_map_app. reflexivity. Qed.

Lemma ready_prefix k :
  (forall i, (i < List.length messages)%nat ->
     t0 + Z.of_nat i * BASE_DELAY_PER_ROAST <= clock_at i) ->
  (k < List.length messages)%nat ->
  ready_for session_id messages T0 t0 k
            (run session_id messages (full_pass clock_at k) (startTimestampScheduler t0 T0)).
Proof.
  intros Hclock. induction k as [|k IH]; intros Hk.
  - apply ready_start.
  - rewrite full_pass_S, run_app.
    apply (pass_one k); [apply IH; lia | lia | apply Hclock; lia | exact Hk].
Qed.
End SchedulerPass.

(** X13. An undisturbed run plays the whole queue: on a non-empty queue,
    when for each index in turn a tick arrives no earlier than 15 seconds
    times the index after the start and its roast, response and closing
    pause finish, the run saves the row of every message in queue order,
    then turns the playing flag off and clears the interval, with nothing
    left in flight. *)
Theorem full_pass_plays_whole_queue
  (session_id : uuid) (messages : list Message) (T0 : list Exchange) (t0 : Z)
  (clock_at : nat -> Z)
  (Hqueue : (0 < List.length messages)%nat)
  (Hclock : forall i, (i < List.length messages)%nat ->
              t0 + Z.of_nat i * BASE_DELAY_PER_ROAST <= clock_at i) :
  exchanges (run session_id messages (full_pass clock_at (List.length messages))
                 (startTimestampScheduler t0 T0))
  = T0 ++ saved_rows session_id messages (List.length messages)
  /\ started (run session_id messages (full_pass clock_at (List.length messages))
                  (startTimestampScheduler t0 T0))
     = seq 0 (List.length messages)
  /\ playingRef (run session_id messages (full_pass clock_at (List.length messages))
                     (startTimestampScheduler t0 T0)) = false
  /\ schedulerInterval (run session_id messages (full_pass clock_at (List.length messages))
                            (startTimestampScheduler t0 T0)) = false
  /\ in_flight (run session_id messages (full_pass clock_at (List.length messages))
                    (startTimestampScheduler t0 T0)) = [].
Proof.
  destruct (List.length messages) as [|k] eqn:Hn; [lia |].
  rewrite full_pass_S, run_app.
  destruct (pass_one session_id messages T0 t0 clock_at k
              (run session_id messages (full_pass clock_at k) (startTimestampScheduler t0 T0)))
    as [_ Hlast].
  - apply ready_prefix; [rewrite Hn; exact Hclock | lia].
  - lia.
  - apply Hclock. lia.
  - rewrite Hn in Hlast. destruct (Hlast eq_refl) as (Hp & Hi & _ & Hfl & Hst & Hex).
    repeat split; assumption.
Qed.

Lemma full_pass_plays_whole_queue_witness :
  exchanges (run 1 queue_of_one (full_pass (fun _ => 0) (List.length queue_of_one))
                 (startTimestampScheduler 0 []))
  = [] ++ saved_rows 1 queue_of_one (List.length queue_of_one)
  /\ started (run 1 queue_of_one (full_pass (fun _ => 0) (List.length queue_of_one))
                  (startTimestampScheduler 0 []))
     = seq 0 (List.length queue_of_one)
  /\ playingRef (run 1 queue_of_one (full_pass (fun _ => 0) (List.length queue_of_one))
                     (startTimestampScheduler 0 [])) = false
  /\ schedulerInterval (run 1 queue_of_one (full_pass (fun _ => 0) (List.length queue_of_one))
                            (startTimestampScheduler 0 [])) = false
  /\ in_flight (run 1 queue_of_one (full_pass (fun _ => 0) (List.length queue_of_one))
                    (startTimestampScheduler 0 [])) = [].
Proof.
  apply (full_pass_plays_whole_queue 1 queue_of_one [] 0 (fun _ => 0)).
  - simpl. lia.
  - intros i Hi. simpl in Hi. assert (i = 0%nat) by lia. subst i. simpl. lia.
Defined.

(** ** The playback scheduler: unmounting and pausing *)

Section SchedulerHalt.
Variable session_id : uuid.
Variable messages : list Message.
Variable T0 : list Exchange.

Lemma tick_halted clock s :
  mountedRef s = false \/ pausedRef s = true ->
  started (tick messages clock s) = started s
  /\ mountedRef (tick messages clock s) = mountedRef s
  /\ pausedRef (tick messages clock s) = pausedRef s.
Proof.
  intros H. unfold tick.
  destruct (negb (schedulerInterval s)).
  { repeat split. }
  destruct (negb (mountedRef s) || negb (playingRef s)) eqn:Hdead.
  { repeat split. }
  destruct (pausedRef s) eqn:Hp.
  { rewrite Hp. repeat split. }
  exfalso. destruct H as [H | H]; [| discriminate H].
  rewrite H in Hdead. discriminate Hdead.
Qed.

Lemma step_halted s ev :
  mountedRef s = false \/ pausedRef s = true ->
  keeps_pause ev = true \/ mountedRef s = false ->
  started (step session_id messages s ev) = started s
  /\ (mountedRef (step session_id messages s ev) = false
      \/ pausedRef (step session_id messages s ev) = true)
  /\ (mountedRef s = false -> mountedRef (step session_id messages s ev) = false).
Proof.
  intros H Hev. destruct ev as [clock | idx | idx | idx | b |]; simpl.
  - destruct (tick_halted clock s H) as (-> & -> & ->). tauto.
  - destruct (suspended_at idx AwaitRoast s); [| tauto].
    unfold after_roast. destruct (negb (mountedRef s) || negb (playingRef s)); simpl; tauto.
  - destruct (suspended_at idx AwaitResponse s); [| tauto]. simpl. tauto.
  - destruct (suspended_at idx AwaitCleanup s); [| tauto].
    unfold after_cleanup, finishPlayback. destruct (_ =? _); simpl; tauto.
  - split; [reflexivity |]. split; [| tauto].
    destruct b; [right; reflexivity |].
    destruct Hev as [Hev | Hev]; [discriminate Hev | left; exact Hev].
  - split; [reflexivity |]. split; [left; reflexivity | reflexivity].
Qed.

Lemma run_unmounted evs : forall s,
  mountedRef s = false ->
  started (run session_id messages evs s) = started s.
Proof.
  induction evs as [|ev evs IH]; intros s Hm; [reflexivity |]. simpl.
  destruct (step_halted s ev (or_introl Hm) (or_intror Hm)) as (Hst & _ & Hm').
  change (fold_left (step session_id messages) evs (step session_id messages s ev))
    with (run session_id messages evs (step session_id messages s ev)).
  rewrite IH by (apply Hm'; exact Hm). exact Hst.
Qed.

Lemma run_paused evs : forall s,
  mountedRef s = false \/ pausedRef s = true ->
  forallb keeps_pause evs = true ->
  started (run session_id messages evs s) = started s.
Proof.
  induction evs as [|ev evs IH]; intros s Hh Hk; [reflexivity |]. simpl in *.
  apply andb_true_iff in Hk. destruct Hk as [Hev Hk].
  destruct (step_halted s ev Hh (or_introl Hev)) as (Hst & Hh' & _).
  change (fold_left (step session_id messages) evs (step session_id messages s ev))
    with (run session_id messages evs (step session_id messages s ev)).
  rewrite IH by assumption. exact Hst.
Qed.

Lemma tick_exchanges clock s : exchanges (tick messages clock s) = exchanges s.
Proof.
  unfold tick.
  destruct (negb (schedulerInterval s)); [reflexivity |].
  destruct (negb (mountedRef s) || negb (playingRef s)) eqn:Hdead; [reflexivity |].
  destruct (pausedRef s); [reflexivity |].
  unfold clear_interval_if_done.
  assert (He : exchanges match tick_call messages clock s with
                         | Some i => processRoast i s
                         | None => s
                         end = exchanges s).
  { destruct (tick_call messages clock s); [| reflexivity].
    unfold processRoast. rewrite Hdead. destruct (currentlyProcessingRef s); reflexivity. }
  destruct (_ && _); simpl; exact He.
Qed.

Lemma step_exchanges s ev :
  (List.length (exchanges s)
   <= List.length (exchanges (step session_id messages s ev)))%nat.
Proof.
  destruct ev as [clock | idx | idx | idx | b |]; simpl; try lia.
  - rewrite tick_exchanges. lia.
  - destruct (suspended_at idx AwaitRoast s); [| lia].
    unfold after_roast. destruct (_ || _); simpl; lia.
  - destruct (suspended_at idx AwaitResponse s); [| lia].
    unfold after_response, saveExchange. simpl. rewrite length_app. lia.
  - destruct (suspended_at idx AwaitCleanup s); [| lia].
    unfold after_cleanup, finishPlayback. destruct (_ =? _); simpl; lia.
Qed.

Lemma run_exchanges evs : forall s,
  (List.length (exchanges s) <= List.length (exchanges (run session_id messages evs s)))%nat.
Proof.
  induction evs as [|ev evs IH]; intros s; simpl; [lia |].
  etransitivity; [apply (step_exchanges s ev) |]. apply IH.
Qed.

Lemma inv_saved_within s :
  sched_inv session_id messages T0 s ->
  exists m, (m <= List.length (started s) <= S m)%nat
            /\ exchanges s = T0 ++ saved_rows session_id messages m.
Proof.
  intros (_ & _ & Hfl).
  destruct (currentlyProcessingRef s), (in_flight s) as [|[j a] [|? ?]];
    try contradiction.
  - destruct Hfl as (-> & Hk & He). destruct a; eexists; (split; [| exact He]); lia.
  - destruct Hfl as [He | (m & Hm & He & _)]; eexists; (split; [| exact He]); lia.
Qed.

Lemma saved_rows_length m : List.length (saved_rows session_id messages m) = m.
Proof. unfold saved_rows. rewrite length_map, length_seq. reflexivity. Qed.

(** Once no further roast starts, at most the row of the one in flight is
    still saved. *)
Lemma halted_rows clock0 evs evs' :
  started (run session_id messages (evs ++ evs') (startTimestampScheduler clock0 T0))
  = started (run session_id messages evs (startTimestampScheduler clock0 T0)) ->
  (List.length (exchanges (run session_id messages evs (startTimestampScheduler clock0 T0)))
   <= List.length (exchanges (run session_id messages (evs ++ evs')
                                  (startTimestampScheduler clock0 T0)))
   <= List.length (exchanges (run session_id messages evs (startTimestampScheduler clock0 T0)))
      + 1)%nat.
Proof.
  intros Hst. split.
  - rewrite run_app. apply run_exchanges.
  - pose proof (inv_run session_id messages T0 evs _ (inv_start session_id messages T0 clock0))
      as H1.
    pose proof (inv_run session_id messages T0 (evs ++ evs') _
                        (inv_start session_id messages T0 clock0)) as H2.
    destruct (inv_saved_within _ H1) as (m1 & Hm1 & ->).
    destruct (inv_saved_within _ H2) as (m2 & Hm2 & ->).
    rewrite Hst in Hm2. rewrite !length_app, !saved_rows_length. lia.
Qed.
End SchedulerHalt.

(** X14. After the view unmounts, whatever events still arrive, no further
    roast is started; the exchange table keeps its rows and gains at most one
    more, the row of the roast that was in flight. *)
Theorem unmount_starts_nothing
  (session_id : uuid) (messages : list Message) (clock0 : Z) (T0 : list Exchange)
  (evs evs' : list Event) :
  started (run session_id messages (evs ++ Unmount :: evs') (startTimestampScheduler clock0 T0))
  = started (run session_id messages evs (startTimestampScheduler clock0 T0))
  /\ (List.length (exchanges (run session_id messages evs (startTimestampScheduler clock0 T0)))
      <= List.length (exchanges (run session_id messages (evs ++ Unmount :: evs')
                                     (startTimestampScheduler clock0 T0)))
      <= List.length (exchanges (run session_id messages evs
                                     (startTimestampScheduler clock0 T0))) + 1)%nat.
Proof.
  assert (Hst : started (run session_id messages (evs ++ Unmount :: evs')
                             (startTimestampScheduler clock0 T0))
                = started (run session_id messages evs (startTimestampScheduler clock0 T0))).
  { rewrite run_app. change (Unmount :: evs') with ([Unmount] ++ evs').
    rewrite run_app, run_unmounted; reflexivity. }
  split; [exact Hst |]. apply halted_rows. exact Hst.
Qed.

(** X15. While the run is paused no further roast is started: after a pause
    event, and as long as no event resumes it, the started indices stay as
    they were, and at most the row of the roast in flight is still saved. *)
Theorem pause_starts_nothing
  (session_id : uuid) (messages : list Message) (clock0 : Z) (T0 : list Exchange)
  (evs evs' : list Event)
  (Hkeep : forallb keeps_pause evs' = true) :
  started (run session_id messages (evs ++ SetPaused true :: evs')
               (startTimestampScheduler clock0 T0))
  = started (run session_id messages evs (startTimestampScheduler clock0 T0))
  /\ (List.length (exchanges (run session_id messages evs (startTimestampScheduler clock0 T0)))
      <= List.length (exchanges (run session_id messages (evs ++ SetPaused true :: evs')
                                     (startTimestampScheduler clock0 T0)))
      <= List.length (exchanges (run session_id messages evs
                                     (startTimestampScheduler clock0 T0))) + 1)%nat.
Proof.
  assert (Hst : started (run session_id messages (evs ++ SetPaused true :: evs')
                             (startTimestampScheduler clock0 T0))
                = started (run session_id messages evs (startTimestampScheduler clock0 T0))).
  { rewrite run_app. change (SetPaused true :: evs') with ([SetPaused true] ++ evs').
    rewrite run_app, run_paused; [reflexivity | right; reflexivity | exact Hkeep]. }
  split; [exact Hst |]. apply halted_rows. exact Hst.
Qed.

Lemma pause_starts_nothing_witness :
  started (run 1 queue_of_one ([Tick 0] ++ SetPaused true :: [RoastPlayed 0; Tick 20000])
               (startTimestampScheduler 0 []))
  = started (run 1 queue_of_one [Tick 0] (startTimestampScheduler 0 []))
  /\ (List.length (exchanges (run 1 queue_of_one [Tick 0] (startTimestampScheduler 0 [])))
      <= List.length (exchanges (run 1 queue_of_one
                                     ([Tick 0] ++ SetPaused true :: [RoastPlayed 0; Tick 20000])
                                     (startTimestampScheduler 0 [])))
      <= List.length (exchanges (run 1 queue_of_one [Tick 0]
                                     (startTimestampScheduler 0 []))) + 1)%nat.
Proof.
  apply (pause_starts_nothing 1 queue_of_one 0 [] [Tick 0] [RoastPlayed 0; Tick 20000]).
  reflexivity.
Defined.

(** ** The follower's audio offset *)



(** ** The next subject chosen by the watch view *)

(** X17. With the draws inside their arrays, forceNewKOL picks a persona of
    the table, and one whose username differs from the current session's
    subject whenever the table holds any such persona; only when every
    persona carries the current name is the subject repeated. *)
Theorem forceNewKOL_pick_differs (r1 r2 : nat) (persona_name : string) (ps : list Persona)
  (Hr1 : (r1 < List.length ps)%nat)
  (Hr2 : (r2 < List.length
                 (List.filter (fun p => negb (String.eqb (p_username p) persona_name)) ps))%nat
         \/ List.filter (fun p => negb (String.eqb (p_username p) persona_name)) ps = []) :
  exists p,
    forceNewKOL_pick r1 r2 persona_name ps = Some p
    /\ In p ps
    /\ ((exists q, In q ps /\ p_username q <> persona_name) -> p_username p <> persona_name).
Proof.
  unfold forceNewKOL_pick.
  destruct ps as [|p0 ps0] eqn:Hps; [simpl in Hr1; lia |]. rewrite <- Hps in *.
  set (filtered := List.filter (fun p => negb (String.eqb (p_username p) persona_name)) ps)
    in *.
  assert (Hsel : exists p, nth_error ps r1 = Some p /\ In p ps).
  { destruct (nth_error ps r1) as [p|] eqn:Hn.
    - exists p. split; [reflexivity |]. exact (nth_error_In _ _ Hn).
    - apply nth_error_None in Hn. lia. }
  assert (Hnone : filtered = [] -> forall q, In q ps -> p_username q = persona_name).
  { intros Hf q Hq. destruct (String.eqb (p_username q) persona_name) eqn:He.
    - apply String.eqb_eq. exact He.
    - assert (Hin : In q filtered) by (apply filter_In; rewrite He; tauto).
      rewrite Hf in Hin. destruct Hin. }
  destruct (Nat.ltb_spec 1 (List.length ps)) as [Hmany | Hone].
  - destruct (Nat.ltb_spec 0 (List.length filtered)) as [Hsome | Hempty].
    + destruct Hr2 as [Hr2 | Hr2]; [| rewrite Hr2 in Hsome; simpl in Hsome; lia].
      destruct (nth_error filtered r2) as [p|] eqn:Hn;
        [| apply nth_error_None in Hn; lia].
      exists p. split; [reflexivity |].
      apply nth_error_In, filter_In in Hn. destruct Hn as [Hin Hne].
      split; [exact Hin |]. intros _.
      apply negb_true_iff, String.eqb_neq in Hne. exact Hne.
    + destruct Hsel as (p & Hn & Hin). exists p. split; [exact Hn |]. split; [exact Hin |].
      intros (q & Hq & Hne). exfalso. apply Hne, Hnone; [| exact Hq].
      destruct filtered; [reflexivity | simpl in Hempty; lia].
  - destruct Hsel as (p & Hn & Hin). exists p. split; [exact Hn |]. split; [exact Hin |].
    intros (q & Hq & Hne).
    assert (q = p).
    { rewrite Hps in Hq, Hin, Hone. destruct ps0; [| simpl in Hone; lia].
      destruct Hq as [<- | []], Hin as [<- | []]. reflexivity. }
    subst q. exact Hne.
Qed.

Lemma forceNewKOL_pick_differs_witness :
  exists p,
    forceNewKOL_pick 0 0 "ada" [ada; bob] = Some p
    /\ In p [ada; bob]
    /\ ((exists q, In q [ada; bob] /\ p_username q <> "ada"%string)
        -> p_username p <> "ada"%string).
Proof.
  apply (forceNewKOL_pick_differs 0 0 "ada" [ada; bob]).
  - simpl. lia.
  - left. simpl. lia.
Defined.

(** ** The countdown display *)

(** X18. Whenever the countdown has a target (the lock time of an OPEN
    session, the start time of a LOCKED one), it shows nothing once the
    target is reached, and before that it shows the remaining whole seconds
    split into minutes and seconds below 60, whatever was shown before. *)
Theorem calculateTime_shows_remaining_seconds
  (status : Status.t) (lock_time start_time : option Z) (now : Z)
  (timeLeft : option (Z * Z)) (target : Z)
  (Htarget : targetTime status lock_time start_time = Some target) :
  (target <= now -> calculateTime status lock_time start_time now timeLeft = None)
  /\ (now < target ->
      exists minutes seconds,
        calculateTime status lock_time start_time now timeLeft = Some (minutes, seconds)
        /\ 0 <= minutes /\ 0 <= seconds < 60
        /\ minutes * 60 + seconds = (target - now) / 1000).
Proof.
  unfold calculateTime. rewrite Htarget. cbv zeta. split.
  - intros Hle. destruct (Z.ltb_spec 0 (target - now)); [lia | reflexivity].
  - intros Hlt. destruct (Z.ltb_spec 0 (target - now)) as [Hpos|]; [| lia].
    set (diff := target - now) in *.
    exists (diff / 60000), (Z.rem diff 60000 / 1000). split; [reflexivity |].
    rewrite Z.rem_mod_nonneg by lia.
    pose proof (Z.mod_pos_bound diff 60000 ltac:(lia)) as Hr.
    split; [apply Z.div_pos; lia |].
    split; [split; [apply Z.div_pos; lia | apply Z.div_lt_upper_bound; lia] |].
    rewrite (Z.div_mod diff 60000) at 3 by lia.
    replace (60000 * (diff / 60000) + diff mod 60000)
      with (diff / 60000 * 60 * 1000 + diff mod 60000) by lia.
    rewrite Z.div_add_l by lia. reflexivity.
Qed.

Lemma calculateTime_shows_remaining_seconds_witness :
  (120000 <= 45500 -> calculateTime Status.OPEN (Some 120000) None 45500 None = None)
  /\ (45500 < 120000 ->
      exists minutes seconds,
        calculateTime Status.OPEN (Some 120000) None 45500 None = Some (minutes, seconds)
        /\ 0 <= minutes /\ 0 <= seconds < 60
        /\ minutes * 60 + seconds = (120000 - 45500) / 1000).
Proof.
  apply (calculateTime_shows_remaining_seconds Status.OPEN (Some 120000) None 45500 None 120000).
  reflexivity.
Defined.

(** ** The pre-generation cache *)

Lemma remove_first_In idx l i : In i (remove_first idx l) -> In i l.
Proof.
  induction l as [|x l IH]; simpl; [tauto |].
  destruct (Nat.eqb x idx); simpl; tauto.
Qed.

Lemma HostType_eqb_refl h : HostType_eqb h h = true.
Proof. destruct h; reflexivity. Qed.

Lemma cache_ok_step n c ev : cache_ok n c -> cache_ok n (cache_step n c ev).
Proof.
  intros [Hc Hp]. destruct ev as [idx | idx text url b64 | idx | idx |]; simpl.
  - unfold pregen_starts.
    destruct (Nat.ltb_spec idx n) as [Hlt|]; simpl; [| split; assumption].
    destruct (negb _); [| split; assumption].
    split; [exact Hc |]. constructor; assumption.
  - destruct (existsb (Nat.eqb idx) (pregen_pending c)) eqn:He; [| split; assumption].
    apply existsb_exists in He. destruct He as (x & Hx & Heq). apply Nat.eqb_eq in Heq.
    subst x. rewrite List.Forall_forall in Hp. split; simpl.
    + intros i p Hi. unfold pregen_store in Hi. apply lookup_insert_Some in Hi.
      destruct Hi as [[<- <-] | [_ Hi]]; [| exact (Hc i p Hi)].
      split; [reflexivity | exact (Hp idx Hx)].
    + apply List.Forall_forall. intros i Hi. apply Hp. exact (remove_first_In _ _ _ Hi).
  - split; [exact Hc |]. simpl. rewrite List.Forall_forall in *.
    intros i Hi. apply Hp. exact (remove_first_In _ _ _ Hi).
  - split; [| exact Hp]. simpl. intros i p Hi. unfold take_cached in Hi.
    destruct (pregenCache c !! idx) as [cached|]; [| exact (Hc i p Hi)].
    destruct (HostType_eqb _ _); simpl in Hi; [| exact (Hc i p Hi)].
    apply lookup_delete_Some in Hi. exact (Hc i p (proj2 Hi)).
  - split; [| exact Hp]. simpl. intros i p Hi. rewrite lookup_empty in Hi. discriminate.
Qed.

Lemma cache_ok_run n evs : cache_ok n (cache_run n evs).
Proof.
  unfold cache_run.
  assert (H0 : cache_ok n (mkCacheState ∅ [])).
  { split; [| constructor]. simpl. intros i p Hi. rewrite lookup_empty in Hi. discriminate. }
  revert H0. generalize (mkCacheState ∅ []).
  induction evs as [|ev evs IH]; intros c Hc; simpl; [exact Hc |].
  apply IH, cache_ok_step, Hc.
Qed.

(** X19. A cached response is always the one processRoast wants: in any
    sequence of pre-generation calls, completions, failures, lookups and
    clears over a queue of n messages, an entry found in the cache at an
    index sits below n and was generated for the host of that index, so the
    lookup uses and deletes it and never falls back to generating again. *)
Theorem cached_response_is_used (n_messages : nat) (evs : list CacheEvent)
  (idx : nat) (cached : Pregen)
  (Hhit : pregenCache (cache_run n_messages evs) !! idx = Some cached) :
  (idx < n_messages)%nat
  /\ cachedHostType cached = (if Nat.even idx then HostA else HostB)
  /\ take_cached idx (pregenCache (cache_run n_messages evs))
     = (Some cached, delete idx (pregenCache (cache_run n_messages evs))).
Proof.
  destruct (cache_ok_run n_messages evs) as [Hc _].
  destruct (Hc idx cached Hhit) as [Hhost Hlt].
  split; [exact Hlt |]. split; [exact Hhost |].
  unfold take_cached. rewrite Hhit, Hhost, HostType_eqb_refl. reflexivity.
Qed.

Lemma cached_response_is_used_witness :
  (1 < 3)%nat
  /\ cachedHostType (mkPregen "burn" None None HostB) = (if Nat.even 1 then HostA else HostB)
  /\ take_cached 1 (pregenCache (cache_run 3 [PregenCall 1; PregenDone 1 "burn" None None]))
     = (Some (mkPregen "burn" None None HostB),
        delete 1%nat (pregenCache (cache_run 3 [PregenCall 1; PregenDone 1 "burn" None None]))).
Proof.
  apply (cached_response_is_used 3 [PregenCall 1; PregenDone 1 "burn" None None] 1
           (mkPregen "burn" None None HostB)).
  vm_compute. reflexivity.
Defined.

(** ** The answers of the completion service *)

Lemma ensure_next_session_result e sid d :
  (exists c, result (ensure_next_session e sid d) = Success sid c)
  \/ result (ensure_next_session e sid d) = ServerError.
Proof.
  unfold ensure_next_session. rewrite get_bind.
  destruct (activeSessions d) as [|a rest].
  - unfold create_next_session. rewrite get_bind.
    destruct (personas d) as [|p0 ps].
    + left. exists None. rewrite bind_result. reflexivity.
    + destruct (nth_error (p0 :: ps) (random_index e)) as [p|]; [| right; reflexivity].
      left. exists (Some (new_session_id e)). rewrite !bind_result. reflexivity.
  - left. exists None. unfold reconcile. rewrite get_bind, bind_result. reflexivity.
Qed.

Lemma complete_live_round_found_result e sid db s0 :
  find_session sid db = Some s0 ->
  (exists c, result (complete_live_round e (Some sid) db) = Success sid c)
  \/ result (complete_live_round e (Some sid) db) = ServerError.
Proof.
  intros Hf. unfold complete_live_round. rewrite get_bind, Hf, !bind_result.
  destruct (result (mark_remaining_used (now e) sid (final (archive_live sid db))));
    [apply ensure_next_session_result | right; reflexivity].
Qed.

(** The handler past the method checks, by the body it was given. *)
Lemma complete_live_round_body_refusals (e : Env) (body : option uuid) (db : DB) :
  (result (complete_live_round e body db) = BadRequest <-> body = None)
  /\ (result (complete_live_round e body db) = NotFound
      <-> exists sid, body = Some sid /\ find_session sid db = None)
  /\ (result (complete_live_round e body db) = BadRequest
      \/ result (complete_live_round e body db) = NotFound ->
      final (complete_live_round e body db) = db
      /\ journal (complete_live_round e body db) = []).
Proof.
  destruct body as [sid|].
  - destruct (find_session sid db) as [s0|] eqn:Hf.
    + destruct (complete_live_round_found_result e sid db s0 Hf) as [[c Hr] | Hr]; rewrite Hr.
      * split; [split; discriminate |]. split.
        -- split; [discriminate |]. intros (sid' & [= <-] & Hnone). congruence.
        -- intros [H | H]; discriminate.
      * split; [split; discriminate |]. split.
        -- split; [discriminate |]. intros (sid' & [= <-] & Hnone). congruence.
        -- intros [H | H]; discriminate.
    + assert (Hrun : complete_live_round e (Some sid) db = (NotFound, db, []))
        by (unfold complete_live_round; rewrite get_bind, Hf; reflexivity).
      rewrite Hrun. unfold result, final, journal. simpl.
      split; [split; discriminate |]. split.
      * split; [intros _; exists sid; split; [reflexivity | exact Hf] | reflexivity].
      * intros _. split; reflexivity.
  - unfold result, final, journal. simpl.
    split; [split; reflexivity |]. split.
    + split; [discriminate | intros (sid & Hb & _); discriminate].
    + intros _. split; reflexivity.
Qed.

Lemma reply_of {A B : Type} (c : M A) (f : A -> B) (db : DB) :
  result ((c ≫= λ r : A, ret (f r)) db) = f (result (c db))
  /\ final ((c ≫= λ r : A, ret (f r)) db) = final (c db)
  /\ journal ((c ≫= λ r : A, ret (f r)) db) = journal (c db).
Proof.
  unfold_M. unfold result, final, journal. destruct (c db) as [[a d] w]. simpl.
  rewrite app_nil_r. repeat split.
Qed.


(** ** The controller and the global row *)

(** The safety net on one row: what it does to the global table. *)
Lemma archive_if_stale_global t gid y d y' :
  find_session (s_id y) d = Some y' -> s_lock_time y' = s_lock_time y ->
  global_round_state (final (archive_if_stale t gid y d))
  = if stalled t (fun id => count_unused id d) y
    then upsert_rows t gid None RoundState.WAITING 0 None None (global_round_state d)
    else global_round_state d.
Proof.
  intros Hf Hlock. unfold archive_if_stale, stalled. rewrite get_bind.
  destruct (count_unused (s_id y) d =? 0); [| reflexivity].
  rewrite get_bind, Hf, Hlock.
  destruct (s_lock_time y) as [lockTime|]; [| reflexivity].
  destruct (5 * 60 * 1000 <? t - lockTime); [| reflexivity].
  rewrite bind_final, updateGlobalRoundState_final. reflexivity.
Qed.

Lemma archive_loop_global t gid cnt l : forall d,
  (forall id, count_unused id d = cnt id) ->
  (forall y, In y l ->
     exists y', find_session (s_id y) d = Some y' /\ s_lock_time y' = s_lock_time y) ->
  global_stamped t d ->
  global_stamped t (final (for_each l (archive_if_stale t gid) d))
  /\ (List.filter (stalled t cnt) l = [] ->
      global_round_state (final (for_each l (archive_if_stale t gid) d))
      = global_round_state d)
  /\ (List.filter (stalled t cnt) l <> [] ->
      exists g, latest_global (final (for_each l (archive_if_stale t gid) d)) = Some g
                /\ says_waiting g /\ g_updated_at g = t).
Proof.
  induction l as [|x l IH]; intros d Hcnt Hrows Hst.
  - simpl. rewrite ret_final. split; [exact Hst |]. split; [reflexivity | congruence].
  - destruct (Hrows x (or_introl eq_refl)) as (x' & Hfx & Hlx).
    destruct (archive_if_stale_sessions t gid x d x' Hfx Hlx) as [Hs Hm].
    pose proof (archive_if_stale_global t gid x d x' Hfx Hlx) as Hg.
    rewrite (stalled_ext t (fun id => count_unused id d) cnt x (Hcnt (s_id x))) in Hg.
    simpl for_each. rewrite bind_final.
    set (d1 := final (archive_if_stale t gid x d)) in *.
    assert (Hcnt1 : forall id, count_unused id d1 = cnt id).
    { intros id. rewrite <- Hcnt. apply count_unused_messages. exact Hm. }
    assert (Hrows1 : forall y, In y l ->
              exists y', find_session (s_id y) d1 = Some y'
                         /\ s_lock_time y' = s_lock_time y).
    { intros y Hy. destruct (Hrows y (or_intror Hy)) as (y' & Hfy & Hly).
      unfold find_session in *. rewrite Hs, find_map_same_id, Hfy.
      - eexists. split; [reflexivity |]. rewrite <- Hly.
        destruct (by_id (s_id x) y' && _); reflexivity.
      - intros r. destruct (by_id (s_id x) r && _); reflexivity. }
    destruct Hst as [Hnd Hle].
    destruct (upsert_rows_latest t gid None RoundState.WAITING 0 None None
                (global_round_state d) Hnd Hle) as (g & Hlat & Heq & Hnd' & Hle' & _).
    assert (Hst1 : global_stamped t d1).
    { unfold global_stamped. rewrite Hg. destruct (stalled t cnt x); split; assumption. }
    destruct (IH d1 Hcnt1 Hrows1 Hst1) as (Hst2 & Hsame & Hwait).
    split; [exact Hst2 |]. simpl List.filter. destruct (stalled t cnt x) eqn:Hx.
    + split; [congruence |]. intros _.
      destruct (List.filter (stalled t cnt) l) as [|z zs] eqn:Hrest.
      * exists g. unfold latest_global. rewrite (Hsame eq_refl), Hg.
        split; [exact Hlat |]. rewrite Heq. simpl. repeat split.
      * apply Hwait. congruence.
    + split.
      * intros Hnil. rewrite (Hsame Hnil). exact Hg.
      * exact Hwait.
Qed.

Lemma go_live_stamped t gid y d :
  global_stamped t d -> global_stamped t (final (go_live t gid y d)).
Proof.
  intros Hst. unfold go_live. rewrite bind_final.
  match goal with |- context [updateGlobalRoundState ?a ?b ?c ?e ?f ?g ?h] =>
    destruct (updateGlobalRoundState_global a b c e f g h Hst) as (_ & _ & _ & H & _) end.
  exact H.
Qed.

(** The newest OPEN session is published, unless the global row already
    names it in phase SUBMITTING. *)
Lemma sync_open_global t gid d session :
  global_stamped t d ->
  latest_by s_created_at
    (List.filter (fun s => Status.eqb (s_status s) Status.OPEN) (roast_sessions d))
  = Some session ->
  global_stamped t (final (sync_open t gid d))
  /\ exists g, latest_global (final (sync_open t gid d)) = Some g
               /\ g_session_id g = Some (s_id session)
               /\ g_round_state g = RoundState.SUBMITTING.
Proof.
  intros Hst Hnew. unfold sync_open. rewrite get_bind, Hnew, get_bind.
  destruct (latest_global d) as [g0|] eqn:Hg0.
  - destruct (negb (opt_uuid_eqb (g_session_id g0) (s_id session))
              || negb (RoundState.eqb (g_round_state g0) RoundState.SUBMITTING)) eqn:Hstale.
    + destruct (updateGlobalRoundState_global t gid (Some (s_id session))
                  RoundState.SUBMITTING (s_lock_time session) None d Hst)
        as (g & Hg & Heq & Hst' & _).
      split; [exact Hst' |]. exists g. split; [exact Hg |]. rewrite Heq. split; reflexivity.
    + rewrite ret_final. split; [exact Hst |]. exists g0. split; [exact Hg0 |].
      apply orb_false_iff in Hstale. destruct Hstale as [Hid Hrs].
      apply negb_false_iff in Hid, Hrs. split.
      * unfold opt_uuid_eqb in Hid. destruct (g_session_id g0) as [x|]; [| discriminate].
        apply Nat.eqb_eq in Hid. congruence.
      * destruct (g_round_state g0); simpl in Hrs; congruence.
  - destruct (updateGlobalRoundState_global t gid (Some (s_id session))
                RoundState.SUBMITTING (s_lock_time session) None d Hst)
      as (g & Hg & Heq & Hst' & _).
    split; [exact Hst' |]. exists g. split; [exact Hg |]. rewrite Heq. split; reflexivity.
Qed.

Lemma sync_open_stamped t gid d :
  global_stamped t d -> global_stamped t (final (sync_open t gid d)).
Proof.
  intros Hst.
  destruct (latest_by s_created_at
              (List.filter (fun s => Status.eqb (s_status s) Status.OPEN) (roast_sessions d)))
    as [session|] eqn:Hnew.
  - exact (proj1 (sync_open_global t gid d session Hst Hnew)).
  - unfold sync_open. rewrite get_bind, Hnew. exact Hst.
Qed.

(** The store on which the safety net runs. *)
Lemma session_manager_before_net t gid db :
  List.NoDup (map s_id (roast_sessions db)) ->
  exists d2,
    roast_sessions d2 = map (fun r => pass_live t (pass_lock t r)) (roast_sessions db)
    /\ roast_messages d2 = roast_messages db
    /\ (global_stamped t db -> global_stamped t d2)
    /\ final (session_manager t gid db) = final (archive_stale t gid (final (sync_open t gid d2))).
Proof.
  intros Hids. unfold session_manager, read_open_due. rewrite get_bind.
  unfold session_manager_resume. rewrite bind_final.
  set (d1 := final (write_locked _ db)).
  assert (Hs1 : roast_sessions d1 = map (pass_lock t) (roast_sessions db)).
  { unfold d1, write_locked.
    apply (loop_over_selected Status.LOCKED
             (fun session => update_status (by_id (s_id session)) Status.LOCKED)).
    - intros y d'. reflexivity.
    - exact Hids. }
  assert (Hm1 : roast_messages d1 = roast_messages db) by apply write_locked_messages.
  assert (Hg1 : global_round_state d1 = global_round_state db).
  { unfold d1, write_locked.
    apply (for_each_inv (fun d' => global_round_state d' = global_round_state db));
      [| reflexivity].
    intros y d' _ H. exact H. }
  assert (Hnd1 : List.NoDup (map s_id (roast_sessions d1))).
  { rewrite Hs1, map_same_ids; [exact Hids | apply pass_lock_id]. }
  unfold read_locked_due. rewrite get_bind, bind_final.
  set (d2 := final (write_live _ _ _ d1)).
  exists d2. split; [| split; [| split]].
  - unfold d2, write_live.
    rewrite (loop_over_selected Status.LIVE (go_live t gid)
               (fun s => Status.eqb (s_status s) Status.LOCKED
                         && opt_leb (s_lock_time s) (t - 10 * 1000)) d1
               (go_live_sessions t gid) Hnd1).
    rewrite Hs1, map_map. reflexivity.
  - unfold d2. rewrite write_live_messages. exact Hm1.
  - intros Hst. unfold d2, write_live.
    apply (for_each_inv (global_stamped t)).
    + intros y d' _ H. apply go_live_stamped. exact H.
    + unfold global_stamped. rewrite Hg1. exact Hst.
  - rewrite !bind_final, ret_final. reflexivity.
Qed.

Lemma status_before_net_open t r :
  Status.eqb (s_status (pass_live t (pass_lock t r))) Status.OPEN = still_open t r.
Proof.
  unfold pass_live, pass_lock, still_open. repeat rewrite ?row_if_lock, ?row_if_status.
  destruct (s_status r), (opt_leb (s_lock_time r) t),
    (opt_leb (s_lock_time r) (t - 10 * 1000)); reflexivity.
Qed.

Lemma before_net_still_open t r :
  still_open t r = true -> pass_live t (pass_lock t r) = r.
Proof.
  unfold pass_live, pass_lock, still_open. intros H.
  apply andb_true_iff in H. destruct H as [Ho Hl]. apply negb_true_iff in Hl.
  rewrite Ho, Hl. simpl. destruct (s_status r); try discriminate. reflexivity.
Qed.

Lemma open_before_net t (l : list Session) :
  List.filter (fun s => Status.eqb (s_status s) Status.OPEN)
              (map (fun r => pass_live t (pass_lock t r)) l)
  = List.filter (still_open t) l.
Proof.
  induction l as [|r l IH]; [reflexivity |]. simpl.
  rewrite status_before_net_open, IH.
  destruct (still_open t r) eqn:Hr; [| reflexivity].
  rewrite (before_net_still_open t r Hr). reflexivity.
Qed.

(** The rows the safety net selects and archives, in terms of the rows the
    run started from. *)
Lemma archived_by_run_spec t cnt r :
  archived_by_run t cnt r
  = Status.eqb (s_status (pass_live t (pass_lock t r))) Status.LIVE
    && stalled t cnt (pass_live t (pass_lock t r)).
Proof.
  unfold archived_by_run, controller_row, pass_archive, pass_live, pass_lock, stalled.
  repeat rewrite ?row_if_lock, ?row_if_id, ?row_if_status.
  destruct r as [id pid name avatar st start [l|] created];
    cbn [s_status s_lock_time s_id opt_leb].
  - destruct (l <=? t), (l <=? t - 10 * 1000), (cnt id =? 0), (5 * 60 * 1000 <? t - l);
      destruct st; reflexivity.
  - destruct (cnt id =? 0); destruct st; reflexivity.
Qed.

(** The safety net of a run, on the store the earlier steps left. *)
Lemma session_manager_net t gid db :
  List.NoDup (map s_id (roast_sessions db)) -> global_stamped t db ->
  exists d3,
    roast_sessions d3 = map (fun r => pass_live t (pass_lock t r)) (roast_sessions db)
    /\ global_stamped t d3
    /\ (forall newest,
          latest_by s_created_at (List.filter (still_open t) (roast_sessions db)) = Some newest ->
          exists g, latest_global d3 = Some g
                    /\ g_session_id g = Some (s_id newest)
                    /\ g_round_state g = RoundState.SUBMITTING)
    /\ ((forall r, In r (roast_sessions db) ->
           archived_by_run t (fun id => count_unused id db) r = false) ->
        global_round_state (final (session_manager t gid db)) = global_round_state d3)
    /\ ((exists r, In r (roast_sessions db)
                   /\ archived_by_run t (fun id => count_unused id db) r = true) ->
        exists g, latest_global (final (session_manager t gid db)) = Some g
                  /\ says_waiting g /\ g_updated_at g = t).
Proof.
  intros Hids Hst.
  destruct (session_manager_before_net t gid db Hids) as (d2 & Hs2 & Hm2 & Hst2 & ->).
  specialize (Hst2 Hst).
  set (d3 := final (sync_open t gid d2)).
  assert (Hs3 : roast_sessions d3
                = map (fun r => pass_live t (pass_lock t r)) (roast_sessions db))
    by (unfold d3; rewrite sync_open_tables; exact Hs2).
  assert (Hm3 : roast_messages d3 = roast_messages db)
    by (unfold d3; rewrite sync_open_messages; exact Hm2).
  assert (Hnd3 : List.NoDup (map s_id (roast_sessions d3))).
  { rewrite Hs3, map_same_ids; [exact Hids |].
    intros r. rewrite pass_live_id. apply pass_lock_id. }
  exists d3. split; [exact Hs3 |]. split; [apply sync_open_stamped; exact Hst2 |].
  split.
  { intros newest Hnew. apply (sync_open_global t gid d2 newest Hst2).
    rewrite Hs2, open_before_net. exact Hnew. }
  unfold archive_stale. rewrite get_bind.
  destruct (archive_loop_global t gid (fun id => count_unused id db)
              (List.filter (fun s => Status.eqb (s_status s) Status.LIVE) (roast_sessions d3)) d3)
    as (_ & Hsame & Hwait).
  { intros id. apply count_unused_messages. exact Hm3. }
  { intros y Hy. apply filter_In in Hy. exists y. split; [| reflexivity].
    apply find_session_unique; tauto. }
  { apply sync_open_stamped. exact Hst2. }
  rewrite filter_filter_andb, Hs3 in Hsame, Hwait. rewrite Hs3.
  split.
  - intros Hnone. apply Hsame. apply filter_none. intros y Hy.
    apply in_map_iff in Hy. destruct Hy as (r & <- & Hr).
    rewrite <- archived_by_run_spec. apply Hnone. exact Hr.
  - intros (r & Hr & Harch). apply Hwait. intros Hnil.
    assert (Hin : In (pass_live t (pass_lock t r))
                     (List.filter
                        (fun s => Status.eqb (s_status s) Status.LIVE
                                  && stalled t (fun id => count_unused id db) s)
                        (map (fun r => pass_live t (pass_lock t r)) (roast_sessions db)))).
    { apply filter_In. split.
      - apply in_map_iff. exists r. split; [reflexivity | exact Hr].
      - rewrite <- archived_by_run_spec. exact Harch. }
    rewrite Hnil in Hin. destruct Hin.
Qed.

(** X21. A run of the controller in which the safety net archives nothing
    leaves the global row on the newest session that is still OPEN after the
    lock step: the latest row names it, in phase SUBMITTING (session ids
    unique, global ids unique, no global stamp ahead of the clock). *)
Theorem session_manager_publishes_newest_open (t : Z) (gid : uuid) (db : DB)
  (newest : Session)
  (Hids : List.NoDup (map s_id (roast_sessions db)))
  (Hst : global_stamped t db)
  (Hquiet : forall r, In r (roast_sessions db) ->
              archived_by_run t (fun id => count_unused id db) r = false)
  (Hnew : latest_by s_created_at (List.filter (still_open t) (roast_sessions db))
          = Some newest) :
  exists g,
    latest_global (final (session_manager t gid db)) = Some g
    /\ g_session_id g = Some (s_id newest)
    /\ g_round_state g = RoundState.SUBMITTING.
Proof.
  destruct (session_manager_net t gid db Hids Hst) as (d3 & _ & _ & Hopen & Hsame & _).
  unfold latest_global. rewrite (Hsame Hquiet). exact (Hopen newest Hnew).
Qed.

Lemma session_manager_publishes_newest_open_witness :
  exists g,
    latest_global (final (session_manager 20000 7 store_open_submission)) = Some g
    /\ g_session_id g = Some (s_id (session_row 1 "ada" Status.OPEN 120000))
    /\ g_round_state g = RoundState.SUBMITTING.
Proof.
  apply (session_manager_publishes_newest_open 20000 7 store_open_submission
           (session_row 1 "ada" Status.OPEN 120000)).
  - nodup_ids.
  - stamped.
  - intros r [<- | []]. reflexivity.
  - reflexivity.
Defined.

(** X22. Whenever the safety net archives a session in a run, the last word
    of that run on the global row is WAITING with no session, stamped with
    the run's clock: the row written for an OPEN session in the step before
    is overwritten, also while that session is still taking submissions. *)
Theorem session_manager_net_says_waiting (t : Z) (gid : uuid) (db : DB) (r : Session)
  (Hids : List.NoDup (map s_id (roast_sessions db)))
  (Hst : global_stamped t db)
  (Hr : In r (roast_sessions db))
  (Harch : archived_by_run t (fun id => count_unused id db) r = true) :
  exists g,
    latest_global (final (session_manager t gid db)) = Some g
    /\ says_waiting g /\ g_updated_at g = t.
Proof.
  destruct (session_manager_net t gid db Hids Hst) as (d3 & _ & _ & _ & _ & Hwait).
  apply Hwait. exists r. split; assumption.
Qed.

Lemma session_manager_net_says_waiting_witness :
  exists g,
    latest_global (final (session_manager 400000 8 store_stalled_and_open)) = Some g
    /\ says_waiting g /\ g_updated_at g = 400000.
Proof.
  apply (session_manager_net_says_waiting 400000 8 store_stalled_and_open
           (session_row 1 "ada" Status.LIVE 1000)).
  - nodup_ids.
  - stamped.
  - left. reflexivity.
  - reflexivity.
Defined.

(** ** Calls that run one after another *)

Lemma update_used_sessions t p v d :
  roast_sessions (final (update_used t p v d)) = roast_sessions d.
Proof. unfold update_used. destruct (fire_triggers _ _ _ _); reflexivity. Qed.

Lemma updateGlobalRoundState_sessions t gid sid rs se ls d :
  roast_sessions (final (updateGlobalRoundState t gid sid rs se ls d)) = roast_sessions d.
Proof. apply updateGlobalRoundState_tables. Qed.

Lemma ensure_next_session_sessions e sid d :
  roast_sessions (final (ensure_next_session e sid d)) = roast_sessions d
  \/ exists p, roast_sessions (final (ensure_next_session e sid d))
               = roast_sessions d ++ [successor_session e p].
Proof.
  unfold ensure_next_session. rewrite get_bind.
  destruct (activeSessions d) as [|a rest].
  - unfold create_next_session. rewrite get_bind.
    destruct (personas d) as [|p0 ps].
    + left. rewrite bind_final, ret_final. apply updateGlobalRoundState_sessions.
    + destruct (nth_error (p0 :: ps) (random_index e)) as [p|]; [| left; reflexivity].
      right. exists p. rewrite !bind_final, ret_final, updateGlobalRoundState_sessions.
      reflexivity.
  - left. unfold reconcile. rewrite get_bind, bind_final, ret_final.
    destruct (find_session (s_id a) d); [apply updateGlobalRoundState_sessions | reflexivity].
Qed.

(** The session table after a completion call, whatever it answers. *)
Lemma complete_live_round_sessions e body db :
  exists (f : Session -> Session) (extra : list Session),
    roast_sessions (final (complete_live_round e body db))
    = map f (roast_sessions db) ++ extra
    /\ (forall s, f s = s \/ (s_status s = Status.LIVE /\ f s = with_status Status.ARCHIVED s))
    /\ (extra = [] \/ exists p, extra = [successor_session e p]).
Proof.
  assert (Hid : exists (f : Session -> Session) (extra : list Session),
            roast_sessions db = map f (roast_sessions db) ++ extra
            /\ (forall s, f s = s
                          \/ (s_status s = Status.LIVE /\ f s = with_status Status.ARCHIVED s))
            /\ (extra = [] \/ exists p, extra = [successor_session e p])).
  { exists (fun s => s), []. rewrite map_id, app_nil_r. split; [reflexivity |].
    split; [intros s; left; reflexivity | left; reflexivity]. }
  destruct body as [sid|]; [| exact Hid].
  unfold complete_live_round. rewrite get_bind.
  destruct (find_session sid db) as [s0|]; [| exact Hid].
  clear Hid. rewrite !bind_final.
  set (d1 := final (archive_live sid db)).
  set (d2 := final (mark_remaining_used (now e) sid d1)).
  assert (Hs2 : roast_sessions d2 = map (after_archive sid) (roast_sessions db)).
  { unfold d2, mark_remaining_used. rewrite update_used_sessions. reflexivity. }
  assert (Hf : forall s, after_archive sid s = s
                         \/ (s_status s = Status.LIVE
                             /\ after_archive sid s = with_status Status.ARCHIVED s)).
  { intros s. unfold after_archive. destruct (by_id sid s); simpl; [| left; reflexivity].
    destruct (s_status s) eqn:Hst; simpl; try (left; reflexivity).
    right. split; reflexivity. }
  exists (after_archive sid).
  destruct (result (mark_remaining_used (now e) sid d1)).
  - destruct (ensure_next_session_sessions e sid d2) as [Hs | [p Hs]]; rewrite Hs, Hs2.
    + exists []. rewrite app_nil_r. split; [reflexivity |]. split; [exact Hf | left; reflexivity].
    + exists [successor_session e p]. split; [reflexivity |].
      split; [exact Hf | right; exists p; reflexivity].
  - rewrite ret_final. fold d2. rewrite Hs2.
    exists []. rewrite app_nil_r. split; [reflexivity |]. split; [exact Hf | left; reflexivity].
Qed.

Lemma NoDup_snoc (l : list uuid) (x : uuid) :
  List.NoDup l -> ~ In x l -> List.NoDup (l ++ [x]).
Proof.
  induction l as [|a l IH]; intros Hnd Hx; simpl.
  - constructor; [tauto | constructor].
  - inversion Hnd as [|? ? Ha Hl]; subst. constructor.
    + intros Hin. apply in_app_or in Hin. destruct Hin as [Hin | [-> | []]]; [tauto |].
      apply Hx. left. reflexivity.
    + apply IH; [exact Hl |]. intros Hin. apply Hx. right. exact Hin.
Qed.

Lemma controller_row_rank t cnt r :
  (Status.rank (s_status r) <= Status.rank (s_status (controller_row t cnt r)))%nat.
Proof.
  unfold controller_row, pass_archive, pass_live, pass_lock.
  repeat rewrite ?row_if_lock, ?row_if_id, ?row_if_status.
  destruct (s_status r); simpl;
    repeat (match goal with |- context [if ?b then _ else _] => destruct b end; simpl);
    lia.
Qed.

(** One call on a table with unique ids. *)
Lemma call_keeps_rows db c :
  List.NoDup (map s_id (roast_sessions db)) ->
  match c with
  | Complete e _ => ~ In (new_session_id e) (map s_id (roast_sessions db))
  | Poll _ _ => True
  end ->
  List.NoDup (map s_id (roast_sessions (call_final db c)))
  /\ forall r, In r (roast_sessions db) ->
       exists r', In r' (roast_sessions (call_final db c))
                  /\ s_id r' = s_id r
                  /\ (Status.rank (s_status r) <= Status.rank (s_status r'))%nat.
Proof.
  intros Hnd Hfresh. destruct c as [t gid | e body]; simpl.
  - destruct (session_manager_rows t gid db Hnd) as [Hs _]. rewrite Hs. split.
    + rewrite map_same_ids; [exact Hnd | apply controller_row_id].
    + intros r Hr. exists (controller_row t (fun id => count_unused id db) r).
      split; [apply in_map; exact Hr |].
      split; [apply controller_row_id | apply controller_row_rank].
  - destruct (complete_live_round_sessions e body db) as (f & extra & Hs & Hf & Hex).
    rewrite Hs.
    assert (Hfid : forall s, s_id (f s) = s_id s).
    { intros s. destruct (Hf s) as [-> | [_ ->]]; reflexivity. }
    split.
    + rewrite map_app, map_same_ids by exact Hfid.
      destruct Hex as [-> | [p ->]]; simpl; [rewrite app_nil_r; exact Hnd |].
      apply NoDup_snoc; assumption.
    + intros r Hr. exists (f r).
      split; [apply in_or_app; left; apply in_map; exact Hr |].
      split; [apply Hfid |].
      destruct (Hf r) as [-> | [Hlive ->]]; [lia |]. rewrite Hlive. simpl. lia.
Qed.

(** X23. Calls that run one after another never lose a session and never
    move its status backwards: after any sequence of controller runs and
    completion calls, at any clock readings and with any answers, each
    session of the initial table is still there under its id, with a status
    at or beyond its old one along OPEN, LOCKED, LIVE, ARCHIVED (session ids
    unique, inserted ids fresh). *)
Theorem calls_in_sequence_move_forward (cs : list Call) (db : DB) (r : Session)
  (Hids : List.NoDup (map s_id (roast_sessions db)))
  (Hfresh : calls_fresh cs db)
  (Hr : In r (roast_sessions db)) :
  exists r',
    In r' (roast_sessions (run_calls cs db))
    /\ s_id r' = s_id r
    /\ (Status.rank (s_status r) <= Status.rank (s_status r'))%nat.
Proof.
  revert db r Hids Hfresh Hr. induction cs as [|c cs IH]; intros db r Hids Hfresh Hr.
  - exists r. simpl. repeat split; [exact Hr | lia].
  - destruct Hfresh as [Hc Hrest].
    destruct (call_keeps_rows db c Hids Hc) as [Hids1 Hrows].
    destruct (Hrows r Hr) as (r1 & Hr1 & Hid1 & Hrank1).
    destruct (IH (call_final db c) r1 Hids1 Hrest Hr1) as (r' & Hr' & Hid' & Hrank').
    exists r'. split; [exact Hr' |]. split; [congruence | lia].
Qed.

Lemma calls_in_sequence_move_forward_witness :
  exists r',
    In r' (roast_sessions
             (run_calls [Poll 136000 8; Complete (mkEnv 200000 1 9 8) (Some 1%nat);
                         Poll 250000 8] store_locked))
    /\ s_id r' = s_id (session_row 1 "ada" Status.LOCKED 125000)
    /\ (Status.rank (s_status (session_row 1 "ada" Status.LOCKED 125000))
        <= Status.rank (s_status r'))%nat.
Proof.
  apply (calls_in_sequence_move_forward
           [Poll 136000 8; Complete (mkEnv 200000 1 9 8) (Some 1%nat); Poll 250000 8]
           store_locked (session_row 1 "ada" Status.LOCKED 125000)).
  - nodup_ids.
  - simpl. repeat split. vm_compute. intuition discriminate.
  - left. reflexivity.
Defined.

(** ** Marking outside a LIVE session *)

(** X24. Marking a message whose session is not LIVE fails silently: the
    row-level policy hides the row from the update, so the call reports no
    error, writes nothing and leaves every table as it was. *)
Theorem markMessageUsed_outside_live_is_silent (t : Z) (messageId : uuid) (db : DB)
  (Hnot : forall m, In m (roast_messages db) -> m_id m = messageId ->
            session_is_live (m_session_id m) db = false) :
  markMessageUsed t messageId db = (true, db, []).
Proof.
  unfold markMessageUsed. rewrite client_update_used_passes.
  apply update_used_noop. intros m Hm. unfold policy_using.
  destruct (Nat.eqb_spec (m_id m) messageId) as [Hid|]; [| reflexivity].
  simpl. exact (Hnot m Hm Hid).
Qed.

Lemma markMessageUsed_outside_live_is_silent_witness :
  markMessageUsed 60000 5 store_open_submission = (true, store_open_submission, []).
Proof.
  apply (markMessageUsed_outside_live_is_silent 60000 5 store_open_submission).
  intros m [<- | []] _. reflexivity.
Defined.

(** ** The timeline of an OPEN session and of a run *)

Lemma controller_row_open_timeline t cnt r lockTime :
  s_status r = Status.OPEN -> s_lock_time r = Some lockTime ->
  s_status (controller_row t cnt r) = open_timeline t lockTime (cnt (s_id r)).
Proof.
  intros Hst Hl.
  unfold controller_row, pass_archive, pass_live, pass_lock, stalled, open_timeline.
  repeat rewrite ?row_if_lock, ?row_if_id, ?row_if_status.
  rewrite Hst, Hl. cbn [opt_leb Status.eqb andb].
  destruct (Z.leb_spec lockTime t) as [Ha|Ha], (Z.ltb_spec t lockTime) as [Hb|Hb]; try lia;
    cbn [Status.eqb andb]; [| reflexivity].
  destruct (Z.leb_spec lockTime (t - 10 * 1000)) as [Hc|Hc],
           (Z.ltb_spec t (lockTime + 10 * 1000)) as [Hd|Hd]; try lia;
    cbn [Status.eqb andb]; [| reflexivity].
  destruct ((cnt (s_id r) =? 0) && (5 * 60 * 1000 <? t - lockTime)); reflexivity.
Qed.

(** X25. One controller run at clock t takes an OPEN session with a lock
    time as far as the clock allows: it stays OPEN before the lock time, is
    LOCKED from the lock time until ten seconds after it, and from then on
    is LIVE, or ARCHIVED at once when it has no unused message and the lock
    time lies more than five minutes back. *)
Theorem session_manager_open_timeline (t : Z) (gid : uuid) (db : DB) (r : Session)
  (lockTime : Z)
  (Hids : List.NoDup (map s_id (roast_sessions db)))
  (Hr : In r (roast_sessions db))
  (Hopen : s_status r = Status.OPEN)
  (Hlock : s_lock_time r = Some lockTime) :
  status_of (s_id r) (final (session_manager t gid db))
  = Some (open_timeline t lockTime (count_unused (s_id r) db)).
Proof.
  rewrite (session_manager_status_of t gid db r Hids Hr).
  rewrite (controller_row_open_timeline t _ r lockTime Hopen Hlock). reflexivity.
Qed.

Lemma session_manager_open_timeline_witness :
  status_of (s_id (session_row 1 "ada" Status.OPEN 120000))
            (final (session_manager 131000 7 store_open_submission))
  = Some (open_timeline 131000 120000
            (count_unused (s_id (session_row 1 "ada" Status.OPEN 120000))
                          store_open_submission)).
Proof.
  apply (session_manager_open_timeline 131000 7 store_open_submission
           (session_row 1 "ada" Status.OPEN 120000) 120000).
  - nodup_ids.
  - left. reflexivity.
  - reflexivity.
  - reflexivity.
Defined.

Section SchedulerTiming.
Variable session_id : uuid.
Variable messages : list Message.

Lemma tick_liveStart clock s :
  liveStartTimeRef (tick messages clock s) = liveStartTimeRef s.
Proof.
  unfold tick.
  destruct (negb (schedulerInterval s)); [reflexivity |].
  destruct (negb (mountedRef s) || negb (playingRef s)) eqn:Hdead; [reflexivity |].
  destruct (pausedRef s); [reflexivity |].
  unfold clear_interval_if_done.
  assert (He : liveStartTimeRef match tick_call messages clock s with
                                | Some i => processRoast i s
                                | None => s
                                end = liveStartTimeRef s).
  { destruct (tick_call messages clock s); [| reflexivity].
    unfold processRoast. rewrite Hdead. destruct (currentlyProcessingRef s); reflexivity. }
  destruct (_ && _); simpl; exact He.
Qed.

Lemma step_liveStart s ev :
  liveStartTimeRef (step session_id messages s ev) = liveStartTimeRef s.
Proof.
  destruct ev as [clock | idx | idx | idx | b |]; simpl; try reflexivity.
  - apply tick_liveStart.
  - destruct (suspended_at idx AwaitRoast s); [| reflexivity].
    unfold after_roast. destruct (_ || _); reflexivity.
  - destruct (suspended_at idx AwaitResponse s); reflexivity.
  - destruct (suspended_at idx AwaitCleanup s); [| reflexivity].
    unfold after_cleanup, finishPlayback. destruct (_ =? _); reflexivity.
Qed.

Lemma run_liveStart evs : forall s,
  liveStartTimeRef (run session_id messages evs s) = liveStartTimeRef s.
Proof.
  induction evs as [|ev evs IH]; intros s; [reflexivity |]. simpl.
  change (fold_left (step session_id messages) evs (step session_id messages s ev))
    with (run session_id messages evs (step session_id messages s ev)).
  rewrite IH. apply step_liveStart.
Qed.

Lemma tick_call_due clock s i :
  tick_call messages clock s = Some i ->
  liveStartTimeRef s + Z.of_nat i * BASE_DELAY_PER_ROAST <= clock.
Proof.
  unfold tick_call.
  destruct (negb (schedulerInterval s)); [discriminate |].
  destruct (negb (mountedRef s) || negb (playingRef s)); [discriminate |].
  destruct (pausedRef s); [discriminate |].
  destruct (due_index messages (clock - liveStartTimeRef s) s) as [d|] eqn:Hd;
    [| discriminate].
  destruct (currentlyProcessingRef s); [discriminate |].
  intros [= <-]. unfold due_index in Hd. apply find_seq_least in Hd.
  destruct Hd as (Hp & _ & _). apply andb_true_iff in Hp. destruct Hp as [Hdue _].
  apply Z.leb_le in Hdue. lia.
Qed.
End SchedulerTiming.

(** X26. No roast starts ahead of its slot: in any run started at clock0,
    whatever events arrived before, a tick at some clock reading hands
    message i to processRoast only when at least 15 seconds times i have
    passed since clock0, and only for an index of the queue. *)
Theorem roast_never_starts_before_its_slot
  (session_id : uuid) (messages : list Message) (clock0 : Z) (T0 : list Exchange)
  (evs : list Event) (clock : Z) (i : nat)
  (Hcall : tick_call messages clock
             (run session_id messages evs (startTimestampScheduler clock0 T0)) = Some i) :
  clock0 + Z.of_nat i * BASE_DELAY_PER_ROAST <= clock
  /\ (i < List.length messages)%nat.
Proof.
  split.
  - pose proof (tick_call_due messages clock _ i Hcall) as H.
    rewrite run_liveStart in H. exact H.
  - exact (tick_call_bound messages clock _ i Hcall).
Qed.

Lemma roast_never_starts_before_its_slot_witness :
  0 + Z.of_nat 1 * BASE_DELAY_PER_ROAST <= 15000
  /\ (1 < List.length [unused_message 5 1; unused_message 6 1])%nat.
Proof.
  apply (roast_never_starts_before_its_slot 1 [unused_message 5 1; unused_message 6 1] 0 []
           one_roast_events 15000 1).
  vm_compute. reflexivity.
Defined.

(** * The controller, the completion service and the scheduler on the store *)

Lemma stateUpdate_says id sid rs total se ls t :
  row_says sid rs total se ls t (stateUpdate id sid rs total se ls t).
Proof. unfold row_says. simpl. repeat split. Qed.

(** The row updateGlobalRoundState writes is in the table afterwards. *)
Lemma upsert_rows_In t gid sid rs total se ls rows :
  exists g, In g (upsert_rows t gid sid rs total se ls rows)
            /\ row_says sid rs total se ls t g.
Proof.
  unfold upsert_rows. destruct (latest_by g_updated_at rows) as [e|] eqn:He.
  - exists (stateUpdate (g_id e) sid rs total se ls t). split; [| apply stateUpdate_says].
    apply in_map_iff. exists e. rewrite Nat.eqb_refl. split; [reflexivity |].
    exact (latest_by_In _ _ _ He).
  - exists (stateUpdate gid sid rs total se ls t). split; [| apply stateUpdate_says].
    apply in_or_app. right. left. reflexivity.
Qed.

Lemma upsert_rows_latest_says t gid sid rs total se ls rows :
  List.NoDup (map g_id rows) -> (forall g, In g rows -> g_updated_at g <= t) ->
  exists g, latest_by g_updated_at (upsert_rows t gid sid rs total se ls rows) = Some g
            /\ row_says sid rs total se ls t g.
Proof.
  intros Hnd Hst.
  destruct (upsert_rows_latest t gid sid rs total se ls rows Hnd Hst) as (g & Hg & Heq & _).
  exists g. split; [exact Hg |]. rewrite Heq. apply stateUpdate_says.
Qed.

(** ** The playback scheduler: one row per finished response *)

Section SchedulerRows.
Variable session_id : uuid.
Variable messages : list Message.

Lemma step_exchanges_exact s ev :
  exchanges (step session_id messages s ev)
  = exchanges s
    ++ match ev with
       | ResponsePlayed idx =>
           if suspended_at idx AwaitResponse s
           then [exchange_of session_id messages idx] else []
       | _ => []
       end.
Proof.
  destruct ev as [clock | idx | idx | idx | b |]; simpl; rewrite ?app_nil_r; try reflexivity.
  - apply tick_exchanges.
  - destruct (suspended_at idx AwaitRoast s); [| reflexivity].
    unfold after_roast. destruct (_ || _); reflexivity.
  - destruct (suspended_at idx AwaitResponse s); [reflexivity | rewrite app_nil_r; reflexivity].
  - destruct (suspended_at idx AwaitCleanup s); [| reflexivity].
    unfold after_cleanup, finishPlayback. destruct (_ =? _); reflexivity.
Qed.

Lemma run_exchanges_count evs : forall s,
  List.length (exchanges (run session_id messages evs s))
  = (List.length (exchanges s) + responses_finished session_id messages evs s)%nat.
Proof.
  induction evs as [|ev evs IH]; intros s; simpl; [lia |].
  change (fold_left (step session_id messages) evs (step session_id messages s ev))
    with (run session_id messages evs (step session_id messages s ev)).
  rewrite IH, step_exchanges_exact, length_app.
  destruct ev as [clock | idx | idx | idx | b |]; simpl; try lia.
  destruct (suspended_at idx AwaitResponse s); simpl; lia.
Qed.
End SchedulerRows.

(** C9, amended.  One scheduler run appends to the exchange table exactly
    one row for each host response that finished, in queue order: with m
    responses finished the table is the table the run started on followed by
    the rows of the indices 0 .. m-1, and the row of index i carries the
    run's session, the id of message i, the host of its parity and sequence
    number i+1.  So the sequence numbers a run writes are 1, 2, ..., m
    without gap or repetition.  (The store itself enforces no uniqueness
    across runs.) *)
Theorem C9_run_writes_contiguous_sequence :
  forall (session_id : uuid) (messages : list Message) (clock0 : Z)
         (T0 : list Exchange) (evs : list Event),
    (responses_finished session_id messages evs (startTimestampScheduler clock0 T0)
     <= List.length messages)%nat
    /\ exchanges (run session_id messages evs (startTimestampScheduler clock0 T0))
       = T0 ++ saved_rows session_id messages
                 (responses_finished session_id messages evs
                                     (startTimestampScheduler clock0 T0))
    /\ map e_sequence_number
           (saved_rows session_id messages
              (responses_finished session_id messages evs (startTimestampScheduler clock0 T0)))
       = map (fun i => Z.of_nat i + 1)
             (seq 0 (responses_finished session_id messages evs
                                        (startTimestampScheduler clock0 T0)))
    /\ forall i : nat,
         (i < responses_finished session_id messages evs
                                 (startTimestampScheduler clock0 T0))%nat ->
         exists msg,
           nth_error messages i = Some msg
           /\ nth_error (exchanges (run session_id messages evs
                                        (startTimestampScheduler clock0 T0)))
                        (List.length T0 + i)
              = Some (mkExchange session_id (Some (m_id msg))
                                 (if Nat.even i then HostA else HostB) (Z.of_nat i + 1)).
Proof.
  intros sid messages clock0 T0 evs.
  destruct (bounds_run sid messages T0 evs _ (bounds_start sid messages T0 clock0))
    as (Hinv & Hlen & _).
  destruct (inv_saved _ _ _ _ Hinv) as (m & Hm & Hex).
  pose proof (run_exchanges_count sid messages evs (startTimestampScheduler clock0 T0)) as Hc.
  rewrite Hex, length_app, saved_rows_length in Hc. simpl in Hc.
  assert (Heq : responses_finished sid messages evs (startTimestampScheduler clock0 T0) = m)
    by lia.
  rewrite Heq. split; [lia |]. split; [exact Hex |]. split.
  - unfold saved_rows. rewrite map_map. reflexivity.
  - intros i Hi. destruct (nth_error messages i) as [msg|] eqn:Hnth.
    + exists msg. split; [reflexivity |].
      rewrite Hex, nth_error_app2 by lia.
      replace (List.length T0 + i - List.length T0)%nat with i by lia.
      unfold saved_rows. rewrite nth_error_map_seq by exact Hi. simpl.
      unfold exchange_of, hostType_of. rewrite Hnth. reflexivity.
    + apply nth_error_None in Hnth. lia.
Qed.

(** ** Round completion: the successor session and its global row *)



(** ** The controller: a LOCKED session goes LIVE *)

Lemma status_of_locked_row t cnt s lock :
  s_status s = Status.LOCKED -> s_lock_time s = Some lock ->
  s_status (controller_row t cnt s)
  = if lock + 10 * 1000 <=? t
    then if (cnt (s_id s) =? 0) && (5 * 60 * 1000 <? t - lock)
         then Status.ARCHIVED else Status.LIVE
    else Status.LOCKED.
Proof.
  intros Hst Hl.
  unfold controller_row, pass_archive, pass_live, pass_lock, stalled.
  repeat rewrite ?row_if_lock, ?row_if_id, ?row_if_status.
  rewrite Hst, Hl. cbn [opt_leb Status.eqb andb].
  destruct (Z.leb_spec lock (t - 10 * 1000)) as [Ha|Ha],
           (Z.leb_spec (lock + 10 * 1000) t) as [Hb|Hb]; try lia;
    cbn [Status.eqb andb]; [| reflexivity].
  destruct ((cnt (s_id s) =? 0) && (5 * 60 * 1000 <? t - lock)); reflexivity.
Qed.

(** go_live on a store that holds the row [s] under a unique id. *)
Lemma go_live_store t gid s d :
  List.NoDup (map s_id (roast_sessions d)) -> In s (roast_sessions d) ->
  status_of (s_id s) (final (go_live t gid s d)) = Some Status.LIVE
  /\ (exists g,
        In g (global_round_state (final (go_live t gid s d)))
        /\ row_says (Some (s_id s)) RoundState.LIVE (count_unused (s_id s) d)
                    (s_lock_time s) (Some t) t g)
  /\ (global_stamped t d ->
      exists g,
        latest_global (final (go_live t gid s d)) = Some g
        /\ row_says (Some (s_id s)) RoundState.LIVE (count_unused (s_id s) d)
                    (s_lock_time s) (Some t) t g).
Proof.
  intros Hnd Hin. split.
  - unfold status_of, find_session. rewrite go_live_sessions, find_map_same_id.
    + fold (find_session (s_id s) d). rewrite (find_session_unique d s Hnd Hin).
      simpl. unfold by_id. rewrite Nat.eqb_refl. reflexivity.
    + intros r. destruct (by_id (s_id s) r); reflexivity.
  - unfold go_live. rewrite bind_final, updateGlobalRoundState_final.
    unfold latest_global. simpl. split.
    + apply upsert_rows_In.
    + intros [Hn Hs]. apply upsert_rows_latest_says; assumption.
Qed.

(** C4.  One controller run at time t, for a session that is LOCKED with
    lock time [lock] (session ids unique).  When the lock time is 10
    seconds or more before t, the run takes the session LIVE: it is among
    the LOCKED sessions the run selects, and in the store right after its
    step the session's status is LIVE and the global table holds a row for
    it with phase LIVE, live-start t, submission deadline [lock], index 0 and
    the count of its unused messages; with unique global ids and no stamp
    ahead of t that row is the one a reader gets next.  The rest of the run
    starts from that store.  At the end of the run the session is LIVE, or
    ARCHIVED when it has no unused message and the lock time is more than 5
    minutes past.  When the lock time is less than 10 seconds before t, the
    session is still LOCKED after the run and its row is as it was.  The
    step for the session has the same effect on any store that holds its row,
    so in whatever order the selected sessions are taken. *)
Theorem C4_locked_goes_live_after_ten_seconds :
  forall (t : Z) (gid : uuid) (db : DB) (s : Session) (lock : Z),
    List.NoDup (map s_id (roast_sessions db)) ->
    In s (roast_sessions db) ->
    s_status s = Status.LOCKED ->
    s_lock_time s = Some lock ->
    (lock + 10 * 1000 <= t ->
       In (WSessionStatus (s_id s) Status.LOCKED Status.LIVE)
          (journal (session_manager t gid db))
       /\ (exists l1 l2,
             result (read_locked_due t (after_lock_step t db)) = l1 ++ s :: l2
             /\ status_of (s_id s)
                  (final (go_live t gid s (final (write_live t gid l1 (after_lock_step t db)))))
                = Some Status.LIVE
             /\ (exists g,
                   In g (global_round_state
                           (final (go_live t gid s
                                     (final (write_live t gid l1 (after_lock_step t db))))))
                   /\ row_says (Some (s_id s)) RoundState.LIVE (count_unused (s_id s) db)
                               (Some lock) (Some t) t g)
             /\ (global_stamped t db ->
                 exists g,
                   latest_global
                     (final (go_live t gid s
                               (final (write_live t gid l1 (after_lock_step t db)))))
                   = Some g
                   /\ row_says (Some (s_id s)) RoundState.LIVE (count_unused (s_id s) db)
                               (Some lock) (Some t) t g)
             /\ final (session_manager t gid db)
                = final (archive_stale t gid
                           (final (sync_open t gid
                              (final (write_live t gid l2
                                 (final (go_live t gid s
                                    (final (write_live t gid l1
                                              (after_lock_step t db)))))))))))
       /\ status_of (s_id s) (final (session_manager t gid db))
          = Some (if (count_unused (s_id s) db =? 0) && (5 * 60 * 1000 <? t - lock)
                  then Status.ARCHIVED else Status.LIVE)
       /\ (In (with_status Status.LIVE s) (roast_sessions (final (session_manager t gid db)))
           \/ In (with_status Status.ARCHIVED s)
                 (roast_sessions (final (session_manager t gid db)))))
    /\ (t < lock + 10 * 1000 ->
          status_of (s_id s) (final (session_manager t gid db)) = Some Status.LOCKED
          /\ In s (roast_sessions (final (session_manager t gid db))))
    /\ (forall d : DB,
          List.NoDup (map s_id (roast_sessions d)) -> In s (roast_sessions d) ->
          status_of (s_id s) (final (go_live t gid s d)) = Some Status.LIVE
          /\ (exists g,
                In g (global_round_state (final (go_live t gid s d)))
                /\ row_says (Some (s_id s)) RoundState.LIVE (count_unused (s_id s) d)
                            (Some lock) (Some t) t g)
          /\ (global_stamped t d ->
              exists g,
                latest_global (final (go_live t gid s d)) = Some g
                /\ row_says (Some (s_id s)) RoundState.LIVE (count_unused (s_id s) d)
                            (Some lock) (Some t) t g)).
Proof.
  intros t gid db s lock Hnd Hin Hst Hlock.
  destruct (session_manager_locked_row t gid db s lock Hnd Hin Hst Hlock) as [Hdue Hearly].
  pose proof (session_manager_status_of t gid db s Hnd Hin) as Hstat.
  rewrite (status_of_locked_row t _ s lock Hst Hlock) in Hstat.
  split.
  2:{ split.
      - intros Ht. split; [| exact (Hearly Ht)].
        rewrite Hstat. destruct (Z.leb_spec (lock + 10 * 1000) t); [lia | reflexivity].
      - intros d Hndd Hind. rewrite <- Hlock. apply go_live_store; assumption. }
  intros Ht. destruct (Hdue Ht) as (Hj & _ & Hrows & _).
  split; [exact Hj |]. split.
  2:{ split; [| exact Hrows].
      rewrite Hstat. destruct (Z.leb_spec (lock + 10 * 1000) t); [reflexivity | lia]. }
  clear Hdue Hearly Hstat Hj Hrows.
  set (ids0 := map s_id (roast_sessions db)) in *.
  set (d1 := after_lock_step t db).
  assert (Hk1 : row_kept ids0 s d1).
  { unfold d1, after_lock_step. apply write_locked_kept; [| split; [reflexivity | exact Hin]].
    intros y Hy. unfold read_open_due, get, result in Hy. simpl in Hy.
    apply filter_In in Hy. destruct Hy as [Hy Hopen].
    apply (row_kept_other_id ids0 s db); try assumption; [split; [reflexivity | exact Hin] |].
    rewrite Hst. destruct (s_status y); simpl in Hopen; congruence. }
  assert (Hm1 : roast_messages d1 = roast_messages db) by apply write_locked_messages.
  assert (Hg1 : global_round_state d1 = global_round_state db).
  { unfold d1, after_lock_step, write_locked.
    apply (for_each_inv (fun d' => global_round_state d' = global_round_state db));
      [| reflexivity].
    intros y d' _ H. exact H. }
  assert (Hnd1 : List.NoDup (map s_id (roast_sessions d1)))
    by (destruct Hk1 as [-> _]; exact Hnd).
  set (locked := result (read_locked_due t d1)).
  assert (Hlocked : locked = List.filter
                      (fun x => Status.eqb (s_status x) Status.LOCKED
                                && opt_leb (s_lock_time x) (t - 10 * 1000))
                      (roast_sessions d1)) by reflexivity.
  assert (Hs : In s locked).
  { rewrite Hlocked. apply filter_In. split; [apply Hk1 |].
    rewrite Hst, Hlock. simpl. apply Z.leb_le. lia. }
  assert (Hndl : List.NoDup (map s_id locked))
    by (rewrite Hlocked; apply NoDup_map_filter; exact Hnd1).
  destruct (split_at_row locked s Hndl Hs) as (l1 & l2 & Hsplit & Hne1 & _).
  exists l1, l2. split; [exact Hsplit |].
  set (d := final (write_live t gid l1 d1)).
  assert (Hk : row_kept ids0 s d) by (apply write_live_kept; assumption).
  assert (Hndd : List.NoDup (map s_id (roast_sessions d)))
    by (destruct Hk as [-> _]; exact Hnd).
  assert (Hmd : roast_messages d = roast_messages db)
    by (unfold d; rewrite write_live_messages; exact Hm1).
  destruct (go_live_store t gid s d Hndd (proj2 Hk)) as (Hlive & Hrow & Hlatest).
  rewrite (count_unused_messages (s_id s) d db Hmd), Hlock in Hrow, Hlatest.
  split; [exact Hlive |]. split; [exact Hrow |]. split.
  - intros [Hn Hle]. apply Hlatest. unfold d, write_live.
    apply (for_each_inv (global_stamped t)).
    + intros y d' _ H. apply go_live_stamped. exact H.
    + unfold global_stamped. rewrite Hg1. split; assumption.
  - unfold session_manager, read_open_due. rewrite get_bind.
    unfold session_manager_resume. rewrite bind_final.
    change (final (write_locked _ db)) with d1.
    unfold read_locked_due at 1. rewrite get_bind.
    change (List.filter _ (roast_sessions d1)) with locked.
    rewrite !bind_final, ret_final, Hsplit. unfold write_live at 1.
    destruct (for_each_app (go_live t gid) l1 (s :: l2) d1) as [-> _].
    simpl for_each. rewrite bind_final. reflexivity.
Qed.

(** C4 at a store with one session locked at 125s, run at 136s: the row a
    reader gets right after the step, and at the end of the run. *)
Lemma C4_locked_goes_live_witness :
  status_of 1 (final (session_manager 136000 8 store_locked)) = Some Status.LIVE
  /\ latest_global (final (session_manager 136000 8 store_locked))
     = Some (mkGlobalRow 7 (Some 1%nat) RoundState.LIVE 0 1 (Some 136000) (Some 125000) 136000)
  /\ (125000 + 10 * 1000 <= 136000 ->
      exists l1 l2,
        result (read_locked_due 136000 (after_lock_step 136000 store_locked))
        = l1 ++ session_row 1 "ada" Status.LOCKED 125000 :: l2
        /\ status_of 1
             (final (go_live 136000 8 (session_row 1 "ada" Status.LOCKED 125000)
                       (final (write_live 136000 8 l1 (after_lock_step 136000 store_locked)))))
           = Some Status.LIVE
        /\ exists g,
             latest_global
               (final (go_live 136000 8 (session_row 1 "ada" Status.LOCKED 125000)
                         (final (write_live 136000 8 l1
                                   (after_lock_step 136000 store_locked)))))
             = Some g
             /\ row_says (Some 1%nat) RoundState.LIVE (count_unused 1 store_locked)
                         (Some 125000) (Some 136000) 136000 g).
Proof.
  split; [reflexivity |]. split; [reflexivity |]. intros Hdue.
  destruct (C4_locked_goes_live_after_ten_seconds 136000 8 store_locked
              (session_row 1 "ada" Status.LOCKED 125000) 125000) as [H _].
  - nodup_ids.
  - left. reflexivity.
  - reflexivity.
  - reflexivity.
  - destruct (H Hdue) as [_ [[l1 [l2 [Hs [Hl [_ [Hlatest _]]]]]] _]].
    exists l1, l2. split; [exact Hs |]. split; [exact Hl |]. apply Hlatest. stamped.
Defined.

(** ** The used flag in the store *)

Lemma used_only_rose_refl cond l : used_only_rose cond l l.
Proof.
  split; [intros m H _; exact H |].
  split; [intros m H _; left; exact H | intros m H; left; exact H].
Qed.

Lemma used_only_rose_map (p : Message -> bool) (cond : Message -> Prop) l :
  (forall m, In m l -> p m = true -> m_used m = false -> cond m) ->
  used_only_rose cond l (map (fun m => if p m then with_used true m else m) l).
Proof.
  intros Hc. split; [| split].
  - intros m Hin Hu. apply in_map_iff. exists m. split; [| exact Hin].
    destruct (p m); [apply with_used_same; exact Hu | reflexivity].
  - intros m Hin Hu. destruct (p m) eqn:Hp.
    + right. split; [apply Hc; assumption |].
      apply in_map_iff. exists m. rewrite Hp. split; [reflexivity | exact Hin].
    + left. apply in_map_iff. exists m. rewrite Hp. split; [reflexivity | exact Hin].
  - intros m' Hin. apply in_map_iff in Hin. destruct Hin as (m & <- & Hin).
    destruct (p m) eqn:Hp; [| left; exact Hin].
    destruct (m_used m) eqn:Hu.
    + left. rewrite with_used_same; assumption.
    + right. exists m. repeat split; try assumption. apply Hc; assumption.
Qed.

Lemma in_map_flipped (p : Message -> bool) l m :
  In m l -> p m = true \/ m_used m = true ->
  In (with_used true m) (map (fun x => if p x then with_used true x else x) l).
Proof.
  intros Hin H. apply in_map_iff. exists m. split; [| exact Hin].
  destruct (p m) eqn:Hp; [reflexivity |].
  destruct H as [H|H]; [discriminate H | symmetry; apply with_used_same; exact H].
Qed.

Lemma update_used_messages t p v db :
  (result (update_used t p v db) = false /\ final (update_used t p v db) = db)
  \/ (result (update_used t p v db) = true
      /\ roast_messages (final (update_used t p v db))
         = map (fun m => if p m then with_used v m else m) (roast_messages db)).
Proof.
  unfold update_used. destruct (fire_triggers _ _ _ _); [right | left]; split; reflexivity.
Qed.

Lemma updateGlobalRoundState_messages t gid sid rs se ls d :
  roast_messages (final (updateGlobalRoundState t gid sid rs se ls d)) = roast_messages d.
Proof. apply updateGlobalRoundState_tables. Qed.

Lemma ensure_next_session_messages e sid d :
  roast_messages (final (ensure_next_session e sid d)) = roast_messages d.
Proof.
  unfold ensure_next_session. rewrite get_bind.
  destruct (activeSessions d) as [|a rest].
  - unfold create_next_session. rewrite get_bind.
    destruct (personas d) as [|p0 ps].
    + rewrite bind_final, ret_final. apply updateGlobalRoundState_messages.
    + destruct (nth_error (p0 :: ps) (random_index e)) as [p|]; [| reflexivity].
      rewrite !bind_final, ret_final, updateGlobalRoundState_messages. reflexivity.
  - unfold reconcile. rewrite get_bind, bind_final, ret_final.
    destruct (find_session (s_id a) d); [apply updateGlobalRoundState_messages | reflexivity].
Qed.

(** The message table after a completion call, whatever it answers. *)
Lemma complete_live_round_messages e body db :
  roast_messages (final (complete_live_round e body db)) = roast_messages db
  \/ exists sid,
       body = Some sid
       /\ roast_messages (final (complete_live_round e body db))
          = map (fun m => if leftover sid m then with_used true m else m) (roast_messages db).
Proof.
  destruct body as [sid|]; [| left; reflexivity].
  unfold complete_live_round. rewrite get_bind.
  destruct (find_session sid db) as [s0|]; [| left; reflexivity].
  rewrite !bind_final.
  set (d1 := final (archive_live sid db)).
  assert (Hm1 : roast_messages d1 = roast_messages db) by reflexivity.
  unfold mark_remaining_used.
  destruct (update_used_messages (now e) (fun m => Nat.eqb (m_session_id m) sid && negb (m_used m))
              true d1) as [[Hr Hf] | [Hr Hf]]; rewrite Hr.
  - left. rewrite ret_final, Hf. exact Hm1.
  - right. exists sid. split; [reflexivity |].
    rewrite ensure_next_session_messages, Hf, Hm1. reflexivity.
Qed.

(** C5.  The used flag of a message, in the write journals and in the
    stores.  Journals: every write of the flag by the completion service
    flips it from false to true; the controller writes none; a client write
    sets it to true on a message whose session is LIVE.  Stores: the
    controller leaves the message table as it was; after a completion call
    every row is as before or had its flag turned from false to true, the
    latter only for rows of the session named in the call, and a call that
    succeeds leaves every row of that session with the flag set; after a
    client update every row is as before or had its flag turned from false
    to true, the latter only for rows the update names whose session is
    LIVE in the store, and an update to true that is accepted leaves every
    such row with the flag set; a client update that is refused, or that
    asks for false, or that names only rows whose session is not LIVE,
    leaves the whole store as it was. *)
Theorem C5_used_only_rises_and_clients_need_live :
  (forall e body db, Forall flips_to_used (journal (complete_live_round e body db)))
  /\ (forall t gid db, Forall not_used_write (journal (session_manager t gid db)))
  /\ (forall t p v db,
        List.NoDup (map s_id (roast_sessions db)) ->
        Forall sets_used_while_live (journal (client_update_used t p v db)))
  /\ (forall t gid db,
        List.NoDup (map s_id (roast_sessions db)) ->
        roast_messages (final (session_manager t gid db)) = roast_messages db)
  /\ (forall e body db,
        used_only_rose (fun m => body = Some (m_session_id m))
          (roast_messages db) (roast_messages (final (complete_live_round e body db))))
  /\ (forall e sid db r c,
        result (complete_live_round e (Some sid) db) = Success r c ->
        forall m, In m (roast_messages db) -> m_session_id m = sid ->
          In (with_used true m)
             (roast_messages (final (complete_live_round e (Some sid) db))))
  /\ (forall t p v db,
        used_only_rose
          (fun m => p m = true /\ session_is_live (m_session_id m) db = true)
          (roast_messages db) (roast_messages (final (client_update_used t p v db))))
  /\ (forall t p db,
        result (client_update_used t p true db) = true ->
        forall m, In m (roast_messages db) -> p m = true ->
          session_is_live (m_session_id m) db = true ->
          In (with_used true m) (roast_messages (final (client_update_used t p true db))))
  /\ (forall t p v db,
        result (client_update_used t p v db) = false
        \/ v = false
        \/ (forall m, In m (roast_messages db) -> p m = true ->
                      session_is_live (m_session_id m) db = false) ->
        final (client_update_used t p v db) = db).
Proof.
  destruct used_writes_only_rise as (J1 & J2 & J3).
  split; [exact J1 |]. split; [exact J2 |]. split; [exact J3 |]. clear J1 J2 J3.
  split; [intros t gid db Hnd; apply (session_manager_rows t gid db Hnd) |].
  split; [| split; [| split; [| split]]].
  - intros e body db.
    destruct (complete_live_round_messages e body db) as [-> | (sid & -> & ->)];
      [apply used_only_rose_refl |].
    apply used_only_rose_map. intros m _ Hp _. unfold leftover in Hp.
    apply andb_true_iff in Hp. destruct Hp as [Hp _]. apply Nat.eqb_eq in Hp.
    rewrite Hp. reflexivity.
  - intros e sid db r c Hres m Hin Hsid.
    destruct (complete_live_round_tables e sid db r c Hres) as (_ & -> & _).
    apply in_map_flipped; [exact Hin |]. unfold leftover.
    destruct (m_used m); [right; reflexivity | left].
    rewrite Hsid, Nat.eqb_refl. reflexivity.
  - intros t p v db. unfold client_update_used.
    destruct (forallb _ _) eqn:Hcheck; [| apply used_only_rose_refl].
    destruct (update_used_messages t (fun m => p m && policy_using db m) v db)
      as [[_ ->] | [_ ->]]; [apply used_only_rose_refl |].
    destruct v.
    + apply used_only_rose_map. intros m _ Hp _. apply andb_true_iff in Hp. exact Hp.
    + rewrite forallb_forall in Hcheck.
      replace (map _ (roast_messages db)) with (roast_messages db);
        [apply used_only_rose_refl |].
      rewrite <- (map_id (roast_messages db)) at 1. apply map_ext_in.
      intros m Hin. destruct (p m && policy_using db m) eqn:Hvis; [| reflexivity].
      specialize (Hcheck m ltac:(apply filter_In; split; assumption)).
      unfold policy_with_check in Hcheck. simpl in Hcheck.
      apply andb_true_iff in Hcheck. destruct Hcheck as [_ Hcheck]. discriminate Hcheck.
  - intros t p db Hres m Hin Hp Hlive.
    rewrite client_update_used_passes in Hres |- *.
    destruct (update_used_messages t (fun m => p m && policy_using db m) true db)
      as [[Hr _] | [_ ->]]; [congruence |].
    apply (in_map_flipped (fun m => p m && policy_using db m)); [exact Hin |].
    left. unfold policy_using. rewrite Hp, Hlive. reflexivity.
  - intros t p v db H. unfold client_update_used.
    destruct (forallb _ _) eqn:Hcheck; [| reflexivity].
    destruct H as [Hres | [-> | Hnone]].
    + unfold client_update_used in Hres. rewrite Hcheck in Hres.
      destruct (update_used_messages t (fun m => p m && policy_using db m) v db)
        as [[_ Hf] | [Hr _]]; [exact Hf | congruence].
    + assert (Hno : forall m, In m (roast_messages db) ->
                              p m && policy_using db m = false).
      { intros m Hin. destruct (p m && policy_using db m) eqn:Hvis; [| reflexivity].
        rewrite forallb_forall in Hcheck.
        specialize (Hcheck m ltac:(apply filter_In; split; assumption)).
        unfold policy_with_check in Hcheck. simpl in Hcheck.
        apply andb_true_iff in Hcheck. destruct Hcheck as [_ Hcheck]. discriminate Hcheck. }
      rewrite (update_used_noop t _ false db Hno). reflexivity.
    + assert (Hno : forall m, In m (roast_messages db) ->
                              p m && policy_using db m = false).
      { intros m Hin. destruct (p m) eqn:Hp; [| reflexivity].
        unfold policy_using. rewrite (Hnone m Hin Hp). reflexivity. }
      rewrite (update_used_noop t _ v db Hno). reflexivity.
Qed.
